(** * sql-fs: the metadata and content engine over three SQL relations

    A shallow embedding of [sqlfs/fs.go] (the FUSE-facing node methods and
    the SQL helpers behind them) together with the schema of [schema.sql].

    The backing store is modelled by its three relations, the inode
    sequence, the single transaction a helper may hold open, and a fault
    schedule that decides which round trips to the store fail for reasons
    of the store's own (lost connection, serialization conflict).  Every Go
    function is transcribed statement by statement; a function that takes a
    [*fileNode] and writes through the pointer returns the updated node
    next to its error.  A call that ends in a panic, which [toJSON] raises
    when [json.Marshal] fails, is told from one that returns. *)

From Stdlib Require Import Strings.Byte.
From stdpp Require Import base numbers list strings gmap sorting.
From Equations Require Import Equations.

Local Open Scope Z_scope.

(** ** Constants of [fs.go] *)

Definition rootInode : Z := 1.

Definition BLOCK_SIZE : nat := 1024.
Arguments BLOCK_SIZE : simpl never.

(** The [os.FileMode] type bits (Go's [os] package, a [uint32]). *)
Definition ModeDir : Z := Z.shiftl 1 31.
Definition ModeSymlink : Z := Z.shiftl 1 27.
Definition ModeDevice : Z := Z.shiftl 1 26.
Definition ModeNamedPipe : Z := Z.shiftl 1 25.
Definition ModeSocket : Z := Z.shiftl 1 24.
Definition ModeCharDevice : Z := Z.shiftl 1 21.
Definition ModeIrregular : Z := Z.shiftl 1 19.
Definition ModeType : Z :=
  Z.lor ModeDir (Z.lor ModeSymlink (Z.lor ModeNamedPipe
    (Z.lor ModeSocket (Z.lor ModeDevice (Z.lor ModeCharDevice ModeIrregular))))).

(** [uint32] arithmetic wraps. *)
Definition wrap32 (z : Z) : Z := z mod 2 ^ 32.

(** ** Errors *)

(** Errors of the SQL layer: [sql.ErrNoRows], a violated uniqueness
    constraint, a failure of the store itself, a statement on a finished
    transaction, and the wrappers of [github.com/pkg/errors]. *)
Inductive error : Type :=
  | ErrNoRows
  | ErrUnique
  | ErrDriver
  | ErrTxDone
  | Wrapf (cause : error) (msg : string).

(** The error numbers listed at the top of [fs.go], and [ENOTEMPTY], which
    [Remove] takes from [syscall]. *)
Inductive Errno : Type :=
  | ENOSYS | ESTALE | ENOENT | EIO | EPERM | EINTR | ERANGE | ENOTSUP
  | EEXIST | ENOATTR | ENOTEMPTY.

(** ** The node structure *)

(** [fileNode].  [fs] records whether the file system pointer is set.  A
    duration is a number of nanoseconds; a [time.Time] is kept as the
    number of nanoseconds from the zero [time.Time], January 1 of year 1,
    00:00:00 UTC (locations and the monotonic reading are not modelled). *)
Record fileNode : Type := mkNode {
  fs : bool;
  Valid : Z;
  Inode : Z;
  Size : Z;
  Blocks : Z;
  Atime : Z;
  Mtime : Z;
  Ctime : Z;
  Crtime : Z;
  Mode : Z;
  Nlink : Z;
  Uid : Z;
  Gid : Z;
  Rdev : Z;
  Flags : Z;
  BlockSize : Z;
  Name : string;
  SymlinkTarget : string
}.

(** The zero value [fileNode{}]. *)
Definition zeroNode : fileNode :=
  mkNode false 0 0 0 0 0 0 0 0 0 0 0 0 0 0 0 "" "".

Definition set_fs (v : bool) (n : fileNode) : fileNode :=
  mkNode v (Valid n) (Inode n) (Size n) (Blocks n) (Atime n) (Mtime n) (Ctime n)
    (Crtime n) (Mode n) (Nlink n) (Uid n) (Gid n) (Rdev n) (Flags n)
    (BlockSize n) (Name n) (SymlinkTarget n).
Definition set_Inode (v : Z) (n : fileNode) : fileNode :=
  mkNode (fs n) (Valid n) v (Size n) (Blocks n) (Atime n) (Mtime n) (Ctime n)
    (Crtime n) (Mode n) (Nlink n) (Uid n) (Gid n) (Rdev n) (Flags n)
    (BlockSize n) (Name n) (SymlinkTarget n).
Definition set_Size (v : Z) (n : fileNode) : fileNode :=
  mkNode (fs n) (Valid n) (Inode n) v (Blocks n) (Atime n) (Mtime n) (Ctime n)
    (Crtime n) (Mode n) (Nlink n) (Uid n) (Gid n) (Rdev n) (Flags n)
    (BlockSize n) (Name n) (SymlinkTarget n).
Definition set_Atime (v : Z) (n : fileNode) : fileNode :=
  mkNode (fs n) (Valid n) (Inode n) (Size n) (Blocks n) v (Mtime n) (Ctime n)
    (Crtime n) (Mode n) (Nlink n) (Uid n) (Gid n) (Rdev n) (Flags n)
    (BlockSize n) (Name n) (SymlinkTarget n).
Definition set_Mtime (v : Z) (n : fileNode) : fileNode :=
  mkNode (fs n) (Valid n) (Inode n) (Size n) (Blocks n) (Atime n) v (Ctime n)
    (Crtime n) (Mode n) (Nlink n) (Uid n) (Gid n) (Rdev n) (Flags n)
    (BlockSize n) (Name n) (SymlinkTarget n).
Definition set_Ctime (v : Z) (n : fileNode) : fileNode :=
  mkNode (fs n) (Valid n) (Inode n) (Size n) (Blocks n) (Atime n) (Mtime n) v
    (Crtime n) (Mode n) (Nlink n) (Uid n) (Gid n) (Rdev n) (Flags n)
    (BlockSize n) (Name n) (SymlinkTarget n).
Definition set_Crtime (v : Z) (n : fileNode) : fileNode :=
  mkNode (fs n) (Valid n) (Inode n) (Size n) (Blocks n) (Atime n) (Mtime n)
    (Ctime n) v (Mode n) (Nlink n) (Uid n) (Gid n) (Rdev n) (Flags n)
    (BlockSize n) (Name n) (SymlinkTarget n).
Definition set_Mode (v : Z) (n : fileNode) : fileNode :=
  mkNode (fs n) (Valid n) (Inode n) (Size n) (Blocks n) (Atime n) (Mtime n)
    (Ctime n) (Crtime n) v (Nlink n) (Uid n) (Gid n) (Rdev n) (Flags n)
    (BlockSize n) (Name n) (SymlinkTarget n).
Definition set_Nlink (v : Z) (n : fileNode) : fileNode :=
  mkNode (fs n) (Valid n) (Inode n) (Size n) (Blocks n) (Atime n) (Mtime n)
    (Ctime n) (Crtime n) (Mode n) v (Uid n) (Gid n) (Rdev n) (Flags n)
    (BlockSize n) (Name n) (SymlinkTarget n).
Definition set_Uid (v : Z) (n : fileNode) : fileNode :=
  mkNode (fs n) (Valid n) (Inode n) (Size n) (Blocks n) (Atime n) (Mtime n)
    (Ctime n) (Crtime n) (Mode n) (Nlink n) v (Gid n) (Rdev n) (Flags n)
    (BlockSize n) (Name n) (SymlinkTarget n).
Definition set_Gid (v : Z) (n : fileNode) : fileNode :=
  mkNode (fs n) (Valid n) (Inode n) (Size n) (Blocks n) (Atime n) (Mtime n)
    (Ctime n) (Crtime n) (Mode n) (Nlink n) (Uid n) v (Rdev n) (Flags n)
    (BlockSize n) (Name n) (SymlinkTarget n).
Definition set_Name (v : string) (n : fileNode) : fileNode :=
  mkNode (fs n) (Valid n) (Inode n) (Size n) (Blocks n) (Atime n) (Mtime n)
    (Ctime n) (Crtime n) (Mode n) (Nlink n) (Uid n) (Gid n) (Rdev n) (Flags n)
    (BlockSize n) v (SymlinkTarget n).

(** [os.FileMode.IsRegular], [IsDir] and the symlink test of [fs.go]. *)
Definition IsRegular (n : fileNode) : bool := Z.land (Mode n) ModeType =? 0.
Definition IsDirectory (n : fileNode) : bool :=
  negb (Z.land (Mode n) ModeDir =? 0).
Definition IsSymlink (n : fileNode) : bool :=
  negb (Z.land (Mode n) ModeSymlink =? 0).

(** *** What [json.Marshal] writes

    [json.Marshal] fails on a [time.Time] whose year lies outside 0..9999,
    and for a [fileNode] on nothing else; [toJSON] then panics. *)
Definition time_ok (t : Z) : Prop :=
  - (366 * 86400 * 10 ^ 9) ≤ t < 3652059 * 86400 * 10 ^ 9.

Definition marshals (n : fileNode) : Prop :=
  time_ok (Atime n) ∧ time_ok (Mtime n) ∧ time_ok (Ctime n) ∧ time_ok (Crtime n).

#[global] Instance time_ok_dec t : Decision (time_ok t).
Proof. unfold time_ok. apply _. Defined.

#[global] Instance marshals_dec n : Decision (marshals n).
Proof. unfold marshals. apply _. Defined.

(** A string is written as valid UTF-8: [json.Marshal] replaces every byte
    that does not start a well-formed sequence (those for which Go's
    [utf8.DecodeRuneInString] answers [RuneError] with width 1) by U+FFFD,
    and leaves the well-formed sequences as they are. *)
Definition byte_code (c : Ascii.ascii) : Z := Z.of_N (Ascii.N_of_ascii c).

(** The first byte of [s], if any, lies in [lo..hi]. *)
Definition starts_in (lo hi : Z) (s : string) : bool :=
  match s with
  | String c _ => (lo <=? byte_code c) && (byte_code c <=? hi)
  | EmptyString => false
  end.

Definition rest_of (s : string) : string :=
  match s with
  | String _ rest => rest
  | EmptyString => EmptyString
  end.

(** The width of the well-formed sequence at the head of [s], after the
    table of Go's [unicode/utf8]: the range of the second byte depends on
    the first, the later bytes lie in [0x80..0xBF]. *)
Definition rune_size (s : string) : option nat :=
  match s with
  | EmptyString => None
  | String c rest =>
      let b := byte_code c in
      let two (lo hi : Z) :=
        if starts_in lo hi rest then Some 2%nat else None in
      let three (lo hi : Z) :=
        if starts_in lo hi rest && starts_in 128 191 (rest_of rest)
        then Some 3%nat else None in
      let four (lo hi : Z) :=
        if starts_in lo hi rest && starts_in 128 191 (rest_of rest)
           && starts_in 128 191 (rest_of (rest_of rest))
        then Some 4%nat else None in
      if b <? 128 then Some 1%nat
      else if b <? 194 then None
      else if b <? 224 then two 128 191
      else if b =? 224 then three 160 191
      else if b =? 237 then three 128 159
      else if b <? 240 then three 128 191
      else if b =? 240 then four 144 191
      else if b <? 244 then four 128 191
      else if b =? 244 then four 128 143
      else None
  end.

(** U+FFFD in UTF-8. *)
Definition replacement : string :=
  String (Ascii.ascii_of_N 239)
    (String (Ascii.ascii_of_N 191) (String (Ascii.ascii_of_N 189) EmptyString)).

(** [sanitize k s]: [s] with its ill-formed bytes replaced, the first [k]
    bytes being the rest of a sequence already accepted. *)
Fixpoint sanitize (k : nat) (s : string) : string :=
  match s with
  | EmptyString => EmptyString
  | String c rest =>
      match k with
      | S k' => String c (sanitize k' rest)
      | O =>
          match rune_size s with
          | Some size => String c (sanitize (size - 1) rest)
          | None => String.append replacement (sanitize 0 rest)
          end
      end
  end.

Definition to_valid_utf8 (s : string) : string := sanitize 0 s.

(** The [struct_data] column: the JSON object [toJSON] produces.  [Inode]
    and [Name] carry the tag [json:"-"] and [fs] is unexported, so the
    object holds the fifteen remaining fields: the numbers and times as
    they are, the string as valid UTF-8.  The column is a [STRING], which
    the store keeps as it was written. *)
Record struct_data : Type := mkJSON {
  j_Valid : Z;
  j_Size : Z;
  j_Blocks : Z;
  j_Atime : Z;
  j_Mtime : Z;
  j_Ctime : Z;
  j_Crtime : Z;
  j_Mode : Z;
  j_Nlink : Z;
  j_Uid : Z;
  j_Gid : Z;
  j_Rdev : Z;
  j_Flags : Z;
  j_BlockSize : Z;
  j_SymlinkTarget : string
}.

(** The object [toJSON] returns for a node that marshals.  For a node that
    does not, [toJSON] panics: a caller that hands it a node of any origin
    tests [marshals] before. *)
Definition toJSON (n : fileNode) : struct_data :=
  mkJSON (Valid n) (Size n) (Blocks n) (Atime n) (Mtime n) (Ctime n) (Crtime n)
    (Mode n) (Nlink n) (Uid n) (Gid n) (Rdev n) (Flags n) (BlockSize n)
    (to_valid_utf8 (SymlinkTarget n)).

(** How a call ends: it returns, or it panics. *)
Inductive outcome (A : Type) : Type :=
  | Returns (a : A)
  | Panics.
Arguments Returns {A} a.
Arguments Panics {A}.

(** [json.Unmarshal([]byte(struct_data), n)]: the fields of the object
    overwrite those of [n]; the others keep the value [n] had. *)
Definition Unmarshal (j : struct_data) (n : fileNode) : fileNode :=
  mkNode (fs n) (j_Valid j) (Inode n) (j_Size j) (j_Blocks j) (j_Atime j)
    (j_Mtime j) (j_Ctime j) (j_Crtime j) (j_Mode j) (j_Nlink j) (j_Uid j)
    (j_Gid j) (j_Rdev j) (j_Flags j) (j_BlockSize j) (Name n)
    (j_SymlinkTarget j).

(** ** The relations of [schema.sql] *)

(** A row of [tree].  The table has no declared primary key; its rows are
    kept as a list, whose positions stand for the hidden row identifiers. *)
Record tree_row : Type := mkTree {
  t_inode : Z;
  t_parent : Z;
  t_name : string
}.

(** A row of [data_blocks], primary key [(inode, sequence)]. *)
Record block_row : Type := mkBlock {
  b_inode : Z;
  b_sequence : Z;
  b_data : list byte
}.

(** The three relations; [inodes] has primary key [inode]. *)
Record Store : Type := mkStore {
  tree : list tree_row;
  inodes : gmap Z struct_data;
  data_blocks : list block_row
}.

(** The store as the process sees it: the committed relations, the sequence
    [inode_seq] (a sequence is not transactional: a value drawn is never
    given back), the working copy of the transaction in progress, if any,
    and the fault schedule, one flag per round trip still to come ([true]:
    that round trip fails; an exhausted schedule means no failure). *)
Record World : Type := mkWorld {
  store : Store;
  inode_seq : Z;
  open_tx : option Store;
  faults : list bool
}.

(** *** Statements, as functions on the relations *)

Definition same_slot (parent : Z) (name : string) (r : tree_row) : Prop :=
  t_parent r = parent ∧ t_name r = name.

Definition same_block (inode sequence : Z) (r : block_row) : Prop :=
  b_inode r = inode ∧ b_sequence r = sequence.

#[global] Instance same_slot_dec parent name r : Decision (same_slot parent name r).
Proof. unfold same_slot. apply _. Defined.

#[global] Instance same_block_dec inode sequence r :
  Decision (same_block inode sequence r).
Proof. unfold same_block. apply _. Defined.

(** [UPSERT INTO tree(inode, parent, name) VALUES ($1, $2, $3)].  The
    conflict target of an [UPSERT] is the primary key, here the hidden row
    identifier, so the statement always inserts; [UNIQUE (name, parent)]
    rejects a second row for the slot. *)
Definition sql_insert_tree (inode parent : Z) (name : string) (s : Store)
  : error + Store :=
  if decide (Exists (same_slot parent name) (tree s)) then inl ErrUnique
  else inr (mkStore (tree s ++ [mkTree inode parent name]) (inodes s)
              (data_blocks s)).

(** [UPSERT INTO inodes(inode, struct_data) VALUES ($1, $2)]. *)
Definition sql_upsert_inode (inode : Z) (j : struct_data) (s : Store)
  : error + Store :=
  inr (mkStore (tree s) (<[inode := j]> (inodes s)) (data_blocks s)).

(** [UPDATE tree SET name = $1, parent = $2 WHERE name = $3 AND parent = $4]. *)
Definition rename_row (newName : string) (newParent : Z) (oldName : string)
    (oldParent : Z) (r : tree_row) : tree_row :=
  if decide (same_slot oldParent oldName r)
  then mkTree (t_inode r) newParent newName
  else r.

Definition sql_update_tree (newName : string) (newParent : Z)
    (oldName : string) (oldParent : Z) (s : Store) : error + Store :=
  let tree' := rename_row newName newParent oldName oldParent <$> tree s in
  if decide (Exists (same_slot oldParent oldName) (tree s)) then
    if decide (1 < length (filter (same_slot newParent newName) tree'))%nat
    then inl ErrUnique
    else inr (mkStore tree' (inodes s) (data_blocks s))
  else inr s.

(** [SELECT COUNT( * ) FROM tree WHERE parent = $1]. *)
Definition sql_count_children (inode : Z) (s : Store) : error + Z :=
  inr (Z.of_nat (length (filter (λ r, t_parent r = inode) (tree s)))).

(** [SELECT COUNT( * ) FROM tree WHERE inode = $1]. *)
Definition sql_count_refs (inode : Z) (s : Store) : error + Z :=
  inr (Z.of_nat (length (filter (λ r, t_inode r = inode) (tree s)))).

(** [DELETE FROM tree WHERE parent = $1 and name = $2]. *)
Definition sql_delete_tree (parent : Z) (name : string) (s : Store)
  : error + Store :=
  inr (mkStore (filter (λ r, ¬ same_slot parent name r) (tree s)) (inodes s)
         (data_blocks s)).

(** [DELETE FROM inodes WHERE inode = $1]. *)
Definition sql_delete_inode (inode : Z) (s : Store) : error + Store :=
  inr (mkStore (tree s) (delete inode (inodes s)) (data_blocks s)).

(** [DELETE FROM data_blocks WHERE inode = $1]. *)
Definition sql_delete_blocks (inode : Z) (s : Store) : error + Store :=
  inr (mkStore (tree s) (inodes s)
         (filter (λ r, b_inode r ≠ inode) (data_blocks s))).

(** [INSERT INTO data_blocks (inode, sequence, data) VALUES ($1, $2, $3)]. *)
Definition sql_insert_block (inode sequence : Z) (data : list byte) (s : Store)
  : error + Store :=
  if decide (Exists (same_block inode sequence) (data_blocks s))
  then inl ErrUnique
  else inr (mkStore (tree s) (inodes s)
              (data_blocks s ++ [mkBlock inode sequence data])).

(** The order of [ORDER BY sequence]. *)
Definition by_sequence (a b : block_row) : Prop := b_sequence a ≤ b_sequence b.

#[global] Instance by_sequence_dec a b : Decision (by_sequence a b).
Proof. unfold by_sequence. apply _. Defined.

(** [SELECT data FROM data_blocks WHERE inode = $1 ORDER BY sequence]. *)
Definition sql_select_blocks (inode : Z) (s : Store) : error + list (list byte) :=
  inr (b_data <$>
         merge_sort by_sequence (filter (λ r, b_inode r = inode) (data_blocks s))).

(** [SELECT inode FROM tree WHERE parent = $1 and name = $2 LIMIT 1]. *)
Definition sql_select_slot (parent : Z) (name : string) (s : Store) : error + Z :=
  match filter (same_slot parent name) (tree s) with
  | r :: _ => inr (t_inode r)
  | [] => inl ErrNoRows
  end.

(** [SELECT struct_data FROM inodes WHERE inode = $1 LIMIT 1]. *)
Definition sql_select_inode (inode : Z) (s : Store) : error + struct_data :=
  match inodes s !! inode with
  | Some j => inr j
  | None => inl ErrNoRows
  end.

(** *** Round trips to the store *)

(** Draws the next flag of the fault schedule. *)
Definition next_fault (w : World) : bool * World :=
  match faults w with
  | [] => (false, w)
  | b :: rest => (b, mkWorld (store w) (inode_seq w) (open_tx w) rest)
  end.

(** [db.BeginTx]: the transaction starts from the committed relations. *)
Definition BeginTx (w : World) : (error + unit) * World :=
  let '(failed, w) := next_fault w in
  if failed then (inl ErrDriver, w)
  else (inr (), mkWorld (store w) (inode_seq w) (Some (store w)) (faults w)).

(** [tx.ExecContext]: the statement changes the working copy only. *)
Definition tx_Exec (stmt : Store → error + Store) (w : World)
  : (error + unit) * World :=
  let '(failed, w) := next_fault w in
  if failed then (inl ErrDriver, w)
  else match open_tx w with
       | None => (inl ErrTxDone, w)
       | Some s =>
           match stmt s with
           | inl e => (inl e, w)
           | inr s' => (inr (), mkWorld (store w) (inode_seq w) (Some s') (faults w))
           end
       end.

(** [tx.QueryRowContext(...).Scan]. *)
Definition tx_Query {A : Type} (q : Store → error + A) (w : World)
  : (error + A) * World :=
  let '(failed, w) := next_fault w in
  if failed then (inl ErrDriver, w)
  else match open_tx w with
       | None => (inl ErrTxDone, w)
       | Some s => (q s, w)
       end.

(** [tx.Rollback]: the working copy is dropped.  Its own error is ignored
    by every caller. *)
Definition tx_Rollback (w : World) : World :=
  mkWorld (store w) (inode_seq w) None (faults w).

(** [tx.Commit]: the working copy becomes the committed relations; a commit
    that fails leaves them as they were. *)
Definition tx_Commit (w : World) : (error + unit) * World :=
  let '(failed, w) := next_fault w in
  if failed then (inl ErrDriver, tx_Rollback w)
  else match open_tx w with
       | None => (inl ErrTxDone, w)
       | Some s => (inr (), mkWorld s (inode_seq w) None (faults w))
       end.

(** [db.ExecContext] outside a transaction: the statement commits by itself. *)
Definition db_Exec (stmt : Store → error + Store) (w : World)
  : (error + unit) * World :=
  let '(failed, w) := next_fault w in
  if failed then (inl ErrDriver, w)
  else match stmt (store w) with
       | inl e => (inl e, w)
       | inr s' => (inr (), mkWorld s' (inode_seq w) (open_tx w) (faults w))
       end.

(** [db.QueryContext] and [db.QueryRowContext] outside a transaction: they
    read the committed relations. *)
Definition db_Query {A : Type} (q : Store → error + A) (w : World)
  : (error + A) * World :=
  let '(failed, w) := next_fault w in
  if failed then (inl ErrDriver, w) else (q (store w), w).

(** The loop [for rows.Next() { ... }] over the rows of a query: every call
    of [rows.Next] is a round trip, the one that finds the rows exhausted
    included.  A call that fails answers [false] like the one at the end of
    the rows, and no caller in [fs.go] asks [rows.Err()]: the loop is over
    with the rows scanned so far. *)
Fixpoint rows_Next {A : Type} (rows : list A) (w : World) : list A * World :=
  let '(failed, w) := next_fault w in
  match rows with
  | [] => ([], w)
  | row :: rest =>
      if failed then ([], w)
      else let '(scanned, w) := rows_Next rest w in (row :: scanned, w)
  end.

(** [tx.QueryRowContext] of
    [UPSERT INTO tree(parent, name) VALUES ($1, $2) RETURNING inode]: the
    [inode] column takes its default, [nextval('inode_seq')], drawn before
    the uniqueness constraint is checked. *)
Definition tx_InsertReturning (parent : Z) (name : string) (w : World)
  : (error + Z) * World :=
  let '(failed, w) := next_fault w in
  if failed then (inl ErrDriver, w)
  else match open_tx w with
       | None => (inl ErrTxDone, w)
       | Some s =>
           let lastId := inode_seq w in
           match sql_insert_tree lastId parent name s with
           | inl e => (inl e, mkWorld (store w) (lastId + 1) (Some s) (faults w))
           | inr s' =>
               (inr lastId, mkWorld (store w) (lastId + 1) (Some s') (faults w))
           end
       end.

(** ** The SQL helpers of [fs.go] *)

Definition GetNodeByID (inode : Z) (w : World) : (error + fileNode) * World :=
  match db_Query (sql_select_inode inode) w with
  | (inl err, w) => (inl err, w)
  | (inr j, w) => (inr (Unmarshal j (set_Inode inode zeroNode)), w)
  end.

Definition GetNodeByName (parent : Z) (name : string) (w : World)
  : (error + fileNode) * World :=
  match db_Query (sql_select_slot parent name) w with
  | (inl err, w) => (inl err, w)
  | (inr inode, w) => GetNodeByID inode w
  end.

(** [UpdateNode]: [n.toJSON()] is an argument of [db.ExecContext], so a
    panic comes before the round trip. *)
Definition UpdateNode (n : fileNode) (w : World)
  : outcome (option error) * World :=
  if decide (marshals n) then
    match db_Exec (sql_upsert_inode (Inode n) (toJSON n)) w with
    | (inl err, w) => (Returns (Some err), w)
    | (inr _, w) => (Returns None, w)
    end
  else (Panics, w).

Definition CountNodesInDir (inode : Z) (w : World) : (error + Z) * World :=
  match db_Query (sql_count_children inode) w with
  | (inl err, w) => (inl err, w)
  | (inr count, w) => (inr count, w)
  end.

Definition RenameNode (oldParent : Z) (oldName : string) (newParent : Z)
    (newName : string) (w : World) : option error * World :=
  match db_Exec (sql_update_tree newName newParent oldName oldParent) w with
  | (inl err, w) => (Some (Wrapf err "failed to rename node"), w)
  | (inr _, w) => (None, w)
  end.

(** [CreateLink] marshals [toUpdate], a node it has just decoded from a
    row: the times of a row were written by [json.Marshal], and
    [toUpdate.toJSON()] is taken to return. *)
Definition CreateLink (parent : Z) (n : fileNode) (w : World)
  : option error * World :=
  match BeginTx w with
  | (inl err, w) => (Some err, w)
  | (inr _, w) =>
  match tx_Exec (sql_insert_tree (Inode n) parent (Name n)) w with
  | (inl err, w) =>
      (Some (Wrapf err "failed to upsert row into tree in parent %d"),
       tx_Rollback w)
  | (inr _, w) =>
  match GetNodeByID (Inode n) w with
  | (inl err, w) =>
      (Some (Wrapf err "failed to retrieve node for update %d"), tx_Rollback w)
  | (inr toUpdate, w) =>
  let toUpdate := set_Nlink (wrap32 (Nlink toUpdate + 1)) toUpdate in
  let toUpdate := set_Name (Name n) toUpdate in
  match tx_Exec (sql_upsert_inode (Inode n) (toJSON toUpdate)) w with
  | (inl err, w) =>
      (Some (Wrapf err "failed to upsert into inodes for inode %d"),
       tx_Rollback w)
  | (inr _, w) =>
  match tx_Commit w with
  | (inl err, w) => (Some err, w)
  | (inr _, w) => (None, w)
  end end end end end.

(** [UpsertNode] writes [Mtime], [Ctime] and [Inode] through its pointer;
    [now1] and [now2] are the two readings of [time.Now()].  Its callers
    build [n] in place, all its times zero: with the two readings of the
    clock [n.toJSON()] is taken to return. *)
Definition UpsertNode (now1 now2 : Z) (parent : Z) (n : fileNode) (w : World)
  : (fileNode * option error) * World :=
  match BeginTx w with
  | (inl err, w) => (n, Some err, w)
  | (inr _, w) =>
  let n := set_Mtime now1 n in
  let n := set_Ctime now2 n in
  match tx_InsertReturning parent (Name n) w with
  | (inl err, w) =>
      (n, Some (Wrapf err "failed to upsert row into tree in parent %d"),
       tx_Rollback w)
  | (inr lastId, w) =>
  let n := set_Inode lastId n in
  match tx_Exec (sql_upsert_inode lastId (toJSON n)) w with
  | (inl err, w) =>
      (n, Some (Wrapf err "failed to upsert into inodes for inode %d"),
       tx_Rollback w)
  | (inr _, w) =>
  match tx_Commit w with
  | (inl err, w) => (n, Some err, w)
  | (inr _, w) => (n, None, w)
  end end end end.

(** [RemoveNodeByName].  When another tree entry still names the inode the
    function returns [nil] at once: the transaction is neither committed
    nor rolled back, and stays in [open_tx]. *)
Definition RemoveNodeByName (parent : Z) (name : string) (inode : Z) (w : World)
  : option error * World :=
  match BeginTx w with
  | (inl err, w) => (Some err, w)
  | (inr _, w) =>
  match tx_Exec (sql_delete_tree parent name) w with
  | (inl err, w) => (Some err, tx_Rollback w)
  | (inr _, w) =>
  match tx_Query (sql_count_refs inode) w with
  | (inl err, w) => (Some err, tx_Rollback w)
  | (inr count, w) =>
  if decide (0 < count) then (None, w)
  else
  match tx_Exec (sql_delete_inode inode) w with
  | (inl err, w) => (Some err, tx_Rollback w)
  | (inr _, w) =>
  match tx_Exec (sql_delete_blocks inode) w with
  | (inl err, w) => (Some err, tx_Rollback w)
  | (inr _, w) =>
  match tx_Commit w with
  | (inl err, w) => (Some err, w)
  | (inr _, w) => (None, w)
  end end end end end end.

(** The loop of [WriteData]: [input] shrinks at every turn, by a whole
    block while more than a block is left, to nothing at the last one.
    [sequence] is a Go [int]; it stays far below its range, as a slice
    holds fewer than [2^63] bytes. *)
Equations? write_blocks (inode sequence : Z) (input : list byte) (w : World)
  : (error + unit) * World by wf (length input) lt :=
  write_blocks inode sequence input w with decide (length input = 0%nat) => {
    | left _ => (inr (), w);
    | right _ with decide (BLOCK_SIZE < length input)%nat => {
      | left _
          with tx_Exec
                 (sql_insert_block inode sequence (take BLOCK_SIZE input)) w => {
        | (inl err, w') => (inl err, tx_Rollback w');
        | (inr _, w') =>
            write_blocks inode (sequence + 1) (drop BLOCK_SIZE input) w' };
      | right _ with tx_Exec (sql_insert_block inode sequence input) w => {
        | (inl err, w') => (inl err, tx_Rollback w');
        | (inr _, w') => write_blocks inode (sequence + 1) (take 0 input) w' } } }.
Proof.
  - rewrite length_drop. unfold BLOCK_SIZE in *. lia.
  - simpl. lia.
Qed.

(** [WriteData] writes [Size] through its pointer before the last
    statement.  When [n.toJSON()] panics there, the transaction is neither
    committed nor rolled back. *)
Definition WriteData (n : fileNode) (data : list byte) (w : World)
  : (fileNode * outcome (option error)) * World :=
  match BeginTx w with
  | (inl err, w) => (n, Returns (Some err), w)
  | (inr _, w) =>
  let input := data in
  match tx_Exec (sql_delete_blocks (Inode n)) w with
  | (inl err, w) => (n, Returns (Some err), tx_Rollback w)
  | (inr _, w) =>
  match write_blocks (Inode n) 1 input w with
  | (inl err, w) => (n, Returns (Some err), w)
  | (inr _, w) =>
  let n := set_Size (Z.of_nat (length data)) n in
  if decide (marshals n) then
    match tx_Exec (sql_upsert_inode (Inode n) (toJSON n)) w with
    | (inl err, w) => (n, Returns (Some err), tx_Rollback w)
    | (inr _, w) =>
    match tx_Commit w with
    | (inl err, w) => (n, Returns (Some err), w)
    | (inr _, w) => (n, Returns None, w)
    end end
  else (n, Panics, w)
  end end end.

(** [ReadData] appends the blocks the loop scans. *)
Definition ReadData (inode : Z) (w : World) : (error + list byte) * World :=
  match db_Query (sql_select_blocks inode) w with
  | (inl err, w) => (inl err, w)
  | (inr rows, w) =>
      let '(scanned, w) := rows_Next rows w in
      (inr (foldl (λ data currBlock, data ++ currBlock) [] scanned), w)
  end.

(** ** The node methods of [fs.go]

    [Attr], [Setattr] and [Write] reach the store through [n.fs] without
    testing the pointer; they are transcribed for a node whose pointer is
    set, which is the case of every node handed to the kernel bridge. *)

(** [fuse.Attr]. *)
Record fuseAttr : Type := mkAttr {
  a_Valid : Z;
  a_Inode : Z;
  a_Size : Z;
  a_Blocks : Z;
  a_Atime : Z;
  a_Mtime : Z;
  a_Ctime : Z;
  a_Crtime : Z;
  a_Mode : Z;
  a_Nlink : Z;
  a_Uid : Z;
  a_Gid : Z;
  a_Rdev : Z;
  a_Flags : Z;
  a_BlockSize : Z
}.

Definition zeroAttr : fuseAttr := mkAttr 0 0 0 0 0 0 0 0 0 0 0 0 0 0 0.

(** [Attr] always returns [nil]. *)
Definition Attr (n : fileNode) (attr : fuseAttr) (w : World)
  : (fuseAttr * option error) * World :=
  let size :=
    if IsSymlink n then Z.of_nat (String.length (SymlinkTarget n)) else Size n in
  let '(nlink, w) :=
    match GetNodeByID (Inode n) w with
    | (inr updated, w) => (Nlink updated, w)
    | (inl _, w) => (Nlink n, w)
    end in
  (mkAttr (a_Valid attr) (Inode n) size (Size n / 512) (Atime n) (Mtime n)
     (Ctime n) (Crtime n) (Mode n) nlink (Uid n) (Gid n) (Rdev n) (Flags n)
     (Z.of_nat BLOCK_SIZE), None, w).

(** [fuse.SetattrRequest]: the bit mask [Valid] and the values. *)
Record SetattrValid : Type := mkValid {
  v_Mode : bool;
  v_Uid : bool;
  v_Gid : bool;
  v_Size : bool;
  v_Atime : bool;
  v_Mtime : bool;
  v_Crtime : bool
}.

Record SetattrRequest : Type := mkSetattr {
  sr_Valid : SetattrValid;
  sr_Mode : Z;
  sr_Uid : Z;
  sr_Gid : Z;
  sr_Size : Z;
  sr_Atime : Z;
  sr_Mtime : Z;
  sr_Crtime : Z
}.

(** [Setattr] writes through [n] and through [resp.Attr], the times of the
    request as they come, before [UpdateNode] is called. *)
Definition Setattr (n : fileNode) (req : SetattrRequest) (resp : fuseAttr)
    (w : World) : (fileNode * fuseAttr * outcome (option Errno)) * World :=
  let valid := sr_Valid req in
  let n := if v_Mode valid then set_Mode (sr_Mode req) n else n in
  let n := if v_Uid valid then set_Uid (sr_Uid req) n else n in
  let n := if v_Gid valid then set_Gid (sr_Gid req) n else n in
  let n := if v_Size valid then set_Size (sr_Size req) n else n in
  let n := if v_Atime valid then set_Atime (sr_Atime req) n else n in
  let n := if v_Mtime valid then set_Mtime (sr_Mtime req) n else n in
  let n := if v_Crtime valid then set_Crtime (sr_Crtime req) n else n in
  let resp :=
    mkAttr (a_Valid resp) (a_Inode resp)
      (if v_Size valid then sr_Size req else a_Size resp)
      (a_Blocks resp)
      (if v_Atime valid then sr_Atime req else a_Atime resp)
      (if v_Mtime valid then sr_Mtime req else a_Mtime resp)
      (a_Ctime resp)
      (if v_Crtime valid then sr_Crtime req else a_Crtime resp)
      (if v_Mode valid then sr_Mode req else a_Mode resp)
      (a_Nlink resp)
      (if v_Uid valid then sr_Uid req else a_Uid resp)
      (if v_Gid valid then sr_Gid req else a_Gid resp)
      (a_Rdev resp) (a_Flags resp) (a_BlockSize resp) in
  match UpdateNode n w with
  | (Returns (Some err), w) => (n, resp, Returns (Some EIO), w)
  | (Returns None, w) => (n, resp, Returns None, w)
  | (Panics, w) => (n, resp, Panics, w)
  end.

Definition Link (n : fileNode) (NewName : string) (old : fileNode) (w : World)
  : (Errno + fileNode) * World :=
  if negb (fs n) then (inl EIO, w)
  else if negb (IsDirectory n) then (inl EIO, w)
  else
  match Attr old zeroAttr w with
  | (_, Some err, w) => (inl EIO, w)
  | (attr, None, w) =>
  let newNode := set_Name NewName (set_Inode (a_Inode attr) zeroNode) in
  match CreateLink (Inode n) newNode w with
  | (Some err, w) => (inl EIO, w)
  | (None, w) =>
  match GetNodeByID (a_Inode attr) w with
  | (inl err, w) => (inl EIO, w)
  | (inr newNode, w) => (inr (set_fs (fs n) (set_Name NewName newNode)), w)
  end end end.

(** [fuse.RemoveRequest]: [Dir] tells [rmdir] from [unlink]. *)
Record RemoveRequest : Type := mkRemove {
  rr_Name : string;
  rr_Dir : bool
}.

Definition Remove (n : fileNode) (req : RemoveRequest) (w : World)
  : option Errno * World :=
  if negb (fs n) then (Some EIO, w)
  else
  match GetNodeByName (Inode n) (rr_Name req) w with
  | (inl err, w) => (Some EIO, w)
  | (inr toRemove, w) =>
  match
    (if rr_Dir req then
       match CountNodesInDir (Inode toRemove) w with
       | (inl err, w) => (Some EIO, w)
       | (inr count, w) =>
           if decide (0 < count) then (Some ENOTEMPTY, w) else (None, w)
       end
     else (None, w))
  with
  | (Some errno, w) => (Some errno, w)
  | (None, w) =>
  match RemoveNodeByName (Inode n) (rr_Name req) (Inode toRemove) w with
  | (Some err, w) => (Some EIO, w)
  | (None, w) => (None, w)
  end end end.

Definition Lookup (n : fileNode) (name : string) (w : World)
  : (Errno + fileNode) * World :=
  if negb (fs n) then (inl EIO, w)
  else if negb (IsDirectory n) then (inl EIO, w)
  else
  match GetNodeByName (Inode n) name w with
  | (inl err, w) => (inl ENOENT, w)
  | (inr lookupNode, w) => (inr (set_fs (fs n) lookupNode), w)
  end.

(** [Mkdir], [Create] and [Mknod] build the new node from the request's
    [Name] and [Mode] and differ in [Nlink] only. *)
Definition Mkdir (now1 now2 : Z) (n : fileNode) (name : string) (mode : Z)
    (w : World) : (Errno + fileNode) * World :=
  if negb (fs n) then (inl EIO, w)
  else
  let newNode := set_Nlink 2 (set_Mode mode (set_Name name (set_fs (fs n) zeroNode))) in
  match UpsertNode now1 now2 (Inode n) newNode w with
  | (_, Some err, w) => (inl EIO, w)
  | (newNode, None, w) => (inr newNode, w)
  end.

Definition Create (now1 now2 : Z) (n : fileNode) (name : string) (mode : Z)
    (w : World) : (Errno + fileNode) * World :=
  if negb (fs n) then (inl EIO, w)
  else
  let newNode := set_Nlink 1 (set_Mode mode (set_Name name (set_fs (fs n) zeroNode))) in
  match UpsertNode now1 now2 (Inode n) newNode w with
  | (_, Some err, w) => (inl EIO, w)
  | (newNode, None, w) => (inr newNode, w)
  end.

Definition Rename (n : fileNode) (OldName NewName : string) (newDir : fileNode)
    (w : World) : option Errno * World :=
  if negb (fs n) then (Some EIO, w)
  else
  match Attr newDir zeroAttr w with
  | (_, Some err, w) => (Some EIO, w)
  | (attr, None, w) =>
  match RenameNode (Inode n) OldName (a_Inode attr) NewName w with
  | (Some err, w) => (Some EIO, w)
  | (None, w) => (None, w)
  end end.

(** [fuse.WriteRequest]; [Write] does not look at [Offset].  The result is
    [resp.Size]. *)
Record WriteRequest : Type := mkWrite {
  wr_Offset : Z;
  wr_Data : list byte
}.

Definition Write (n : fileNode) (req : WriteRequest) (w : World)
  : (fileNode * outcome (Errno + Z)) * World :=
  match WriteData n (wr_Data req) w with
  | (n, Returns (Some err), w) => (n, Returns (inl EIO), w)
  | (n, Returns None, w) => (n, Returns (inr (Z.of_nat (length (wr_Data req)))), w)
  | (n, Panics, w) => (n, Panics, w)
  end.

(** ** Notions used in the statements *)

(** The rows the loop leaves for [input], the first of them numbered
    [sequence]: whole blocks while more than a block is left, then the
    rest. *)
Inductive chunked (inode : Z) : Z → list byte → list block_row → Prop :=
  | chunked_nil sequence : chunked inode sequence [] []
  | chunked_last sequence input :
      input ≠ [] → (length input ≤ BLOCK_SIZE)%nat →
      chunked inode sequence input [mkBlock inode sequence input]
  | chunked_more sequence input rows :
      (BLOCK_SIZE < length input)%nat →
      chunked inode (sequence + 1) (drop BLOCK_SIZE input) rows →
      chunked inode sequence input
        (mkBlock inode sequence (take BLOCK_SIZE input) :: rows).


(** A run is quiet when no round trip to the store is scheduled to fail. *)
Definition quiet (w : World) : Prop := faults w = [].

(** The name [name] is taken in directory [parent]. *)
Definition taken (parent : Z) (name : string) (s : Store) : Prop :=
  Exists (same_slot parent name) (tree s).

#[global] Instance taken_dec parent name s : Decision (taken parent name s).
Proof. unfold taken. apply _. Defined.

(** The node [UpsertNode] leaves behind its pointer when it succeeds. *)
Definition inserted (now1 now2 lastId : Z) (n : fileNode) : fileNode :=
  set_Inode lastId (set_Ctime now2 (set_Mtime now1 n)).

(** *** Sample nodes and worlds *)

(** The node [Root] returns. *)
Definition rootNode : fileNode :=
  set_fs true (set_Mode (Z.lor ModeDir 365) (set_Inode rootInode zeroNode)).

Definition fileData (nlink size : Z) : struct_data :=
  mkJSON 0 size 0 0 0 0 0 420 nlink 0 0 0 0 0 "".

Definition dirData : struct_data :=
  mkJSON 0 0 0 0 0 0 0 (Z.lor ModeDir 493) 2 0 0 0 0 0 "".

(** An empty file system, next inode 2. *)
Definition emptyWorld : World := mkWorld (mkStore [] ∅ []) 2 None [].

(** [/a], a regular file of two bytes, inode 2. *)
Definition oneFile : World :=
  mkWorld
    (mkStore [mkTree 2 1 "a"] {[ 2 := fileData 1 2 ]}
       [mkBlock 2 1 [x68; x69]])
    3 None [].

(** [/a] and [/b], two names of one regular file, inode 2. *)
Definition twoLinks : World :=
  mkWorld
    (mkStore [mkTree 2 1 "a"; mkTree 2 1 "b"] {[ 2 := fileData 2 2 ]}
       [mkBlock 2 1 [x68; x69]])
    3 None [].

(** [/d], a directory, inode 2, and [/d/f], an empty regular file, inode 3. *)
Definition dirWithChild : World :=
  mkWorld
    (mkStore [mkTree 2 1 "d"; mkTree 3 2 "f"]
       {[ 2 := dirData; 3 := fileData 1 0 ]} [])
    4 None [].

(** The row [CreateLink] writes back for a node whose row was [j]: the
    link count goes up by one, in [uint32] arithmetic, and the row is
    marshalled anew. *)
Definition linked (j : struct_data) : struct_data :=
  mkJSON (j_Valid j) (j_Size j) (j_Blocks j) (j_Atime j) (j_Mtime j)
    (j_Ctime j) (j_Crtime j) (j_Mode j) (wrap32 (j_Nlink j + 1)) (j_Uid j)
    (j_Gid j) (j_Rdev j) (j_Flags j) (j_BlockSize j)
    (to_valid_utf8 (j_SymlinkTarget j)).

(** [inode] has child entries. *)
Definition has_children (inode : Z) (s : Store) : Prop :=
  Exists (λ r, t_parent r = inode) (tree s).

#[global] Instance has_children_dec inode s : Decision (has_children inode s).
Proof. unfold has_children. apply _. Defined.

(** [/a] and [/b], two empty regular files, inodes 2 and 3. *)
Definition twoFiles : World :=
  mkWorld
    (mkStore [mkTree 2 1 "a"; mkTree 3 1 "b"]
       {[ 2 := fileData 1 0; 3 := fileData 1 0 ]} [])
    4 None [].

(** The bytes the blocks of [inode] hold, in the order of their sequence
    numbers: what [ReadData] returns when its loop reaches the last row. *)
Definition content (inode : Z) (s : Store) : list byte :=
  concat (b_data <$>
            merge_sort by_sequence
              (filter (λ r, b_inode r = inode) (data_blocks s))).

(** What a read returns whose loop has scanned [k] rows. *)
Definition scanned (k : nat) (inode : Z) (s : Store) : list byte :=
  concat (b_data <$>
            take k (merge_sort by_sequence
                      (filter (λ r, b_inode r = inode) (data_blocks s)))).

(** The invariant of the data blocks at [inode]: when the inode has a node
    row of regular-file type, the size it records is the number of bytes
    its blocks hold.  The store keeps no other copy of a file's bytes, so
    this is what it can say of blocks that reproduce the byte stream up to
    the recorded size. *)
Definition size_matches (inode : Z) (s : Store) : Prop :=
  ∀ j, inodes s !! inode = Some j →
       Z.land (j_Mode j) ModeType = 0 →
       j_Size j = Z.of_nat (length (content inode s)).

Definition sizes_match (s : Store) : Prop := ∀ inode, size_matches inode s.

(** The same world under another fault schedule. *)
Definition with_faults (faulty : list bool) (w : World) : World :=
  mkWorld (store w) (inode_seq w) (open_tx w) faulty.

(** *** The operations that write to the store *)

Inductive operation : Type :=
  | OpWrite (n : fileNode) (data : list byte)
  | OpSetattr (n : fileNode) (req : SetattrRequest) (resp : fuseAttr)
  | OpRename (oldParent : Z) (oldName : string) (newParent : Z)
      (newName : string)
  | OpLink (parent : Z) (n : fileNode)
  | OpRemove (parent : Z) (name : string) (inode : Z)
  | OpInsert (now1 now2 parent : Z) (n : fileNode).

(** The world an operation leaves. *)
Definition run (op : operation) (w : World) : World :=
  match op with
  | OpWrite n data => (WriteData n data w).2
  | OpSetattr n req resp => (Setattr n req resp w).2
  | OpRename oldParent oldName newParent newName =>
      (RenameNode oldParent oldName newParent newName w).2
  | OpLink parent n => (CreateLink parent n w).2
  | OpRemove parent name inode => (RemoveNodeByName parent name inode w).2
  | OpInsert now1 now2 parent n => (UpsertNode now1 now2 parent n w).2
  end.

(** What the two operations that store a size of their caller's choosing
    need for the invariant: [Setattr] must store, for a regular file, the
    number of bytes the blocks of the inode hold; an insert must do so for
    the inode the sequence gives next. *)
Definition stores_true_size (op : operation) (w : World) : Prop :=
  match op with
  | OpSetattr n req resp =>
      let n' := (Setattr n req resp w).1.1.1 in
      IsRegular n' = true →
      Size n' = Z.of_nat (length (content (Inode n) (store w)))
  | OpInsert now1 now2 parent n =>
      IsRegular n = true →
      Size n = Z.of_nat (length (content (inode_seq w) (store w)))
  | _ => True
  end.

(** The node [Lookup] returns for [/a] in [oneFile]. *)
Definition nodeA : fileNode :=
  set_fs true (Unmarshal (fileData 1 2) (set_Inode 2 zeroNode)).

(** The node [Lookup] returns for [/d] in [dirWithChild]. *)
Definition nodeD : fileNode :=
  set_fs true (Unmarshal dirData (set_Inode 2 zeroNode)).

(** A [Setattr] request that sets the size, and nothing else, to [size]. *)
Definition resize (size : Z) : SetattrRequest :=
  mkSetattr (mkValid false false false true false false false) 0 0 0 size 0 0 0.

(** The relations [s'] are [s] after a whole-file write of [data] to the
    node [n]: the tree as before; the row of the inode holding [n] with the
    length of [data] as its size; the former blocks of the inode gone and
    [data] laid out in blocks numbered from 1, each of them of
    [BLOCK_SIZE] bytes but possibly the last, which is not empty. *)
Definition written (n : fileNode) (data : list byte) (s s' : Store) : Prop :=
  ∃ rows,
    tree s' = tree s ∧
    inodes s' =
      <[Inode n := toJSON (set_Size (Z.of_nat (length data)) n)]> (inodes s) ∧
    j_Size <$> inodes s' !! Inode n = Some (Z.of_nat (length data)) ∧
    data_blocks s' = filter (λ r, b_inode r ≠ Inode n) (data_blocks s) ++ rows ∧
    Forall (λ r, b_inode r = Inode n) rows ∧
    b_sequence <$> rows = seqZ 1 (Z.of_nat (length rows)) ∧
    concat (b_data <$> rows) = data ∧
    (∀ i r, rows !! i = Some r →
       (0 < length (b_data r) ≤ BLOCK_SIZE)%nat ∧
       (S i < length rows → length (b_data r) = BLOCK_SIZE)%nat).

(** The inode of the node a method returns, if it returns one. *)
Definition inode_of (r : Errno + fileNode) : option Z :=
  match r with
  | inr n => Some (Inode n)
  | inl _ => None
  end.

(** ** The rest of [fs.go] *)

Definition set_SymlinkTarget (v : string) (n : fileNode) : fileNode :=
  mkNode (fs n) (Valid n) (Inode n) (Size n) (Blocks n) (Atime n) (Mtime n)
    (Ctime n) (Crtime n) (Mode n) (Nlink n) (Uid n) (Gid n) (Rdev n) (Flags n)
    (BlockSize n) (Name n) v.

(** [Root]: a directory of mode [0555] with the reserved inode, and no
    error. *)
Definition Root : fileNode * option error :=
  (set_fs true (set_Mode (Z.lor ModeDir 365) (set_Inode rootInode zeroNode)),
   None).

(** [SELECT COUNT( * ) FROM inodes]. *)
Definition sql_count_inodes (s : Store) : error + Z :=
  inr (Z.of_nat (size (inodes s))).

(** [SELECT COUNT( * ) FROM data_blocks]. *)
Definition sql_count_blocks (s : Store) : error + Z :=
  inr (Z.of_nat (length (data_blocks s))).

Definition CountInodes (w : World) : (error + Z) * World :=
  match db_Query sql_count_inodes w with
  | (inl err, w) => (inl err, w)
  | (inr count, w) => (inr count, w)
  end.

Definition CountDataBlocks (w : World) : (error + Z) * World :=
  match db_Query sql_count_blocks w with
  | (inl err, w) => (inl err, w)
  | (inr count, w) => (inr count, w)
  end.

(** [fuse.StatfsResponse]. *)
Record StatfsResponse : Type := mkStatfs {
  st_Blocks : Z;
  st_Bfree : Z;
  st_Bavail : Z;
  st_Files : Z;
  st_Ffree : Z;
  st_Bsize : Z;
  st_Namelen : Z;
  st_Frsize : Z
}.

(** [Statfs] writes through [resp]; a count that fails is logged and its
    field keeps the value it had. *)
Definition Statfs (resp : StatfsResponse) (w : World)
  : (StatfsResponse * option error) * World :=
  let bsize := Z.of_nat BLOCK_SIZE in
  let '(blocks, w) :=
    match CountDataBlocks w with
    | (inr blockCount, w) => (blockCount, w)
    | (inl _, w) => (st_Blocks resp, w)
    end in
  let '(files, w) :=
    match CountInodes w with
    | (inr inodeCount, w) => (inodeCount, w)
    | (inl _, w) => (st_Files resp, w)
    end in
  (mkStatfs blocks (st_Bfree resp) (st_Bavail resp) files (st_Ffree resp)
     bsize (st_Namelen resp) bsize, None, w).

(** [Fsync] does nothing. *)
Definition Fsync (n : fileNode) : option Errno := None.

Definition Symlink (now1 now2 : Z) (n : fileNode) (NewName Target : string)
    (w : World) : (Errno + fileNode) * World :=
  if negb (fs n) then (inl EIO, w)
  else if negb (IsDirectory n) then (inl EIO, w)
  else
  let newNode :=
    set_Nlink 1
      (set_SymlinkTarget Target
         (set_Mode (Z.lor ModeSymlink 493)
            (set_Name NewName (set_fs (fs n) zeroNode)))) in
  match UpsertNode now1 now2 (Inode n) newNode w with
  | (_, Some err, w) => (inl EIO, w)
  | (newNode, None, w) => (inr newNode, w)
  end.

Definition Readlink (n : fileNode) : Errno + string :=
  if IsSymlink n then inr (SymlinkTarget n) else inl EIO.

(** [Mknod]; the device number of the request is not used. *)
Definition Mknod (now1 now2 : Z) (n : fileNode) (name : string) (mode : Z)
    (w : World) : (Errno + fileNode) * World :=
  if negb (fs n) then (inl EIO, w)
  else
  let newNode := set_Nlink 1 (set_Mode mode (set_Name name (set_fs (fs n) zeroNode))) in
  match UpsertNode now1 now2 (Inode n) newNode w with
  | (_, Some err, w) => (inl EIO, w)
  | (newNode, None, w) => (inr newNode, w)
  end.

(** [fuse.DirentType], as far as [GetDirentTypeFromMode] names it. *)
Inductive DirentType : Type :=
  | DT_Unknown | DT_Socket | DT_Link | DT_File | DT_Block | DT_Dir | DT_Char
  | DT_FIFO.

Definition GetDirentTypeFromMode (mode : Z) : DirentType :=
  if negb (Z.land mode ModeDir =? 0) then DT_Dir
  else if negb (Z.land mode ModeSymlink =? 0) then DT_Link
  else if negb (Z.land mode ModeDevice =? 0) then DT_Block
  else if negb (Z.land mode ModeCharDevice =? 0) then DT_Char
  else if negb (Z.land mode ModeNamedPipe =? 0) then DT_FIFO
  else if negb (Z.land mode ModeSocket =? 0) then DT_Socket
  else if Z.land mode ModeType =? 0 then DT_File
  else DT_Unknown.

(** The errors of [ListNodesInDir]: those of the store, and the one it
    makes with [errors.New]. *)
Inductive list_error : Type :=
  | StoreError (err : error)
  | ErrorsNew (msg : string).

(** [SELECT tree.inode, tree.name, inodes.struct_data
     FROM tree JOIN inodes ON tree.inode = inodes.inode WHERE parent = $1]:
    the entries under the parent that have a node row, here in the order
    of the tree rows. *)
Definition joined (s : Store) (r : tree_row) : option (Z * string * struct_data) :=
  match inodes s !! t_inode r with
  | Some j => Some (t_inode r, t_name r, j)
  | None => None
  end.

Definition sql_select_children (inode : Z) (s : Store)
  : error + list (Z * string * struct_data) :=
  inr (omap (joined s) (filter (λ r, t_parent r = inode) (tree s))).

Definition ListNodesInDir (inode : Z) (w : World)
  : (list_error + list fileNode) * World :=
  match
    (if decide (inode ≠ rootInode) then
       match GetNodeByID inode w with
       | (inl err, w) => (Some (StoreError err), w)
       | (inr dir, w) =>
           if negb (IsDirectory dir)
           then (Some (ErrorsNew "ListNodesInDir can only be called on directories"),
                 w)
           else (None, w)
       end
     else (None, w))
  with
  | (Some err, w) => (inl err, w)
  | (None, w) =>
  match db_Query (sql_select_children inode) w with
  | (inl err, w) =>
      (inl (StoreError
              (Wrapf err "could not query entries in directory inode %d")), w)
  | (inr rows, w) =>
      let '(scanned, w) := rows_Next rows w in
      (inr (foldl (λ nodes '(inode, name, struct_data),
                     nodes ++ [Unmarshal struct_data
                                 (set_Inode inode (set_Name name zeroNode))])
              [] scanned), w)
  end end.

(** [fuse.Dirent]. *)
Record Dirent : Type := mkDirent {
  d_Inode : Z;
  d_Type : DirentType;
  d_Name : string
}.

Definition ReadDirAll (n : fileNode) (w : World) : (Errno + list Dirent) * World :=
  if negb (fs n) then (inl EIO, w)
  else
  match ListNodesInDir (Inode n) w with
  | (inl err, w) => (inl EIO, w)
  | (inr nodes, w) =>
      (inr (foldl (λ entries node,
                     entries ++ [mkDirent (Inode node)
                                   (GetDirentTypeFromMode (Mode node))
                                   (Name node)])
              [] nodes), w)
  end.

(** [fuse.ReadRequest], as far as it matters here. *)
Record ReadRequest : Type := mkRead {
  rd_Offset : Z;
  rd_Size : Z
}.

(** [Read] reads the whole file and leaves the choice of the bytes to
    return to [fuseutil.HandleRead], a function of the bridge library,
    taken here as [HandleRead].  Like [Attr] it reaches the store through
    [n.fs] without testing the pointer. *)
Definition Read (HandleRead : ReadRequest → list byte → list byte)
    (n : fileNode) (req : ReadRequest) (w : World)
  : (Errno + list byte) * World :=
  match ReadData (Inode n) w with
  | (inl err, w) => (inl EIO, w)
  | (inr data, w) => (inr (HandleRead req data), w)
  end.

(** ** Notions used in the further statements *)

(** What a listing of the directory [inode] shows: the tree entries under
    it that have a node row, each with the type of its stored mode. *)
Definition listing (inode : Z) (s : Store) : list Dirent :=
  (λ '(child, name, j), mkDirent child (GetDirentTypeFromMode (j_Mode j)) name)
    <$> omap (joined s) (filter (λ r, t_parent r = inode) (tree s)).

(** [inode] has a node row, of directory type. *)
Definition is_dir_row (inode : Z) (s : Store) : Prop :=
  ∃ j, inodes s !! inode = Some j ∧ Z.land (j_Mode j) ModeDir ≠ 0.

(** No row of the three relations carries [inode]. *)
Definition unused (inode : Z) (s : Store) : Prop :=
  inodes s !! inode = None ∧
  Forall (λ r, t_inode r ≠ inode) (tree s) ∧
  Forall (λ r, b_inode r ≠ inode) (data_blocks s).

(** The world [w'] has the committed relations, the sequence and the
    transaction of [w]. *)
Definition same_relations (w w' : World) : Prop :=
  store w' = store w ∧ inode_seq w' = inode_seq w ∧ open_tx w' = open_tx w.

(** The ways in which one operation changes the committed relations [s],
    the sequence standing at [q]: not at all; a whole-file write; the
    rewriting of one node row; a renaming; a link; the removal of the last
    name of an inode; an insert. *)
Inductive change (s : Store) (q : Z) : Store → Prop :=
  | change_none : change s q s
  | change_write inode j data rows :
      chunked inode 1 data rows →
      change s q
        (mkStore (tree s) (<[inode := j]> (inodes s))
           (filter (λ r, b_inode r ≠ inode) (data_blocks s) ++ rows))
  | change_row inode j :
      change s q (mkStore (tree s) (<[inode := j]> (inodes s)) (data_blocks s))
  | change_rename newName newParent oldName oldParent :
      (length (filter (same_slot newParent newName)
                 (rename_row newName newParent oldName oldParent <$> tree s))
         ≤ 1)%nat →
      change s q
        (mkStore (rename_row newName newParent oldName oldParent <$> tree s)
           (inodes s) (data_blocks s))
  | change_link inode parent name j :
      ¬ taken parent name s →
      inodes s !! inode = Some j →
      change s q
        (mkStore (tree s ++ [mkTree inode parent name])
           (<[inode := linked j]> (inodes s)) (data_blocks s))
  | change_remove parent name inode :
      ¬ Exists (λ r, t_inode r = inode)
          (filter (λ r, ¬ same_slot parent name r) (tree s)) →
      change s q
        (mkStore (filter (λ r, ¬ same_slot parent name r) (tree s))
           (delete inode (inodes s))
           (filter (λ r, b_inode r ≠ inode) (data_blocks s)))
  | change_insert parent name j :
      ¬ taken parent name s →
      change s q
        (mkStore (tree s ++ [mkTree q parent name]) (<[q := j]> (inodes s))
           (data_blocks s)).

(** No two tree entries have the same parent and name. *)
Definition unique_names (s : Store) : Prop :=
  NoDup ((λ r, (t_parent r, t_name r)) <$> tree s).

(** The inode of every tree entry and of every data block has a node row.
    This is one half of the integrity of the references; the parent of an
    entry is the matter of [parents_present]. *)
Definition inodes_present (s : Store) : Prop :=
  Forall (λ r, is_Some (inodes s !! t_inode r)) (tree s) ∧
  Forall (λ r, is_Some (inodes s !! b_inode r)) (data_blocks s).

(** Every tree entry lies under the root, which has no node row, or under
    an inode that has one. *)
Definition parents_present (s : Store) : Prop :=
  Forall (λ r, t_parent r = rootInode ∨ is_Some (inodes s !! t_parent r))
    (tree s).

(** The blocks of [inode] in the order of their sequence numbers. *)
Definition blocks_of (inode : Z) (s : Store) : list block_row :=
  merge_sort by_sequence (filter (λ r, b_inode r = inode) (data_blocks s)).

(** The blocks of [inode] are numbered 1, 2, ... without a gap; none is
    empty or longer than [BLOCK_SIZE], and all but the last are full. *)
Definition laid_out (inode : Z) (s : Store) : Prop :=
  b_sequence <$> blocks_of inode s =
    seqZ 1 (Z.of_nat (length (blocks_of inode s))) ∧
  ∀ i r, blocks_of inode s !! i = Some r →
         (0 < length (b_data r) ≤ BLOCK_SIZE)%nat ∧
         (S i < length (blocks_of inode s) → length (b_data r) = BLOCK_SIZE)%nat.

(** Every inode in the three relations was drawn from the sequence, or is
    the root: it lies below the next value of the sequence. *)
Definition below_seq (w : World) : Prop :=
  Forall (λ r, t_inode r < inode_seq w) (tree (store w)) ∧
  (∀ inode, is_Some (inodes (store w) !! inode) → inode < inode_seq w) ∧
  Forall (λ r, b_inode r < inode_seq w) (data_blocks (store w)).

(** The node an operation is applied to was handed out earlier. *)
Definition handed_out (op : operation) (w : World) : Prop :=
  match op with
  | OpWrite n _ | OpSetattr n _ _ => Inode n < inode_seq w
  | _ => True
  end.

(** A string [json.Marshal] writes as it is. *)
Definition valid_utf8 (s : string) : Prop := to_valid_utf8 s = s.

#[global] Instance valid_utf8_dec s : Decision (valid_utf8 s).
Proof. unfold valid_utf8. apply _. Defined.

(** * Properties of the embedding *)

(** ** Lists *)

Lemma filter_none {A} (P : A → Prop) `{∀ x, Decision (P x)} (l : list A) :
  Forall (λ x, ¬ P x) l → filter P l = [].
Proof.
  induction 1 as [|x l Hx _ IH]; [done|]. by rewrite filter_cons_False.
Qed.

Lemma count_positive {A} (P : A → Prop) `{∀ x, Decision (P x)} (l : list A) :
  Exists P l → 0 < Z.of_nat (length (filter P l)).
Proof.
  intros (x & Hx & HP)%Exists_exists.
  assert (x ∈ filter P l) as Hin by (by rewrite list_elem_of_filter).
  destruct (filter P l); [by inversion Hin|simpl; lia].
Qed.

Lemma append_all (rows : list (list byte)) (acc : list byte) :
  foldl (λ data currBlock, data ++ currBlock) acc rows = acc ++ concat rows.
Proof.
  revert acc. induction rows as [|row rows IH]; intros acc; simpl.
  - by rewrite app_nil_r.
  - by rewrite IH, app_assoc.
Qed.

(** ** Round trips to the store

    Until [tx.Commit] succeeds a transaction touches its working copy
    only; a round trip that succeeds has done what its statement says. *)

Ltac round_trip :=
  intros;
  repeat match goal with
  | H : context [next_fault ?w] |- _ =>
      unfold next_fault in H; destruct (faults w) as [|[] ?] eqn:?
  | H : context [match open_tx ?w with _ => _ end] |- _ =>
      destruct (open_tx w) eqn:?
  | H : context [match ?stmt ?s with inl _ => _ | inr _ => _ end] |- _ =>
      destruct (stmt s) eqn:?
  end;
  simplify_eq/=; auto.

Lemma BeginTx_store w r w' :
  BeginTx w = (r, w') → store w' = store w ∧ inode_seq w' = inode_seq w.
Proof. unfold BeginTx. round_trip. Qed.

Lemma BeginTx_fail w err w' :
  BeginTx w = (inl err, w') → open_tx w' = open_tx w.
Proof. unfold BeginTx. round_trip. Qed.

Lemma BeginTx_ok w w0 :
  BeginTx w = (inr (), w0) → open_tx w0 = Some (store w).
Proof. unfold BeginTx. round_trip. Qed.

Lemma BeginTx_quiet s q tx0 :
  BeginTx (mkWorld s q tx0 []) = (inr (), mkWorld s q (Some s) []).
Proof. done. Qed.

Lemma tx_Exec_store stmt w r w' :
  tx_Exec stmt w = (r, w') → store w' = store w ∧ inode_seq w' = inode_seq w.
Proof. unfold tx_Exec. round_trip. Qed.

Lemma tx_Exec_ok stmt w w' :
  tx_Exec stmt w = (inr (), w') →
  ∃ s s', open_tx w = Some s ∧ stmt s = inr s' ∧ open_tx w' = Some s' ∧
          store w' = store w ∧ inode_seq w' = inode_seq w.
Proof. unfold tx_Exec. round_trip; eauto 10. Qed.

Lemma tx_Exec_quiet stmt s0 q s :
  tx_Exec stmt (mkWorld s0 q (Some s) []) =
    match stmt s with
    | inl e => (inl e, mkWorld s0 q (Some s) [])
    | inr s' => (inr (), mkWorld s0 q (Some s') [])
    end.
Proof. done. Qed.

Lemma tx_Query_store {A} (q : Store → error + A) w r w' :
  tx_Query q w = (r, w') → store w' = store w ∧ inode_seq w' = inode_seq w.
Proof. unfold tx_Query. round_trip. Qed.

Lemma tx_Query_ok {A} (q : Store → error + A) w a w' :
  tx_Query q w = (inr a, w') →
  ∃ s, open_tx w = Some s ∧ q s = inr a ∧ open_tx w' = Some s ∧
       store w' = store w ∧ inode_seq w' = inode_seq w.
Proof. unfold tx_Query. round_trip; eauto 10. Qed.

Lemma tx_InsertReturning_store parent name w r w' :
  tx_InsertReturning parent name w = (r, w') → store w' = store w.
Proof. unfold tx_InsertReturning. round_trip. Qed.

Lemma tx_InsertReturning_ok parent name w lastId w' :
  tx_InsertReturning parent name w = (inr lastId, w') →
  ∃ s s', open_tx w = Some s ∧ lastId = inode_seq w ∧
          sql_insert_tree lastId parent name s = inr s' ∧
          open_tx w' = Some s' ∧ store w' = store w.
Proof. unfold tx_InsertReturning. round_trip; eauto 10. Qed.

Lemma tx_Commit_fail w err w' :
  tx_Commit w = (inl err, w') →
  store w' = store w ∧ inode_seq w' = inode_seq w ∧ open_tx w' = None.
Proof. unfold tx_Commit. round_trip. Qed.

Lemma tx_Commit_ok w w' :
  tx_Commit w = (inr (), w') →
  ∃ s, open_tx w = Some s ∧ store w' = s ∧ open_tx w' = None ∧
       inode_seq w' = inode_seq w.
Proof. unfold tx_Commit. round_trip; eauto 10. Qed.

Lemma db_Query_store {A} (q : Store → error + A) w r w' :
  db_Query q w = (r, w') →
  store w' = store w ∧ inode_seq w' = inode_seq w ∧ open_tx w' = open_tx w.
Proof. unfold db_Query. round_trip. Qed.

Lemma db_Query_ok {A} (q : Store → error + A) w a w' :
  db_Query q w = (inr a, w') →
  q (store w) = inr a ∧ store w' = store w ∧ open_tx w' = open_tx w ∧
  inode_seq w' = inode_seq w.
Proof. unfold db_Query. round_trip. Qed.

(** ** The loop of [WriteData] *)

Lemma BLOCK_SIZE_pos : (0 < BLOCK_SIZE)%nat.
Proof. unfold BLOCK_SIZE. lia. Qed.

Lemma write_blocks_step inode sequence input w :
  write_blocks inode sequence input w =
  if decide (length input = 0%nat) then (inr (), w)
  else if decide (BLOCK_SIZE < length input)%nat then
    match tx_Exec (sql_insert_block inode sequence (take BLOCK_SIZE input)) w with
    | (inl err, w') => (inl err, tx_Rollback w')
    | (inr _, w') => write_blocks inode (sequence + 1) (drop BLOCK_SIZE input) w'
    end
  else
    match tx_Exec (sql_insert_block inode sequence input) w with
    | (inl err, w') => (inl err, tx_Rollback w')
    | (inr _, w') => write_blocks inode (sequence + 1) (take 0 input) w'
    end.
Proof.
  rewrite write_blocks_equation_1.
  destruct (decide (length input = 0%nat)); simpl; [done|].
  destruct (decide (BLOCK_SIZE < length input)%nat); simpl;
    destruct (tx_Exec _ w) as [[?|[]] ?]; done.
Qed.

Lemma chunked_inode inode sequence input rows :
  chunked inode sequence input rows → Forall (λ r, b_inode r = inode) rows.
Proof. induction 1; repeat constructor; done. Qed.

Lemma chunked_sequence inode sequence input rows :
  chunked inode sequence input rows →
  b_sequence <$> rows = seqZ sequence (Z.of_nat (length rows)).
Proof.
  induction 1 as [s|s input ? ?|s input rows ? ? IH]; [done|done|].
  cbn [fmap list_fmap length b_sequence]. rewrite (seqZ_cons s) by lia.
  f_equal. rewrite IH. f_equal; lia.
Qed.

Lemma chunked_concat inode sequence input rows :
  chunked inode sequence input rows → concat (b_data <$> rows) = input.
Proof.
  induction 1 as [s|s input ? ?|s input rows ? ? IH]; csimpl.
  - done.
  - by rewrite app_nil_r.
  - rewrite IH. apply take_drop.
Qed.

Lemma chunked_sizes inode sequence input rows i r :
  chunked inode sequence input rows → rows !! i = Some r →
  (0 < length (b_data r) ≤ BLOCK_SIZE)%nat ∧
  (S i < length rows → length (b_data r) = BLOCK_SIZE)%nat.
Proof.
  intros Hc. revert i r.
  induction Hc as [s|s input Hne Hle|s input rows Hlt ? IH]; intros i r Hi.
  - done.
  - destruct i; [|done]. injection Hi as <-. simpl. split; [|lia].
    destruct input; [done|]. simpl in *. lia.
  - destruct i as [|i].
    + injection Hi as <-. simpl. rewrite length_take.
      pose proof BLOCK_SIZE_pos. lia.
    + destruct (IH i r Hi) as [? Hfull]. split; [done|].
      simpl. intros. apply Hfull. lia.
Qed.


Lemma write_blocks_store input :
  ∀ inode sequence w r w',
    write_blocks inode sequence input w = (r, w') →
    store w' = store w ∧ inode_seq w' = inode_seq w ∧
    (∀ err, r = inl err → open_tx w' = None).
Proof.
  remember (length input) as k eqn:Hk. revert input Hk.
  induction k as [k IH] using lt_wf_ind.
  intros input -> inode sequence w r w'.
  rewrite write_blocks_step.
  destruct (decide (length input = 0%nat)) as [Hz|Hnz].
  { intros [= <- <-]. done. }
  destruct (decide (BLOCK_SIZE < length input)%nat) as [Hlt|Hge].
  - destruct (tx_Exec _ w) as [[err|[]] w1] eqn:Hexec;
      apply tx_Exec_store in Hexec as [Hs Hq].
    + intros [= <- <-]. done.
    + intros Hrest.
      eapply IH in Hrest as (? & ? & ?); [|..|reflexivity].
      * repeat split; [congruence..|done].
      * rewrite length_drop. pose proof BLOCK_SIZE_pos. lia.
  - destruct (tx_Exec _ w) as [[err|[]] w1] eqn:Hexec;
      apply tx_Exec_store in Hexec as [Hs Hq].
    + intros [= <- <-]. done.
    + rewrite write_blocks_step. simpl. intros [= <- <-]. done.
Qed.

Lemma write_blocks_ok input :
  ∀ inode sequence w w' s,
    write_blocks inode sequence input w = (inr (), w') →
    open_tx w = Some s →
    ∃ rows,
      chunked inode sequence input rows ∧
      open_tx w' =
        Some (mkStore (tree s) (inodes s) (data_blocks s ++ rows)) ∧
      store w' = store w ∧ inode_seq w' = inode_seq w.
Proof.
  remember (length input) as k eqn:Hk. revert input Hk.
  induction k as [k IH] using lt_wf_ind.
  intros input -> inode sequence w w' s.
  rewrite write_blocks_step.
  destruct (decide (length input = 0%nat)) as [Hz|Hnz].
  { apply length_zero_iff_nil in Hz as ->. intros [= <-] Htx.
    exists []. split; [constructor|]. rewrite app_nil_r.
    by destruct s. }
  destruct (decide (BLOCK_SIZE < length input)%nat) as [Hlt|Hge].
  - destruct (tx_Exec _ w) as [[err|[]] w1] eqn:Hexec; [done|].
    apply tx_Exec_ok in Hexec as (s0 & s1 & Hs0 & Hstmt & Hs1 & Hst & Hq).
    intros Hrest Htx. rewrite Htx in Hs0. injection Hs0 as <-.
    unfold sql_insert_block in Hstmt. case_decide; [done|].
    injection Hstmt as <-.
    eapply IH in Hrest as (rows & Hrows & Htx' & Hst' & Hq');
      [|..|reflexivity|exact Hs1].
    + eexists. split; [by apply chunked_more|].
      rewrite Htx'. simpl. rewrite <-app_assoc. split_and!; [done|congruence..].
    + rewrite length_drop. pose proof BLOCK_SIZE_pos. lia.
  - destruct (tx_Exec _ w) as [[err|[]] w1] eqn:Hexec; [done|].
    apply tx_Exec_ok in Hexec as (s0 & s1 & Hs0 & Hstmt & Hs1 & Hst & Hq).
    rewrite write_blocks_step. simpl.
    intros [= <-] Htx. rewrite Htx in Hs0. injection Hs0 as <-.
    unfold sql_insert_block in Hstmt. case_decide; [done|].
    injection Hstmt as <-.
    eexists. split; [apply chunked_last; [by intros ->|lia]|].
    by rewrite Hs1.
Qed.

(** ** [WriteData]: without a failure, with an error, with [nil], with
    a panic *)

Lemma marshals_set_Size v n : marshals (set_Size v n) ↔ marshals n.
Proof. done. Qed.



(** A call of [WriteData] that returns an error has changed nothing that
    is committed, and holds no transaction. *)
Lemma WriteData_fail n data w n' err w' :
  WriteData n data w = (n', Returns (Some err), w') →
  store w' = store w ∧ inode_seq w' = inode_seq w ∧
  (open_tx w = None → open_tx w' = None).
Proof.
  unfold WriteData.
  destruct (BeginTx w) as [[e0|[]] w0] eqn:E0.
  { intros [= <- <- <-]. apply BeginTx_store in E0 as E0'.
    apply BeginTx_fail in E0. destruct E0'. repeat split; congruence. }
  apply BeginTx_store in E0 as [S0 Q0].
  destruct (tx_Exec _ w0) as [[e1|[]] w1] eqn:E1;
    apply tx_Exec_store in E1 as [S1 Q1].
  { intros [= <- <- <-]. simpl. repeat split; congruence. }
  destruct (write_blocks _ _ _ w1) as [[e2|[]] w2] eqn:E2;
    apply write_blocks_store in E2 as (S2 & Q2 & Hclosed).
  { intros [= <- <- <-]. repeat split; [congruence..|]. intros _. eauto. }
  case_decide; [|done].
  destruct (tx_Exec _ w2) as [[e3|[]] w3] eqn:E3;
    apply tx_Exec_store in E3 as [S3 Q3].
  { intros [= <- <- <-]. simpl. repeat split; congruence. }
  destruct (tx_Commit w3) as [[e4|[]] w4] eqn:E4; [|done].
  apply tx_Commit_fail in E4 as (S4 & Q4 & T4).
  intros [= <- <- <-]. repeat split; congruence.
Qed.

(** A call of [WriteData] that returns [nil] has committed the new blocks
    and the node row. *)
Lemma WriteData_ok n data w n' w' :
  WriteData n data w = (n', Returns None, w') →
  n' = set_Size (Z.of_nat (length data)) n ∧
  open_tx w' = None ∧
  ∃ rows,
    chunked (Inode n) 1 data rows ∧
    store w' =
      mkStore (tree (store w))
        (<[Inode n := toJSON n']> (inodes (store w)))
        (filter (λ r, b_inode r ≠ Inode n) (data_blocks (store w)) ++ rows).
Proof.
  unfold WriteData.
  destruct (BeginTx w) as [[e0|[]] w0] eqn:E0; [done|].
  apply BeginTx_ok in E0 as T0.
  destruct (tx_Exec _ w0) as [[e1|[]] w1] eqn:E1; [done|].
  apply tx_Exec_ok in E1 as (s0 & s1 & Hs0 & Hdel & T1 & _ & _).
  rewrite T0 in Hs0. injection Hs0 as <-.
  unfold sql_delete_blocks in Hdel. injection Hdel as <-.
  destruct (write_blocks _ _ _ w1) as [[e2|[]] w2] eqn:E2; [done|].
  eapply write_blocks_ok in E2 as (rows & Hrows & T2 & _ & _); [|exact T1].
  simpl in T2.
  case_decide; [|done].
  destruct (tx_Exec _ w2) as [[e3|[]] w3] eqn:E3; [done|].
  apply tx_Exec_ok in E3 as (s2 & s3 & Hs2 & Hup & T3 & _ & _).
  rewrite T2 in Hs2. injection Hs2 as <-.
  unfold sql_upsert_inode in Hup. injection Hup as <-.
  destruct (tx_Commit w3) as [[e4|[]] w4] eqn:E4; [done|].
  apply tx_Commit_ok in E4 as (s4 & Hs4 & S4 & T4 & _).
  rewrite T3 in Hs4. injection Hs4 as <-.
  intros [= <- <-]. split; [done|]. split; [done|].
  exists rows. split; [done|]. by rewrite <-S4.
Qed.

(** A call of [WriteData] that panics does so in [toJSON], on a node that
    does not marshal: nothing is committed, and the transaction stays in
    progress with the new blocks in its working copy. *)
Lemma WriteData_panic n data w n' w' :
  WriteData n data w = (n', Panics, w') →
  ¬ marshals n ∧
  n' = set_Size (Z.of_nat (length data)) n ∧
  store w' = store w ∧ inode_seq w' = inode_seq w ∧
  ∃ rows,
    chunked (Inode n) 1 data rows ∧
    open_tx w' =
      Some (mkStore (tree (store w)) (inodes (store w))
              (filter (λ r, b_inode r ≠ Inode n) (data_blocks (store w))
                 ++ rows)).
Proof.
  unfold WriteData.
  destruct (BeginTx w) as [[e0|[]] w0] eqn:E0; [done|].
  apply BeginTx_ok in E0 as T0. apply BeginTx_store in E0 as [S0 Q0].
  destruct (tx_Exec _ w0) as [[e1|[]] w1] eqn:E1; [done|].
  apply tx_Exec_ok in E1 as (s0 & s1 & Hs0 & Hdel & T1 & S1 & Q1).
  rewrite T0 in Hs0. injection Hs0 as <-.
  unfold sql_delete_blocks in Hdel. injection Hdel as <-.
  destruct (write_blocks _ _ _ w1) as [[e2|[]] w2] eqn:E2; [done|].
  eapply write_blocks_ok in E2 as (rows & Hrows & T2 & S2 & Q2); [|exact T1].
  simpl in T2.
  case_decide as Hn.
  { destruct (tx_Exec _ w2) as [[e3|[]] w3]; [done|].
    by destruct (tx_Commit w3) as [[e4|[]] w4]. }
  intros [= <- <-]. rewrite marshals_set_Size in Hn.
  split_and!; [done|done|congruence|congruence|].
  exists rows. split; [done|]. exact T2.
Qed.

(** ** Reading blocks back *)

#[global] Instance by_sequence_trans : Transitive by_sequence.
Proof. unfold by_sequence. intros ???. lia. Qed.

#[global] Instance by_sequence_total : Total by_sequence.
Proof. unfold by_sequence. intros ??. lia. Qed.

Lemma numbered_Sorted (rows : list block_row) (sequence : Z) :
  b_sequence <$> rows = seqZ sequence (Z.of_nat (length rows)) →
  Sorted by_sequence rows.
Proof.
  revert sequence. induction rows as [|r rows IH]; intros sequence Hseq.
  { constructor. }
  rewrite seqZ_cons in Hseq by (simpl; lia).
  rewrite fmap_cons in Hseq. injection Hseq as Hr Hrows.
  replace (Z.pred (Z.of_nat (S (length rows))))
    with (Z.of_nat (length rows)) in Hrows by lia.
  constructor; [apply (IH (Z.succ sequence)); exact Hrows|].
  destruct rows as [|r' rows]; constructor.
  rewrite seqZ_cons in Hrows by (simpl; lia).
  rewrite fmap_cons in Hrows. injection Hrows as Hr' _.
  unfold by_sequence. lia.
Qed.

(** Rows numbered consecutively come back from [ORDER BY sequence] in the
    order of their numbers, however the relation holds them. *)
Lemma numbered_sort (rows rows' : list block_row) (sequence : Z) :
  b_sequence <$> rows = seqZ sequence (Z.of_nat (length rows)) →
  rows' ≡ₚ rows →
  merge_sort by_sequence rows' = rows.
Proof.
  intros Hseq Hperm.
  apply (Sorted_unique_strong by_sequence).
  - intros x1 x2 Hx1 Hx2 H12 H21.
    rewrite merge_sort_Permutation, Hperm in Hx1.
    apply list_elem_of_lookup in Hx1 as [i Hi], Hx2 as [j Hj].
    assert ((b_sequence <$> rows) !! i = Some (b_sequence x1)) as Hi'
      by (by rewrite list_lookup_fmap, Hi).
    assert ((b_sequence <$> rows) !! j = Some (b_sequence x2)) as Hj'
      by (by rewrite list_lookup_fmap, Hj).
    rewrite Hseq in Hi', Hj'.
    apply lookup_seqZ in Hi' as [Hi' _], Hj' as [Hj' _].
    unfold by_sequence in *.
    assert (i = j) as -> by lia. congruence.
  - apply Sorted_merge_sort; apply _.
  - by eapply numbered_Sorted.
  - by rewrite merge_sort_Permutation.
Qed.

Lemma filter_written inode (old rows : list block_row) :
  Forall (λ r, b_inode r = inode) rows →
  filter (λ r, b_inode r = inode)
    (filter (λ r, b_inode r ≠ inode) old ++ rows) = rows.
Proof.
  intros Hrows. rewrite filter_app.
  rewrite list_filter_filter.
  rewrite filter_none; simpl.
  - induction Hrows as [|r rows Hr _ IH]; [done|].
    by rewrite filter_cons_True, IH.
  - apply Forall_forall. intros r _ [??]. done.
Qed.

Lemma rows_Next_quiet {A} (rows : list A) s q tx0 :
  rows_Next rows (mkWorld s q tx0 []) = (rows, mkWorld s q tx0 []).
Proof. induction rows as [|row rows IH]; [done|]. simpl in *. by rewrite IH. Qed.

(** The loop scans a prefix of the rows and changes nothing. *)
Lemma rows_Next_prefix {A} (rows : list A) w got w' :
  rows_Next rows w = (got, w') →
  (∃ k, got = take k rows) ∧
  store w' = store w ∧ inode_seq w' = inode_seq w ∧ open_tx w' = open_tx w.
Proof.
  revert w got w'. induction rows as [|row rows IH]; intros w got w'; simpl.
  - unfold next_fault. destruct (faults w) as [|b fl]; intros [= <- <-];
      (split; [by exists 0%nat|done]).
  - unfold next_fault. destruct (faults w) as [|[] fl]; simpl.
    + destruct (rows_Next rows w) as [got1 w1] eqn:Hrest.
      apply IH in Hrest as ([k ->] & ? & ? & ?). intros [= <- <-].
      split; [by exists (S k)|done].
    + intros [= <- <-]. split; [by exists 0%nat|done].
    + destruct (rows_Next rows _) as [got1 w1] eqn:Hrest.
      apply IH in Hrest as ([k ->] & ? & ? & ?). intros [= <- <-].
      split; [by exists (S k)|done].
Qed.

Lemma ReadData_quiet inode s q tx0 :
  ReadData inode (mkWorld s q tx0 []) =
    (inr (concat (b_data <$> merge_sort by_sequence
                    (filter (λ r, b_inode r = inode) (data_blocks s)))),
     mkWorld s q tx0 []).
Proof.
  unfold ReadData. cbn [db_Query next_fault faults sql_select_blocks store].
  rewrite rows_Next_quiet. by rewrite append_all.
Qed.

(** A read that returns data returns the blocks its loop has scanned, the
    first ones in the order of their numbers. *)
Lemma ReadData_ok inode w read w' :
  ReadData inode w = (inr read, w') →
  (∃ k, read = scanned k inode (store w)) ∧ store w' = store w.
Proof.
  unfold ReadData.
  destruct (db_Query _ w) as [[err|rows] w1] eqn:Hq; [done|].
  apply db_Query_ok in Hq as (Hsel & Hst & _).
  unfold sql_select_blocks in Hsel. injection Hsel as <-.
  destruct (rows_Next _ w1) as [got w2] eqn:Hloop.
  apply rows_Next_prefix in Hloop as ([k ->] & Hst2 & _).
  intros [= <- <-]. split; [|congruence].
  exists k. rewrite append_all. simpl. unfold scanned.
  by rewrite fmap_take.
Qed.

Lemma take_add {A} (n m : nat) (l : list A) :
  take (n + m) l = take n l ++ take m (drop n l).
Proof.
  revert l. induction n as [|n IH]; intros [|x l]; simpl; try done.
  - by rewrite take_nil.
  - by rewrite IH.
Qed.

(** The first [k] blocks of a stream laid out in blocks are its first
    [k * BLOCK_SIZE] bytes. *)
Lemma chunked_take inode sequence input rows (k : nat) :
  chunked inode sequence input rows →
  concat (b_data <$> take k rows) = take (k * BLOCK_SIZE) input.
Proof.
  intros Hc. revert k.
  induction Hc as [s|s input Hne Hle|s input rows Hlt Hc IH]; intros k.
  - by rewrite !take_nil.
  - destruct k as [|k]; [done|].
    cbn [take fmap list_fmap concat b_data]. rewrite take_nil, app_nil_r.
    rewrite take_ge; [done|]. pose proof BLOCK_SIZE_pos. nia.
  - destruct k as [|k]; [done|].
    cbn [take fmap list_fmap concat b_data]. rewrite IH.
    change (S k * BLOCK_SIZE)%nat with (BLOCK_SIZE + k * BLOCK_SIZE)%nat.
    by rewrite take_add.
Qed.

Lemma content_blocks inode s s' :
  data_blocks s' = data_blocks s → content inode s' = content inode s.
Proof. unfold content. by intros ->. Qed.

Lemma content_other inode other (old rows : list block_row) s s' :
  inode ≠ other →
  Forall (λ r, b_inode r = other) rows →
  data_blocks s' = filter (λ r, b_inode r ≠ other) (data_blocks s) ++ rows →
  content inode s' = content inode s.
Proof.
  intros Hne Hrows Hblocks. unfold content. rewrite Hblocks.
  rewrite filter_app, list_filter_filter.
  rewrite (filter_none _ rows).
  - rewrite app_nil_r. do 3 f_equal.
    apply list_filter_iff. intros r. intuition congruence.
  - eapply Forall_impl; [exact Hrows|]. simpl. intros r ??. congruence.
Qed.

Lemma content_written inode (old rows : list block_row) data s' :
  chunked inode 1 data rows →
  data_blocks s' = filter (λ r, b_inode r ≠ inode) old ++ rows →
  content inode s' = data.
Proof.
  intros Hrows Hblocks. unfold content. rewrite Hblocks.
  rewrite filter_written by (by eapply chunked_inode).
  erewrite numbered_sort; [|by eapply chunked_sequence|done].
  by eapply chunked_concat.
Qed.

Lemma scanned_written inode (old rows : list block_row) data s' k :
  chunked inode 1 data rows →
  data_blocks s' = filter (λ r, b_inode r ≠ inode) old ++ rows →
  scanned k inode s' = take (k * BLOCK_SIZE) data.
Proof.
  intros Hrows Hblocks. unfold scanned. rewrite Hblocks.
  rewrite filter_written by (by eapply chunked_inode).
  erewrite numbered_sort; [|by eapply chunked_sequence|done].
  by eapply chunked_take.
Qed.

(** ** Nodes by inode and by name *)

Lemma GetNodeByID_quiet inode s q tx0 :
  GetNodeByID inode (mkWorld s q tx0 []) =
    (match inodes s !! inode with
     | Some j => inr (Unmarshal j (set_Inode inode zeroNode))
     | None => inl ErrNoRows
     end, mkWorld s q tx0 []).
Proof.
  unfold GetNodeByID, sql_select_inode. simpl. by destruct (inodes s !! inode).
Qed.

Lemma GetNodeByID_ok inode w found w' :
  GetNodeByID inode w = (inr found, w') →
  ∃ j, inodes (store w) !! inode = Some j ∧
       found = Unmarshal j (set_Inode inode zeroNode) ∧
       store w' = store w ∧ open_tx w' = open_tx w ∧
       inode_seq w' = inode_seq w.
Proof.
  unfold GetNodeByID.
  destruct (db_Query _ w) as [[err|j] w1] eqn:Hq; [done|].
  apply db_Query_ok in Hq as (Hsel & Hst & Htx & Hseq).
  unfold sql_select_inode in Hsel.
  destruct (inodes (store w) !! inode) as [j'|]; [|done].
  injection Hsel as ->. intros [= <- <-]. eauto 10.
Qed.

Lemma GetNodeByName_quiet parent name s q tx0 :
  GetNodeByName parent name (mkWorld s q tx0 []) =
    (match filter (same_slot parent name) (tree s) with
     | r :: _ =>
         match inodes s !! t_inode r with
         | Some j => inr (Unmarshal j (set_Inode (t_inode r) zeroNode))
         | None => inl ErrNoRows
         end
     | [] => inl ErrNoRows
     end, mkWorld s q tx0 []).
Proof.
  unfold GetNodeByName, sql_select_slot. simpl.
  destruct (filter _ (tree s)); [done|]. by rewrite GetNodeByID_quiet.
Qed.

Lemma GetNodeByName_ok parent name w found w' :
  GetNodeByName parent name w = (inr found, w') →
  ∃ r rest j,
    filter (same_slot parent name) (tree (store w)) = r :: rest ∧
    inodes (store w) !! t_inode r = Some j ∧
    found = Unmarshal j (set_Inode (t_inode r) zeroNode) ∧
    store w' = store w ∧ open_tx w' = open_tx w ∧ inode_seq w' = inode_seq w.
Proof.
  unfold GetNodeByName.
  destruct (db_Query _ w) as [[err|inode] w1] eqn:Hq; [done|].
  apply db_Query_ok in Hq as (Hsel & Hst & Htx & Hseq).
  unfold sql_select_slot in Hsel.
  destruct (filter _ (tree (store w))) as [|r rest]; [done|].
  injection Hsel as <-. intros Hid.
  apply GetNodeByID_ok in Hid as (j & Hj & -> & Hst' & Htx' & Hseq').
  rewrite Hst in Hj. exists r, rest, j. split_and!; congruence.
Qed.

Lemma GetNodeByName_store parent name w r w' :
  GetNodeByName parent name w = (r, w') →
  store w' = store w ∧ open_tx w' = open_tx w ∧ inode_seq w' = inode_seq w.
Proof.
  unfold GetNodeByName, GetNodeByID.
  destruct (db_Query _ w) as [[err|inode] w1] eqn:Hq;
    apply db_Query_store in Hq as (S1 & Q1 & T1).
  { intros [= <- <-]. done. }
  destruct (db_Query _ w1) as [[err|j] w2] eqn:Hq2;
    apply db_Query_store in Hq2 as (S2 & Q2 & T2);
    intros [= <- <-]; split_and!; congruence.
Qed.

(** ** [UpsertNode] *)

Lemma UpsertNode_quiet now1 now2 parent n s q tx0 :
  ¬ taken parent (Name n) s →
  UpsertNode now1 now2 parent n (mkWorld s q tx0 []) =
    (inserted now1 now2 q n, None,
     mkWorld
       (mkStore (tree s ++ [mkTree q parent (Name n)])
          (<[q := toJSON (inserted now1 now2 q n)]> (inodes s))
          (data_blocks s))
       (q + 1) None []).
Proof.
  intros Hfree. unfold UpsertNode, tx_InsertReturning, sql_insert_tree. simpl.
  by rewrite decide_False.
Qed.

Lemma UpsertNode_taken now1 now2 parent n s q tx0 :
  taken parent (Name n) s →
  UpsertNode now1 now2 parent n (mkWorld s q tx0 []) =
    (set_Ctime now2 (set_Mtime now1 n),
     Some (Wrapf ErrUnique "failed to upsert row into tree in parent %d"),
     mkWorld s (q + 1) None []).
Proof.
  intros Htaken. unfold UpsertNode, tx_InsertReturning, sql_insert_tree. simpl.
  by rewrite decide_True.
Qed.

(** Whatever the store does, an insert under a taken name fails. *)
Lemma UpsertNode_taken_fails now1 now2 parent n w :
  taken parent (Name n) (store w) →
  ∃ n' err w', UpsertNode now1 now2 parent n w = (n', Some err, w').
Proof.
  intros Htaken. unfold UpsertNode.
  destruct (BeginTx w) as [[e0|[]] w0] eqn:E0; [by eauto|].
  apply BeginTx_ok in E0.
  unfold tx_InsertReturning, next_fault.
  destruct (faults w0) as [|[] fl]; simpl; rewrite ?E0;
    unfold sql_insert_tree; simpl; rewrite ?decide_True by done; eauto.
Qed.

Lemma UpsertNode_fail now1 now2 parent n w n' err w' :
  UpsertNode now1 now2 parent n w = (n', Some err, w') →
  store w' = store w ∧ (open_tx w = None → open_tx w' = None).
Proof.
  unfold UpsertNode.
  destruct (BeginTx w) as [[e0|[]] w0] eqn:E0.
  { intros [= <- <- <-]. apply BeginTx_store in E0 as E0'.
    apply BeginTx_fail in E0. destruct E0'. split; congruence. }
  apply BeginTx_store in E0 as [S0 Q0].
  destruct (tx_InsertReturning _ _ w0) as [[e1|lastId] w1] eqn:E1;
    apply tx_InsertReturning_store in E1 as S1.
  { intros [= <- <- <-]. simpl. split; congruence. }
  destruct (tx_Exec _ w1) as [[e2|[]] w2] eqn:E2;
    apply tx_Exec_store in E2 as [S2 Q2].
  { intros [= <- <- <-]. simpl. split; congruence. }
  destruct (tx_Commit w2) as [[e3|[]] w3] eqn:E3; [|done].
  apply tx_Commit_fail in E3 as (S3 & Q3 & T3).
  intros [= <- <- <-]. split; congruence.
Qed.

Lemma UpsertNode_ok now1 now2 parent n w n' w' :
  UpsertNode now1 now2 parent n w = (n', None, w') →
  ¬ taken parent (Name n) (store w) ∧
  n' = inserted now1 now2 (inode_seq w) n ∧
  open_tx w' = None ∧
  store w' =
    mkStore (tree (store w) ++ [mkTree (inode_seq w) parent (Name n)])
      (<[inode_seq w := toJSON n']> (inodes (store w)))
      (data_blocks (store w)).
Proof.
  unfold UpsertNode.
  destruct (BeginTx w) as [[e0|[]] w0] eqn:E0; [done|].
  apply BeginTx_ok in E0 as T0. apply BeginTx_store in E0 as [S0 Q0].
  destruct (tx_InsertReturning _ _ w0) as [[e1|lastId] w1] eqn:E1; [done|].
  apply tx_InsertReturning_ok in E1 as (s0 & s1 & Hs0 & -> & Hins & T1 & S1).
  rewrite T0 in Hs0. injection Hs0 as <-.
  unfold sql_insert_tree in Hins. simpl in Hins.
  case_decide as Hfree; [done|]. injection Hins as <-.
  destruct (tx_Exec _ w1) as [[e2|[]] w2] eqn:E2; [done|].
  apply tx_Exec_ok in E2 as (s1' & s2 & Hs1 & Hup & T2 & _ & _).
  rewrite T1 in Hs1. injection Hs1 as <-.
  unfold sql_upsert_inode in Hup. injection Hup as <-.
  destruct (tx_Commit w2) as [[e3|[]] w3] eqn:E3; [done|].
  apply tx_Commit_ok in E3 as (s3 & Hs3 & S3 & T3 & _).
  rewrite T2 in Hs3. injection Hs3 as <-.
  intros [= <- <-]. rewrite Q0 in *. split_and!; done.
Qed.

(** ** [RemoveNodeByName] *)

Lemma RemoveNodeByName_quiet parent name inode s q tx0 :
  RemoveNodeByName parent name inode (mkWorld s q tx0 []) =
    let tree' := filter (λ r, ¬ same_slot parent name r) (tree s) in
    if decide (0 < Z.of_nat (length (filter (λ r, t_inode r = inode) tree')))
    then (None, mkWorld s q (Some (mkStore tree' (inodes s) (data_blocks s))) [])
    else (None,
          mkWorld
            (mkStore tree' (delete inode (inodes s))
               (filter (λ r, b_inode r ≠ inode) (data_blocks s)))
            q None []).
Proof.
  unfold RemoveNodeByName. simpl. by case_decide.
Qed.

Lemma RemoveNodeByName_fail parent name inode w err w' :
  RemoveNodeByName parent name inode w = (Some err, w') →
  store w' = store w ∧ (open_tx w = None → open_tx w' = None).
Proof.
  unfold RemoveNodeByName.
  destruct (BeginTx w) as [[e0|[]] w0] eqn:E0.
  { intros [= <- <-]. apply BeginTx_store in E0 as E0'.
    apply BeginTx_fail in E0. destruct E0'. split; congruence. }
  apply BeginTx_store in E0 as [S0 Q0].
  destruct (tx_Exec _ w0) as [[e1|[]] w1] eqn:E1;
    apply tx_Exec_store in E1 as [S1 Q1].
  { intros [= <- <-]. simpl. split; congruence. }
  destruct (tx_Query _ w1) as [[e2|count] w2] eqn:E2;
    apply tx_Query_store in E2 as [S2 Q2].
  { intros [= <- <-]. simpl. split; congruence. }
  case_decide; [done|].
  destruct (tx_Exec _ w2) as [[e3|[]] w3] eqn:E3;
    apply tx_Exec_store in E3 as [S3 Q3].
  { intros [= <- <-]. simpl. split; congruence. }
  destruct (tx_Exec _ w3) as [[e4|[]] w4] eqn:E4;
    apply tx_Exec_store in E4 as [S4 Q4].
  { intros [= <- <-]. simpl. split; congruence. }
  destruct (tx_Commit w4) as [[e5|[]] w5] eqn:E5; [|done].
  apply tx_Commit_fail in E5 as (S5 & Q5 & T5).
  intros [= <- <-]. split; congruence.
Qed.

Lemma RemoveNodeByName_ok parent name inode w w' :
  RemoveNodeByName parent name inode w = (None, w') →
  let tree' := filter (λ r, ¬ same_slot parent name r) (tree (store w)) in
  (Exists (λ r, t_inode r = inode) tree' ∧
   store w' = store w ∧
   open_tx w' =
     Some (mkStore tree' (inodes (store w)) (data_blocks (store w)))) ∨
  (¬ Exists (λ r, t_inode r = inode) tree' ∧
   open_tx w' = None ∧
   store w' =
     mkStore tree' (delete inode (inodes (store w)))
       (filter (λ r, b_inode r ≠ inode) (data_blocks (store w)))).
Proof.
  unfold RemoveNodeByName.
  destruct (BeginTx w) as [[e0|[]] w0] eqn:E0; [done|].
  apply BeginTx_ok in E0 as T0. apply BeginTx_store in E0 as [S0 _].
  destruct (tx_Exec _ w0) as [[e1|[]] w1] eqn:E1; [done|].
  apply tx_Exec_ok in E1 as (s0 & s1 & Hs0 & Hdel & T1 & S1 & _).
  rewrite T0 in Hs0. injection Hs0 as <-.
  unfold sql_delete_tree in Hdel. injection Hdel as <-.
  destruct (tx_Query _ w1) as [[e2|count] w2] eqn:E2; [done|].
  apply tx_Query_ok in E2 as (s1' & Hs1 & Hcount & T2 & S2 & _).
  rewrite T1 in Hs1. injection Hs1 as <-.
  unfold sql_count_refs in Hcount. simpl in Hcount. injection Hcount as <-.
  case_decide as Hrefs.
  { intros [= <-]. left. split_and!; [|congruence|done].
    destruct (filter (λ r, t_inode r = inode) _) as [|r l] eqn:Hf;
      [simpl in Hrefs; lia|].
    assert (r ∈ r :: l) as Hin by left. rewrite <-Hf in Hin.
    apply list_elem_of_filter in Hin as [? ?].
    apply Exists_exists. eauto. }
  destruct (tx_Exec _ w2) as [[e3|[]] w3] eqn:E3; [done|].
  apply tx_Exec_ok in E3 as (s2 & s3 & Hs2 & Hdi & T3 & _ & _).
  rewrite T2 in Hs2. injection Hs2 as <-.
  unfold sql_delete_inode in Hdi. injection Hdi as <-.
  destruct (tx_Exec _ w3) as [[e4|[]] w4] eqn:E4; [done|].
  apply tx_Exec_ok in E4 as (s3 & s4 & Hs3 & Hdb & T4 & _ & _).
  rewrite T3 in Hs3. injection Hs3 as <-.
  unfold sql_delete_blocks in Hdb. injection Hdb as <-.
  destruct (tx_Commit w4) as [[e5|[]] w5] eqn:E5; [done|].
  apply tx_Commit_ok in E5 as (s5 & Hs5 & S5 & T5 & _).
  rewrite T4 in Hs5. injection Hs5 as <-.
  intros [= <-]. right. split_and!; [|done..].
  intros Hex. apply Hrefs. by apply count_positive.
Qed.

(** ** [CreateLink] *)

Lemma CreateLink_quiet parent n s q tx0 :
  CreateLink parent n (mkWorld s q tx0 []) =
    if decide (taken parent (Name n) s) then
      (Some (Wrapf ErrUnique "failed to upsert row into tree in parent %d"),
       mkWorld s q None [])
    else
      match inodes s !! Inode n with
      | None =>
          (Some (Wrapf ErrNoRows "failed to retrieve node for update %d"),
           mkWorld s q None [])
      | Some j =>
          (None,
           mkWorld
             (mkStore (tree s ++ [mkTree (Inode n) parent (Name n)])
                (<[Inode n := linked j]> (inodes s)) (data_blocks s))
             q None [])
      end.
Proof.
  unfold CreateLink. rewrite BeginTx_quiet, tx_Exec_quiet.
  unfold sql_insert_tree, taken.
  destruct (decide (Exists (same_slot parent (Name n)) (tree s))); [done|].
  rewrite GetNodeByID_quiet. by destruct (inodes s !! Inode n).
Qed.

Lemma CreateLink_fail parent n w err w' :
  CreateLink parent n w = (Some err, w') →
  store w' = store w ∧ (open_tx w = None → open_tx w' = None).
Proof.
  unfold CreateLink, GetNodeByID.
  destruct (BeginTx w) as [[e0|[]] w0] eqn:E0.
  { intros [= <- <-]. apply BeginTx_store in E0 as E0'.
    apply BeginTx_fail in E0. destruct E0'. split; congruence. }
  apply BeginTx_store in E0 as [S0 Q0].
  destruct (tx_Exec _ w0) as [[e1|[]] w1] eqn:E1;
    apply tx_Exec_store in E1 as [S1 Q1].
  { intros [= <- <-]. simpl. split; congruence. }
  destruct (db_Query _ w1) as [[e2|j] w2] eqn:E2;
    apply db_Query_store in E2 as (S2 & Q2 & T2).
  { intros [= <- <-]. simpl. split; congruence. }
  destruct (tx_Exec _ w2) as [[e3|[]] w3] eqn:E3;
    apply tx_Exec_store in E3 as [S3 Q3].
  { intros [= <- <-]. simpl. split; congruence. }
  destruct (tx_Commit w3) as [[e4|[]] w4] eqn:E4; [|done].
  apply tx_Commit_fail in E4 as (S4 & Q4 & T4).
  intros [= <- <-]. split; congruence.
Qed.

Lemma CreateLink_ok parent n w w' :
  CreateLink parent n w = (None, w') →
  ∃ j,
    inodes (store w) !! Inode n = Some j ∧
    ¬ taken parent (Name n) (store w) ∧
    open_tx w' = None ∧
    store w' =
      mkStore (tree (store w) ++ [mkTree (Inode n) parent (Name n)])
        (<[Inode n := linked j]> (inodes (store w))) (data_blocks (store w)).
Proof.
  unfold CreateLink, GetNodeByID.
  destruct (BeginTx w) as [[e0|[]] w0] eqn:E0; [done|].
  apply BeginTx_ok in E0 as T0.
  destruct (tx_Exec _ w0) as [[e1|[]] w1] eqn:E1; [done|].
  apply tx_Exec_ok in E1 as (s0 & s1 & Hs0 & Hins & T1 & S1 & _).
  rewrite T0 in Hs0. injection Hs0 as <-.
  apply BeginTx_store in E0 as [S0 _].
  unfold sql_insert_tree in Hins. case_decide as Hfree; [done|].
  injection Hins as <-.
  destruct (db_Query _ w1) as [[e2|j] w2] eqn:E2; [done|].
  apply db_Query_ok in E2 as (Hsel & S2 & T2 & _).
  unfold sql_select_inode in Hsel. rewrite S1, S0 in Hsel.
  destruct (inodes (store w) !! Inode n) as [j'|] eqn:Hrow; [|done].
  injection Hsel as ->.
  destruct (tx_Exec _ w2) as [[e3|[]] w3] eqn:E3; [done|].
  apply tx_Exec_ok in E3 as (s2 & s3 & Hs2 & Hup & T3 & _ & _).
  rewrite T2, T1 in Hs2. injection Hs2 as <-.
  unfold sql_upsert_inode in Hup. injection Hup as <-.
  destruct (tx_Commit w3) as [[e4|[]] w4] eqn:E4; [done|].
  apply tx_Commit_ok in E4 as (s4 & Hs4 & S4 & T4 & _).
  rewrite T3 in Hs4. injection Hs4 as <-.
  intros [= <-]. exists j. split_and!; done.
Qed.

(** ** [RenameNode] *)

Lemma rename_row_columns newName newParent oldName oldParent r :
  t_inode (rename_row newName newParent oldName oldParent r) = t_inode r ∧
  (¬ same_slot oldParent oldName r →
   rename_row newName newParent oldName oldParent r = r) ∧
  (same_slot oldParent oldName r →
   same_slot newParent newName
     (rename_row newName newParent oldName oldParent r)).
Proof.
  unfold rename_row. case_decide; split_and!; try done.
Qed.

Lemma rename_none newName newParent oldName oldParent (l : list tree_row) :
  ¬ Exists (same_slot oldParent oldName) l →
  rename_row newName newParent oldName oldParent <$> l = l.
Proof.
  intros Hnone. apply not_Exists_Forall in Hnone; [|apply _].
  induction Hnone as [|r l Hr _ IH]; [done|].
  rewrite fmap_cons, IH. f_equal. by apply rename_row_columns.
Qed.

Lemma RenameNode_frame oldParent oldName newParent newName w r w' :
  RenameNode oldParent oldName newParent newName w = (r, w') →
  inodes (store w') = inodes (store w) ∧
  data_blocks (store w') = data_blocks (store w) ∧
  inode_seq w' = inode_seq w ∧
  (tree (store w') = tree (store w) ∨
   tree (store w') =
     rename_row newName newParent oldName oldParent <$> tree (store w)).
Proof.
  unfold RenameNode, db_Exec, sql_update_tree, next_fault.
  destruct (faults w) as [|[] fl]; simpl;
    repeat case_decide; intros [= <- <-]; simpl; auto.
Qed.

(** ** The recorded size and the bytes in the blocks *)

Lemma size_matches_ext inode s s' :
  inodes s' !! inode = inodes s !! inode →
  content inode s' = content inode s →
  size_matches inode s → size_matches inode s'.
Proof. unfold size_matches. intros Hrow Hbytes. by rewrite Hrow, Hbytes. Qed.

(** [Setattr] ends in one [UPSERT] of the row of its inode. *)
Lemma Setattr_store n req resp w n' resp' r w' :
  Setattr n req resp w = (n', resp', r, w') →
  Inode n' = Inode n ∧
  (v_Size (sr_Valid req) = true → Size n' = sr_Size req) ∧
  (v_Size (sr_Valid req) = false → Size n' = Size n) ∧
  (store w' = store w ∨
   store w' =
     mkStore (tree (store w)) (<[Inode n := toJSON n']> (inodes (store w)))
       (data_blocks (store w))).
Proof.
  unfold Setattr, UpdateNode, db_Exec, sql_upsert_inode, next_fault.
  destruct req as [[vm vu vg vs va vt vc] rm ru rg rs ra rt rc]. simpl.
  case_decide; destruct (faults w) as [|[] fl]; simpl; intros [= <- <- <- <-];
    destruct vm, vu, vg, vs, va, vt, vc; simpl; split_and!; try done; auto.
Qed.

Lemma Setattr_size n req resp w n' resp' r w' :
  Setattr n req resp w = (n', resp', r, w') →
  data_blocks (store w') = data_blocks (store w) ∧
  tree (store w') = tree (store w) ∧
  (∀ inode, inode ≠ Inode n →
     inodes (store w') !! inode = inodes (store w) !! inode) ∧
  (∀ inode, inode ≠ Inode n →
     size_matches inode (store w) → size_matches inode (store w')) ∧
  (size_matches (Inode n) (store w) →
   (IsRegular n' = true →
    Size n' = Z.of_nat (length (content (Inode n) (store w)))) →
   size_matches (Inode n) (store w')).
Proof.
  intros Hrun. apply Setattr_store in Hrun as (Hi & _ & _ & [->| ->]).
  { split_and!; auto. }
  simpl. split_and!; try done.
  - intros inode Hne. by rewrite lookup_insert_ne.
  - intros inode Hne. apply size_matches_ext; [|done].
    simpl. by rewrite lookup_insert_ne.
  - intros _ Hsize j Hj Hreg. simpl in Hj. rewrite lookup_insert_eq in Hj.
    injection Hj as <-. simpl in *. unfold content in *. simpl.
    apply Hsize. unfold IsRegular. by apply Z.eqb_eq.
Qed.

(** [WriteData] that returns [nil] makes the invariant hold at its inode;
    every run keeps it where it held. *)
Lemma WriteData_size n data w :
  ((WriteData n data w).1.2 = Returns None →
   size_matches (Inode n) (store (WriteData n data w).2)) ∧
  (∀ inode, size_matches inode (store w) →
            size_matches inode (store (WriteData n data w).2)).
Proof.
  destruct (WriteData n data w) as [[n' [[err|]|]] w'] eqn:Hrun; simpl.
  { apply WriteData_fail in Hrun as (-> & _). done. }
  2: { apply WriteData_panic in Hrun as (_ & _ & -> & _). done. }
  apply WriteData_ok in Hrun as (-> & _ & rows & Hrows & ->).
  assert (size_matches (Inode n)
            (mkStore (tree (store w))
               (<[Inode n := toJSON (set_Size (Z.of_nat (length data)) n)]>
                  (inodes (store w)))
               (filter (λ r, b_inode r ≠ Inode n) (data_blocks (store w))
                  ++ rows)))
    as Hown.
  { intros j Hj _. simpl in Hj. rewrite lookup_insert_eq in Hj.
    injection Hj as <-. simpl.
    by erewrite content_written. }
  split; [done|]. intros inode Hinv.
  destruct (decide (inode = Inode n)) as [->|Hne]; [done|].
  eapply size_matches_ext; [| |exact Hinv].
  - simpl. by rewrite lookup_insert_ne.
  - eapply (content_other _ _ (data_blocks (store w)) rows);
      [done|by eapply chunked_inode|done].
Qed.

Lemma RenameNode_size oldParent oldName newParent newName w inode :
  size_matches inode (store w) →
  size_matches inode
    (store (RenameNode oldParent oldName newParent newName w).2).
Proof.
  destruct (RenameNode _ _ _ _ w) as [r w'] eqn:Hrun. simpl.
  apply RenameNode_frame in Hrun as (Hi & Hb & _).
  apply size_matches_ext; [by rewrite Hi|by apply content_blocks].
Qed.

Lemma CreateLink_size parent n w inode :
  size_matches inode (store w) →
  size_matches inode (store (CreateLink parent n w).2).
Proof.
  destruct (CreateLink parent n w) as [[err|] w'] eqn:Hrun; simpl.
  { apply CreateLink_fail in Hrun as (-> & _). done. }
  apply CreateLink_ok in Hrun as (j & Hrow & _ & _ & ->).
  intros Hinv. destruct (decide (inode = Inode n)) as [->|Hne].
  - intros j' Hj' Hreg. simpl in Hj'. rewrite lookup_insert_eq in Hj'.
    injection Hj' as <-. apply (Hinv j Hrow Hreg).
  - eapply size_matches_ext; [| |exact Hinv]; [|done].
    simpl. by rewrite lookup_insert_ne.
Qed.

Lemma RemoveNodeByName_size parent name target w inode :
  size_matches inode (store w) →
  size_matches inode (store (RemoveNodeByName parent name target w).2).
Proof.
  destruct (RemoveNodeByName parent name target w) as [[err|] w'] eqn:Hrun;
    simpl.
  { apply RemoveNodeByName_fail in Hrun as (-> & _). done. }
  apply RemoveNodeByName_ok in Hrun as [(_ & -> & _)|(_ & _ & ->)]; [done|].
  intros Hinv. destruct (decide (inode = target)) as [->|Hne].
  - intros j Hj. simpl in Hj. by rewrite lookup_delete_eq in Hj.
  - eapply size_matches_ext; [| |exact Hinv].
    + simpl. by rewrite lookup_delete_ne.
    + eapply (content_other _ target (data_blocks (store w)) []);
        [done|constructor|]. simpl. by rewrite app_nil_r.
Qed.

Lemma UpsertNode_size now1 now2 parent n w inode :
  (IsRegular n = true →
   Size n = Z.of_nat (length (content (inode_seq w) (store w)))) →
  size_matches inode (store w) →
  size_matches inode (store (UpsertNode now1 now2 parent n w).2).
Proof.
  intros Hsize.
  destruct (UpsertNode now1 now2 parent n w) as [[n' [err|]] w'] eqn:Hrun;
    simpl.
  { apply UpsertNode_fail in Hrun as (-> & _). done. }
  apply UpsertNode_ok in Hrun as (_ & -> & _ & ->).
  intros Hinv. destruct (decide (inode = inode_seq w)) as [->|Hne].
  - intros j Hj Hreg. simpl in Hj. rewrite lookup_insert_eq in Hj.
    injection Hj as <-. simpl in *. unfold content in *. simpl.
    apply Hsize. unfold IsRegular. by apply Z.eqb_eq.
  - eapply size_matches_ext; [| |exact Hinv]; [|done].
    simpl. by rewrite lookup_insert_ne.
Qed.

(** * The claims *)

(** ** C1: what is written is read back *)



(** The boundary lengths, run on the node of [/a]. *)
Example read_back_boundaries :
  Forall (λ k,
    let data := replicate k x61 in
    ReadData 2 (WriteData nodeA data oneFile).2 =
      (inr data, (WriteData nodeA data oneFile).2))
    [0; 1; 1023; 1024; 1025; 2048; 3079]%nat.
Proof. repeat constructor; vm_compute; reflexivity. Qed.

(** A read of three blocks in which the store fails at the third row: it
    returns the first two blocks, and no error. *)
Example read_cut_short :
  let written := (WriteData nodeA (replicate 2049 x61) oneFile).2 in
  (ReadData 2 (with_faults [false; false; false; true] written)).1 =
    inr (replicate 2048 x61).
Proof. vm_compute. reflexivity. Qed.

(** ** C7: a write replaces the blocks of the node *)



(** The failure of the store at each round trip of a write of two blocks
    and a byte: the committed relations stay those of [oneFile]. *)
Example write_rolls_back :
  Forall (λ k,
    let w := with_faults (replicate k false ++ [true]) oneFile in
    let run := WriteData nodeA (replicate 2049 x61) w in
    run.1.2 = Returns (Some ErrDriver) ∧ store run.2 = store oneFile ∧
    open_tx run.2 = None)
    [0; 1; 2; 3; 4; 5; 6]%nat.
Proof. repeat constructor; vm_compute; reflexivity. Qed.

(** ** C8: a new name resolves to the inode it was given *)

(** C8.  When the name is free in the directory and the store does not
    fail, [UpsertNode] draws the next inode of the sequence for it and
    [GetNodeByName] on the same directory and name returns a node with
    that inode; and in any run in which both calls succeed the inodes
    agree. *)
Theorem insert_then_resolve (now1 now2 parent : Z) (n : fileNode) (w : World) :
  (quiet w →
   ¬ taken parent (Name n) (store w) →
   ∃ n' found w',
     UpsertNode now1 now2 parent n w = (n', None, w') ∧
     GetNodeByName parent (Name n) w' = (inr found, w') ∧
     Inode found = Inode n') ∧
  (∀ n' w' found w'',
     UpsertNode now1 now2 parent n w = (n', None, w') →
     GetNodeByName parent (Name n) w' = (inr found, w'') →
     Inode n' = inode_seq w ∧ Inode found = Inode n').
Proof.
  split.
  - destruct w as [s q tx0 fl]. unfold quiet. simpl. intros -> Hfree.
    rewrite UpsertNode_quiet by done.
    do 3 eexists. split; [reflexivity|].
    rewrite GetNodeByName_quiet. simpl.
    rewrite filter_app, filter_none; simpl.
    + rewrite filter_cons_True by (by unfold same_slot). simpl.
      rewrite lookup_insert_eq. done.
    + unfold taken in Hfree.
      apply not_Exists_Forall in Hfree; [exact Hfree|apply _].
  - intros n' w' found w'' Hins Hget.
    apply UpsertNode_ok in Hins as (Hfree & -> & _ & Hstore).
    apply GetNodeByName_ok in Hget as (r & rest & j & Hslot & _ & -> & _).
    split; [done|]. simpl.
    rewrite Hstore in Hslot. simpl in Hslot.
    rewrite filter_app, filter_none in Hslot.
    + rewrite filter_cons_True in Hslot by (by unfold same_slot).
      simpl in Hslot. by injection Hslot as <- _.
    + unfold taken in Hfree.
      apply not_Exists_Forall in Hfree; [exact Hfree|apply _].
Qed.

Lemma insert_then_resolve_witness :
  ∃ n' found w',
    UpsertNode 10 11 1 (set_Name "b" zeroNode) oneFile = (n', None, w') ∧
    GetNodeByName 1 "b" w' = (inr found, w') ∧
    Inode found = Inode n'.
Proof.
  destruct (insert_then_resolve 10 11 1 (set_Name "b" zeroNode) oneFile)
    as [Hrun _].
  apply Hrun; [reflexivity|].
  apply (proj1 (bool_decide_eq_false _)). vm_compute. reflexivity.
Defined.

(** The same through the node methods: [Create] in the root, then
    [Lookup] of the name. *)
Example create_then_lookup :
  let created := Create 10 11 rootNode "b" 420 oneFile in
  inode_of created.1 = Some 3 ∧
  inode_of (Lookup rootNode "b" created.2).1 = Some 3.
Proof. vm_compute. split; reflexivity. Qed.

(** ** C6: removing the last name of an inode *)

(** C6.  When the entry [(parent, name)] is the only tree entry that names
    [inode], a call of [RemoveNodeByName] that returns [nil] has committed,
    in one transaction, the deletion of that entry, of the node row and of
    every data block of the inode, and nothing else; the call returns
    [nil] whenever the store does not fail.  A call that returns an error
    leaves the committed relations as they were. *)
Theorem remove_last_entry (parent : Z) (name : string) (inode : Z) (w : World) :
  filter (λ r, t_inode r = inode) (tree (store w)) = [mkTree inode parent name] →
  (quiet w → (RemoveNodeByName parent name inode w).1 = None) ∧
  (∀ w',
     RemoveNodeByName parent name inode w = (None, w') →
     open_tx w' = None ∧
     tree (store w') = filter (λ r, ¬ same_slot parent name r) (tree (store w)) ∧
     inodes (store w') = delete inode (inodes (store w)) ∧
     data_blocks (store w') =
       filter (λ r, b_inode r ≠ inode) (data_blocks (store w)) ∧
     ¬ taken parent name (store w') ∧
     inodes (store w') !! inode = None ∧
     Forall (λ r, b_inode r ≠ inode) (data_blocks (store w'))) ∧
  (∀ err w',
     RemoveNodeByName parent name inode w = (Some err, w') →
     store w' = store w).
Proof.
  intros Honly.
  assert (¬ Exists (λ r, t_inode r = inode)
              (filter (λ r, ¬ same_slot parent name r) (tree (store w))))
    as Hgone.
  { rewrite Exists_exists. intros (r & [Hslot Hr]%list_elem_of_filter & Hi).
    assert (r ∈ [mkTree inode parent name]) as Hin
      by (by rewrite <-Honly, list_elem_of_filter).
    apply list_elem_of_singleton in Hin as ->. by apply Hslot. }
  split_and!.
  - destruct w as [s q tx0 fl]. unfold quiet. simpl. intros ->.
    rewrite RemoveNodeByName_quiet. simpl. by case_decide.
  - intros w' Hrun.
    apply RemoveNodeByName_ok in Hrun as [(Hex & _)|(_ & Htx & ->)]; [done|].
    simpl. split_and!; try done.
    + unfold taken. simpl. rewrite Exists_exists.
      by intros (r & [Hr _]%list_elem_of_filter & Hslot).
    + by rewrite lookup_delete_eq.
    + apply Forall_forall. by intros r [Hr _]%list_elem_of_filter.
  - intros err w' Hfail.
    by apply RemoveNodeByName_fail in Hfail as [? _].
Qed.

Lemma remove_last_entry_witness :
  ∃ w',
    RemoveNodeByName 1 "a" 2 oneFile = (None, w') ∧
    store w' = mkStore [] ∅ [].
Proof.
  destruct (remove_last_entry 1 "a" 2 oneFile eq_refl) as (Hquiet & Hdone & _).
  specialize (Hquiet eq_refl).
  destruct (RemoveNodeByName 1 "a" 2 oneFile) as [r w'] eqn:Hrun.
  simpl in Hquiet. subst r. exists w'. split; [done|].
  destruct (Hdone w' eq_refl) as (_ & Ht & Hi & Hb & _).
  destruct (store w') as [t i b]. simpl in *. subst. reflexivity.
Defined.

(** The method [Remove] reaches that call when the name resolves to the
    inode and, for a request with the directory flag, the inode has no
    child. *)
Lemma Remove_last_entry dir req inode j (w : World) :
  quiet w →
  fs dir = true →
  filter (same_slot (Inode dir) (rr_Name req)) (tree (store w)) =
    [mkTree inode (Inode dir) (rr_Name req)] →
  inodes (store w) !! inode = Some j →
  (rr_Dir req = true → ¬ has_children inode (store w)) →
  Remove dir req w =
    (None, (RemoveNodeByName (Inode dir) (rr_Name req) inode w).2).
Proof.
  destruct w as [s q tx0 fl]. unfold quiet. simpl.
  intros -> Hfs Hslot Hrow Hempty.
  assert (RemoveNodeByName (Inode dir) (rr_Name req) inode (mkWorld s q tx0 [])
          = (None, (RemoveNodeByName (Inode dir) (rr_Name req) inode
                      (mkWorld s q tx0 [])).2)) as Hrun.
  { rewrite RemoveNodeByName_quiet. simpl. by case_decide. }
  unfold Remove. rewrite Hfs. simpl negb. cbv iota.
  rewrite GetNodeByName_quiet, Hslot. cbn [t_inode]. rewrite Hrow.
  change (Inode (Unmarshal j (set_Inode inode zeroNode))) with inode.
  destruct (rr_Dir req).
  - unfold CountNodesInDir, db_Query, sql_count_children. cbn [next_fault faults store].
    specialize (Hempty eq_refl). unfold has_children in Hempty. simpl in Hempty.
    apply not_Exists_Forall in Hempty; [|apply _].
    rewrite filter_none by exact Hempty. cbn [length].
    rewrite decide_False by (simpl; lia). by rewrite Hrun.
  - by rewrite Hrun.
Qed.

(** ** C2: removing one of several names *)

(** C2, at a file with two names, [/a] and [/b].  [Remove] of [/a] returns
    success, yet [RemoveNodeByName] has returned before [tx.Commit]: the
    transaction stays open with the deletion of the entry in its working
    copy, and the committed relations still hold both names.  In neither
    is the link count of the node, 2, lowered. *)
Theorem remove_one_of_two_links :
  Remove rootNode (mkRemove "a" false) twoLinks =
    (None,
     mkWorld (store twoLinks) 3
       (Some (mkStore [mkTree 2 1 "b"] {[ 2 := fileData 2 2 ]}
                [mkBlock 2 1 [x68; x69]]))
       []).
Proof. vm_compute. reflexivity. Qed.

(** The same for every state and every run: while another entry names the
    inode, no call commits anything, and a call that returns [nil] holds
    its transaction open, with the node row untouched in the working
    copy. *)
Lemma remove_linked_commits_nothing parent name inode (w : World) r w' :
  Exists (λ e, t_inode e = inode ∧ ¬ same_slot parent name e) (tree (store w)) →
  RemoveNodeByName parent name inode w = (r, w') →
  store w' = store w ∧
  (r = None →
   ∃ s', open_tx w' = Some s' ∧ inodes s' = inodes (store w) ∧
         data_blocks s' = data_blocks (store w)).
Proof.
  intros Hother Hrun. destruct r as [err|].
  { apply RemoveNodeByName_fail in Hrun as [? _]. done. }
  apply RemoveNodeByName_ok in Hrun as [(_ & Hst & Htx)|(Hnone & _)].
  - split; [done|]. intros _. eexists. split; [exact Htx|done].
  - exfalso. apply Hnone.
    apply Exists_exists in Hother as (e & He & Hi & Hslot).
    apply Exists_exists. exists e. by rewrite list_elem_of_filter.
Qed.

(** ** C5: removing a directory that has children *)

(** C5, as the code has it.  [Remove] counts the children of its target
    when the request carries the directory flag.  For such a request, on a
    name whose target has a child entry, [Remove] returns [ENOTEMPTY] when
    the store does not fail, and in every run it returns [ENOTEMPTY] or
    [EIO] and leaves the relations as they were. *)
Theorem rmdir_not_empty (dir : fileNode) (req : RemoveRequest) (w : World)
    (target : tree_row) (rest : list tree_row) (j : struct_data) :
  fs dir = true →
  rr_Dir req = true →
  filter (same_slot (Inode dir) (rr_Name req)) (tree (store w)) = target :: rest →
  inodes (store w) !! t_inode target = Some j →
  has_children (t_inode target) (store w) →
  (quiet w → Remove dir req w = (Some ENOTEMPTY, w)) ∧
  (∀ r w',
     Remove dir req w = (r, w') →
     (r = Some ENOTEMPTY ∨ r = Some EIO) ∧
     store w' = store w ∧ open_tx w' = open_tx w).
Proof.
  intros Hfs Hdir Hslot Hrow Hchild. split.
  - destruct w as [s q tx0 fl]. unfold quiet. simpl in *. intros ->.
    unfold Remove. rewrite Hfs, Hdir. simpl.
    rewrite GetNodeByName_quiet, Hslot, Hrow. simpl.
    unfold CountNodesInDir, sql_count_children. simpl.
    rewrite decide_True; [done|]. by apply count_positive.
  - intros r w'. unfold Remove. rewrite Hfs, Hdir. simpl.
    destruct (GetNodeByName _ _ w) as [[err|toRemove] w1] eqn:Hget.
    { apply GetNodeByName_store in Hget as (? & ? & ?).
      intros [= <- <-]. auto. }
    apply GetNodeByName_ok in Hget as (e & rest' & j' & Hslot' & _ & -> & S1 & T1 & _).
    rewrite Hslot in Hslot'. injection Hslot' as <- <-.
    unfold CountNodesInDir.
    destruct (db_Query _ w1) as [[err|count] w2] eqn:Hcount.
    { apply db_Query_store in Hcount as (? & ? & ?).
      intros [= <- <-]. split_and!; [auto|congruence..]. }
    apply db_Query_ok in Hcount as (Hsel & S2 & T2 & _).
    unfold sql_count_children in Hsel. simpl in Hsel. injection Hsel as <-.
    rewrite decide_True.
    + intros [= <- <-]. split_and!; [auto|congruence..].
    + rewrite S1. by apply count_positive.
Qed.

Lemma rmdir_not_empty_witness :
  Remove rootNode (mkRemove "d" true) dirWithChild =
    (Some ENOTEMPTY, dirWithChild).
Proof.
  destruct (rmdir_not_empty rootNode (mkRemove "d" true) dirWithChild
              (mkTree 2 1 "d") [] dirData) as [Hquiet _];
    [reflexivity..| |apply Hquiet; reflexivity].
  apply (proj1 (bool_decide_eq_true _)). vm_compute. reflexivity.
Defined.

(** C5, where the claim and the code part: without the directory flag the
    children are not counted.  In [dirWithChild], [Remove] of [/d] as a
    plain [unlink] succeeds and deletes the entry and the node row of the
    directory; its child [/d/f] stays behind. *)
Lemma unlink_directory_with_child :
  IsDirectory nodeD = true ∧
  inodes (store dirWithChild) !! 2 = Some (toJSON nodeD) ∧
  has_children 2 (store dirWithChild) ∧
  Remove rootNode (mkRemove "d" false) dirWithChild =
    (None,
     mkWorld (mkStore [mkTree 3 2 "f"] {[ 3 := fileData 1 0 ]} []) 4 None []).
Proof.
  split; [reflexivity|]. split; [vm_compute; reflexivity|].
  split; [|vm_compute; reflexivity].
  apply (proj1 (bool_decide_eq_true _)). vm_compute. reflexivity.
Qed.

(** ** C3: linking *)




(** ** C4: inserting under a name that is taken *)

(** Whatever the store does, an insert under a taken name returns an
    error with nothing committed, and with its transaction rolled back
    unless [db.BeginTx] itself failed, so that none was begun. *)
Lemma UpsertNode_taken_run now1 now2 parent n w n' r w' :
  taken parent (Name n) (store w) →
  UpsertNode now1 now2 parent n w = (n', r, w') →
  r ≠ None ∧ store w' = store w ∧
  (open_tx w' = None ∨ r = Some ErrDriver ∧ open_tx w' = open_tx w).
Proof.
  intros Htaken. unfold UpsertNode.
  destruct (BeginTx w) as [[e0|[]] w0] eqn:E0.
  { apply BeginTx_store in E0 as E0'. destruct E0' as [S0 _].
    assert (e0 = ErrDriver) as ->.
    { revert E0. unfold BeginTx, next_fault.
      destruct (faults w) as [|[] fl]; simpl; congruence. }
    apply BeginTx_fail in E0. intros [= <- <- <-]. auto. }
  apply BeginTx_ok in E0 as T0. apply BeginTx_store in E0 as [S0 _].
  destruct (tx_InsertReturning _ _ w0) as [[e1|lastId] w1] eqn:E1.
  - apply tx_InsertReturning_store in E1. intros [= <- <- <-]. simpl.
    split_and!; [done|congruence|by left].
  - apply tx_InsertReturning_ok in E1 as (s0 & s1 & Hs0 & _ & Hins & _).
    rewrite T0 in Hs0. injection Hs0 as <-.
    unfold sql_insert_tree in Hins. simpl in Hins.
    by rewrite decide_True in Hins.
Qed.

(** C4, as the code has it.  An insert under a name that is taken in the
    directory violates [UNIQUE (name, parent)].  In no run does
    [UpsertNode] return [nil] or change the committed relations, the
    entry that holds the name included, and its transaction is rolled
    back (in a run in which [db.BeginTx] fails none is begun); when the
    store does not fail its error is the violation, wrapped, the
    transaction is rolled back and the value drawn from the sequence is
    lost.  [Create] reports [EIO] in every run, with nothing committed. *)
Theorem insert_taken_name (now1 now2 : Z) (dir : fileNode) (name : string)
    (mode : Z) (n : fileNode) (w : World) :
  taken (Inode dir) name (store w) →
  Name n = name →
  (∀ n' r w',
     UpsertNode now1 now2 (Inode dir) n w = (n', r, w') →
     r ≠ None ∧ store w' = store w ∧
     (open_tx w' = None ∨ r = Some ErrDriver ∧ open_tx w' = open_tx w)) ∧
  (quiet w →
   UpsertNode now1 now2 (Inode dir) n w =
     (set_Ctime now2 (set_Mtime now1 n),
      Some (Wrapf ErrUnique "failed to upsert row into tree in parent %d"),
      mkWorld (store w) (inode_seq w + 1) None [])) ∧
  (∀ r w',
     Create now1 now2 dir name mode w = (r, w') →
     r = inl EIO ∧ store w' = store w ∧
     (open_tx w' = None ∨ open_tx w' = open_tx w)) ∧
  (quiet w → fs dir = true →
   Create now1 now2 dir name mode w =
     (inl EIO, mkWorld (store w) (inode_seq w + 1) None [])).
Proof.
  intros Htaken <-. split_and!.
  - intros n' r w'. by apply UpsertNode_taken_run.
  - destruct w as [s q tx0 fl]. unfold quiet. simpl. intros ->.
    by rewrite UpsertNode_taken.
  - intros r w'. unfold Create. destruct (fs dir); simpl.
    2: { intros [= <- <-]. auto. }
    match goal with |- context [UpsertNode _ _ _ ?m w] =>
      destruct (UpsertNode now1 now2 (Inode dir) m w) as [[n' e] w1] eqn:Hrun;
      apply UpsertNode_taken_run in Hrun as (He & Hst & Htx); [|done]
    end.
    destruct e as [err|]; [|done]. intros [= <- <-].
    split_and!; [done|done|]. destruct Htx as [?|[_ ?]]; auto.
  - destruct w as [s q tx0 fl]. unfold quiet. simpl. intros -> Hfs.
    unfold Create. rewrite Hfs. simpl.
    by rewrite UpsertNode_taken.
Qed.

Lemma insert_taken_name_witness :
  UpsertNode 10 11 (Inode rootNode) (set_Name "a" zeroNode) oneFile =
    (set_Ctime 11 (set_Mtime 10 (set_Name "a" zeroNode)),
     Some (Wrapf ErrUnique "failed to upsert row into tree in parent %d"),
     mkWorld (store oneFile) 4 None []) ∧
  Create 10 11 rootNode "a" 420 oneFile =
    (inl EIO, mkWorld (store oneFile) 4 None []).
Proof.
  destruct (insert_taken_name 10 11 rootNode "a" 420 (set_Name "a" zeroNode)
              oneFile) as (_ & Hinsert & _ & Hcreate).
  - apply (proj1 (bool_decide_eq_true _)). vm_compute. reflexivity.
  - reflexivity.
  - split; [apply Hinsert; reflexivity|apply Hcreate; reflexivity].
Defined.

(** C4, where the claim and the code part: the failure surfaces as [EIO],
    not as [EEXIST]. *)
Lemma create_taken_name_reports_EIO :
  taken (Inode rootNode) "a" (store oneFile) ∧
  (Create 10 11 rootNode "a" 420 oneFile).1 = inl EIO ∧
  (Create 10 11 rootNode "a" 420 oneFile).1 ≠ inl EEXIST.
Proof.
  split; [apply (proj1 (bool_decide_eq_true _)); vm_compute; reflexivity|].
  split; [vm_compute; reflexivity|vm_compute; discriminate].
Qed.

(** ** C10: renaming *)

(** C10, as the code has it.  [RenameNode] is one [UPDATE] of [tree].
    With no entry under the old name it returns [nil] and changes nothing.
    With an entry, and the new name not held by another entry, it returns
    [nil] and the entry carries the new parent and name, its inode as
    before.  When another entry holds the new name, [UNIQUE (name, parent)]
    rejects the update: the call fails and nothing changes.  In every run
    the node rows and the data blocks are as before, and so is every tree
    row but the renamed one. *)
Theorem rename_in_place (oldParent : Z) (oldName : string) (newParent : Z)
    (newName : string) (w : World) :
  let moved :=
    rename_row newName newParent oldName oldParent <$> tree (store w) in
  (quiet w → ¬ taken oldParent oldName (store w) →
   RenameNode oldParent oldName newParent newName w = (None, w)) ∧
  (quiet w → taken oldParent oldName (store w) →
   (length (filter (same_slot newParent newName) moved) ≤ 1)%nat →
   RenameNode oldParent oldName newParent newName w =
     (None,
      mkWorld (mkStore moved (inodes (store w)) (data_blocks (store w)))
        (inode_seq w) (open_tx w) [])) ∧
  (quiet w → taken oldParent oldName (store w) →
   (1 < length (filter (same_slot newParent newName) moved))%nat →
   RenameNode oldParent oldName newParent newName w =
     (Some (Wrapf ErrUnique "failed to rename node"), w)) ∧
  (∀ i r, tree (store w) !! i = Some r →
     ∃ r', moved !! i = Some r' ∧ t_inode r' = t_inode r ∧
           (¬ same_slot oldParent oldName r → r' = r) ∧
           (same_slot oldParent oldName r → same_slot newParent newName r')) ∧
  (∀ r w',
     RenameNode oldParent oldName newParent newName w = (r, w') →
     inodes (store w') = inodes (store w) ∧
     data_blocks (store w') = data_blocks (store w) ∧
     (tree (store w') = tree (store w) ∨ tree (store w') = moved) ∧
     (¬ taken oldParent oldName (store w) → store w' = store w)).
Proof.
  intros moved. split_and!.
  - destruct w as [s q tx0 fl]. unfold quiet, taken. simpl. intros -> Hnone.
    unfold RenameNode, db_Exec, sql_update_tree. simpl.
    by rewrite decide_False.
  - destruct w as [s q tx0 fl]. unfold quiet, taken. simpl in *.
    intros -> Hsome Hfree.
    unfold RenameNode, db_Exec, sql_update_tree. simpl.
    rewrite decide_True by done. rewrite decide_False by (fold moved; lia). done.
  - destruct w as [s q tx0 fl]. unfold quiet, taken. simpl in *.
    intros -> Hsome Hheld.
    unfold RenameNode, db_Exec, sql_update_tree. simpl.
    rewrite decide_True by done. rewrite decide_True by (fold moved; lia). done.
  - intros i r Hi. eexists. unfold moved. rewrite list_lookup_fmap, Hi. simpl.
    split; [done|]. apply rename_row_columns.
  - intros r w' Hrun.
    apply RenameNode_frame in Hrun as (Hi & Hb & _ & Ht).
    split_and!; [done..|].
    intros Hnone. unfold taken in Hnone.
    assert (tree (store w') = tree (store w)) as Htree.
    { destruct Ht as [->| ->]; [done|]. by apply rename_none. }
    destruct (store w'), (store w). simpl in *. congruence.
Qed.

Lemma rename_in_place_witness :
  RenameNode 1 "a" 1 "c" twoFiles =
    (None,
     mkWorld
       (mkStore [mkTree 2 1 "c"; mkTree 3 1 "b"] (inodes (store twoFiles))
          (data_blocks (store twoFiles)))
       (inode_seq twoFiles) (open_tx twoFiles) []) ∧
  RenameNode 1 "x" 1 "c" twoFiles = (None, twoFiles).
Proof.
  destruct (rename_in_place 1 "a" 1 "c" twoFiles) as (_ & Hmove & _).
  destruct (rename_in_place 1 "x" 1 "c" twoFiles) as (Hnone & _).
  split.
  - apply Hmove; [reflexivity| |vm_compute; lia].
    apply (proj1 (bool_decide_eq_true _)). vm_compute. reflexivity.
  - apply Hnone; [reflexivity|].
    apply (proj1 (bool_decide_eq_false _)). vm_compute. reflexivity.
Defined.

(** C10, where the claim and the code part: renaming onto a name that
    another entry holds does not succeed.  In [twoFiles], [Rename] of [/a]
    to [/b] reports [EIO] and changes nothing. *)
Lemma rename_onto_taken_name :
  Rename rootNode "a" "b" rootNode twoFiles = (Some EIO, twoFiles) ∧
  RenameNode 1 "a" 1 "b" twoFiles =
    (Some (Wrapf ErrUnique "failed to rename node"), twoFiles).
Proof. split; vm_compute; reflexivity. Qed.

(** ** C9: the recorded size and the bytes in the blocks *)

(** C9, as the code has it.  In every run, failed or not, an operation
    keeps the invariant that the recorded size of a regular file is the
    number of bytes its blocks hold, provided the operation stores a true
    size.  [WriteData], rename, link and remove always do; [Setattr]
    writes the node row alone, never the blocks, and keeps the invariant
    when the size it stores is the number of bytes in the blocks. *)
Theorem size_invariant (op : operation) (w : World) :
  sizes_match (store w) →
  stores_true_size op w →
  sizes_match (store (run op w)).
Proof.
  intros Hinv Htrue inode. specialize (Hinv inode).
  destruct op as [n data|n req resp|oP oN nP nN|parent n|parent name target
                 |now1 now2 parent n]; simpl in *.
  - by apply WriteData_size.
  - destruct (Setattr n req resp w) as [[[n' resp'] r] w'] eqn:Hrun.
    simpl in *.
    apply Setattr_size in Hrun as (_ & _ & _ & Hother & Hown).
    destruct (decide (inode = Inode n)) as [->|Hne]; auto.
  - by apply RenameNode_size.
  - by apply CreateLink_size.
  - by apply RemoveNodeByName_size.
  - by apply UpsertNode_size.
Qed.

Lemma oneFile_sizes_match : sizes_match (store oneFile).
Proof.
  intros inode j Hj _. simpl in Hj.
  apply lookup_singleton_Some in Hj as [<- <-]. vm_compute. reflexivity.
Qed.

Lemma size_invariant_witness :
  sizes_match (store (run (OpSetattr nodeA (resize 2) zeroAttr) oneFile)) ∧
  sizes_match (store (run (OpWrite nodeA [x68; x69; x21]) oneFile)).
Proof.
  assert (sizes_match (store oneFile)) as Hinv.
  { intros inode j Hj _. simpl in Hj.
    apply lookup_singleton_Some in Hj as [<- <-]. vm_compute. reflexivity. }
  split.
  - apply (size_invariant (OpSetattr nodeA (resize 2) zeroAttr) oneFile Hinv).
    intros _. vm_compute. reflexivity.
  - apply (size_invariant (OpWrite nodeA [x68; x69; x21]) oneFile Hinv).
    exact I.
Defined.

(** A write establishes the invariant at its inode, whatever was there. *)
Lemma write_establishes_size n data (w : World) n' w' :
  WriteData n data w = (n', Returns None, w') →
  size_matches (Inode n) (store w').
Proof.
  intros Hrun. destruct (WriteData_size n data w) as [Hown _].
  rewrite Hrun in Hown. by apply Hown.
Qed.

(** [Setattr] does not touch the blocks, in any run. *)
Lemma setattr_keeps_blocks n req resp (w : World) n' resp' r w' :
  Setattr n req resp w = (n', resp', r, w') →
  data_blocks (store w') = data_blocks (store w) ∧
  tree (store w') = tree (store w).
Proof. intros Hrun. by apply Setattr_size in Hrun as (? & ? & _). Qed.

(** C9, where the claim and the code part: a [Setattr] that sets the size
    of the two-byte file [/a] to 5 succeeds and leaves its one block of
    two bytes in place; the invariant, which held, is lost, three bytes of
    the recorded size being in no block. *)
Lemma setattr_size_breaks_invariant :
  sizes_match (store oneFile) ∧
  (Setattr nodeA (resize 5) zeroAttr oneFile).1.2 = Returns None ∧
  j_Size <$> inodes (store (Setattr nodeA (resize 5) zeroAttr oneFile).2) !! 2
    = Some 5 ∧
  content 2 (store (Setattr nodeA (resize 5) zeroAttr oneFile).2) = [x68; x69] ∧
  ¬ sizes_match (store (Setattr nodeA (resize 5) zeroAttr oneFile).2).
Proof.
  split; [apply oneFile_sizes_match|]. split; [reflexivity|].
  split; [vm_compute; reflexivity|]. split; [vm_compute; reflexivity|].
  intros Hinv. specialize (Hinv 2 (toJSON (set_Size 5 nodeA))).
  vm_compute in Hinv. specialize (Hinv eq_refl eq_refl). discriminate.
Qed.

(** ** A session

    [mkdir /a]; create [/a/b]; write [hello]; read it back; rename [/a/b]
    to [/a/c]; the old name is gone, the new one resolves to the same
    inode, whose bytes are as written. *)
Example session :
  let hello := [x68; x65; x6c; x6c; x6f] in
  let made := Mkdir 1 2 rootNode "a" (Z.lor ModeDir 493) emptyWorld in
  let a := set_fs true (Unmarshal dirData (set_Inode 2 zeroNode)) in
  let created := Create 3 4 a "b" 420 made.2 in
  let b := set_fs true (Unmarshal (fileData 1 0) (set_Inode 3 zeroNode)) in
  let wrote := Write b (mkWrite 0 hello) created.2 in
  let renamed := Rename a "b" "c" a wrote.2 in
  (inode_of made.1 = Some 2 ∧ inode_of created.1 = Some 3) ∧
  wrote.1.2 = Returns (inr 5) ∧
  (ReadData 3 wrote.2).1 = inr hello ∧
  renamed.1 = None ∧
  (Lookup a "b" renamed.2).1 = inl ENOENT ∧
  inode_of (Lookup a "c" renamed.2).1 = Some 3 ∧
  (ReadData 3 renamed.2).1 = inr hello.
Proof. vm_compute. split_and!; reflexivity. Qed.

(** * More of the code *)

(** ** The type of a directory entry *)

Lemma land_bit (m k : Z) :
  0 ≤ k → (Z.land m (Z.shiftl 1 k) =? 0) = negb (Z.testbit m k).
Proof.
  intros Hk. rewrite Z.shiftl_1_l.
  destruct (Z.testbit m k) eqn:Hb; simpl.
  - apply Z.eqb_neq. intros Hzero.
    assert (Z.testbit (Z.land m (2 ^ k)) k = false) as Hbit
      by (rewrite Hzero; apply Z.bits_0).
    rewrite Z.land_spec, Hb, Z.pow2_bits_true in Hbit by done. done.
  - apply Z.eqb_eq, Z.bits_inj'. intros i Hi.
    rewrite Z.land_spec, Z.bits_0.
    destruct (decide (i = k)) as [->|Hne]; [by rewrite Hb|].
    rewrite Z.pow2_bits_false by lia. apply andb_false_r.
Qed.

Lemma land_lor_zero (m a b : Z) :
  (Z.land m (Z.lor a b) =? 0) = (Z.land m a =? 0) && (Z.land m b =? 0).
Proof.
  rewrite Z.land_lor_distr_r.
  destruct (Z.land m a =? 0) eqn:Ha, (Z.land m b =? 0) eqn:Hb; simpl;
    rewrite ?Z.eqb_eq, ?Z.eqb_neq in *; rewrite ?Z.lor_eq_0_iff; tauto.
Qed.

(** The type bits of a mode, most significant first. *)
Lemma ModeType_bits (m : Z) :
  (Z.land m ModeType =? 0) =
    negb (Z.testbit m 31) && (negb (Z.testbit m 27) && (negb (Z.testbit m 25)
      && (negb (Z.testbit m 24) && (negb (Z.testbit m 26)
      && (negb (Z.testbit m 21) && negb (Z.testbit m 19)))))).
Proof.
  unfold ModeType. rewrite !land_lor_zero.
  unfold ModeDir, ModeSymlink, ModeNamedPipe, ModeSocket, ModeDevice,
    ModeCharDevice, ModeIrregular.
  by rewrite !land_bit by lia.
Qed.

Lemma GetDirentTypeFromMode_bits (mode : Z) :
  GetDirentTypeFromMode mode =
    if Z.testbit mode 31 then DT_Dir
    else if Z.testbit mode 27 then DT_Link
    else if Z.testbit mode 26 then DT_Block
    else if Z.testbit mode 21 then DT_Char
    else if Z.testbit mode 25 then DT_FIFO
    else if Z.testbit mode 24 then DT_Socket
    else if Z.testbit mode 19 then DT_Unknown
    else DT_File.
Proof.
  unfold GetDirentTypeFromMode. rewrite ModeType_bits.
  unfold ModeDir, ModeSymlink, ModeNamedPipe, ModeSocket, ModeDevice,
    ModeCharDevice.
  rewrite !land_bit by lia.
  by destruct (Z.testbit mode 31), (Z.testbit mode 27), (Z.testbit mode 26),
    (Z.testbit mode 21), (Z.testbit mode 25), (Z.testbit mode 24),
    (Z.testbit mode 19).
Qed.

(** X1.  The type listed for an entry agrees with the tests the node
    methods use: a node that [IsDirectory] is listed as a directory; one
    that is not, and [IsSymlink], as a link; and an entry is listed as a
    regular file exactly when the node [IsRegular]. *)
Theorem dirent_type_agrees (n : fileNode) :
  (IsDirectory n = true → GetDirentTypeFromMode (Mode n) = DT_Dir) ∧
  (IsDirectory n = false → IsSymlink n = true →
   GetDirentTypeFromMode (Mode n) = DT_Link) ∧
  (GetDirentTypeFromMode (Mode n) = DT_File ↔ IsRegular n = true) ∧
  (GetDirentTypeFromMode (Mode n) = DT_Dir ↔ IsDirectory n = true).
Proof.
  rewrite GetDirentTypeFromMode_bits.
  unfold IsDirectory, IsSymlink, IsRegular. rewrite ModeType_bits.
  unfold ModeDir, ModeSymlink. rewrite !land_bit by lia.
  destruct (Z.testbit (Mode n) 31), (Z.testbit (Mode n) 27),
    (Z.testbit (Mode n) 26), (Z.testbit (Mode n) 21), (Z.testbit (Mode n) 25),
    (Z.testbit (Mode n) 24), (Z.testbit (Mode n) 19); simpl;
    split_and!; try done; split; done.
Qed.

(** X2.  The device test comes before the character-device test.  Go
    marks a character device with both [ModeDevice] and [ModeCharDevice],
    and such a mode is listed as a block device; [DT_Char] is the answer
    only for a mode with [ModeCharDevice] and without [ModeDevice].  The
    answer [DT_Unknown] is given exactly when [ModeIrregular] is the only
    type bit of the mode. *)
Theorem dirent_type_devices (mode : Z) :
  (Z.land mode ModeDir = 0 → Z.land mode ModeSymlink = 0 →
   Z.land mode ModeDevice ≠ 0 →
   GetDirentTypeFromMode mode = DT_Block) ∧
  (GetDirentTypeFromMode mode = DT_Char → Z.land mode ModeDevice = 0) ∧
  (GetDirentTypeFromMode mode = DT_Unknown ↔
   Z.land mode ModeType = ModeIrregular).
Proof.
  assert (∀ k, 0 ≤ k →
            (Z.land mode (Z.shiftl 1 k) = 0 ↔ Z.testbit mode k = false)) as Hbit.
  { intros k Hk. rewrite <-Z.eqb_eq, land_bit by done.
    by destruct (Z.testbit mode k). }
  assert (Z.land mode ModeType = ModeIrregular ↔
          Z.testbit mode 31 = false ∧ Z.testbit mode 27 = false ∧
          Z.testbit mode 26 = false ∧ Z.testbit mode 21 = false ∧
          Z.testbit mode 25 = false ∧ Z.testbit mode 24 = false ∧
          Z.testbit mode 19 = true) as Hirr.
  { split.
    - intros Heq.
      assert (∀ k, Z.testbit (Z.land mode ModeType) k =
                   Z.testbit ModeIrregular k) as Hk by (by rewrite Heq).
      pose proof (Hk 31) as H31. pose proof (Hk 27) as H27.
      pose proof (Hk 26) as H26. pose proof (Hk 21) as H21.
      pose proof (Hk 25) as H25. pose proof (Hk 24) as H24.
      pose proof (Hk 19) as H19.
      rewrite Z.land_spec in H31, H27, H26, H21, H25, H24, H19.
      change (Z.testbit ModeType 31) with true in H31.
      change (Z.testbit ModeType 27) with true in H27.
      change (Z.testbit ModeType 26) with true in H26.
      change (Z.testbit ModeType 21) with true in H21.
      change (Z.testbit ModeType 25) with true in H25.
      change (Z.testbit ModeType 24) with true in H24.
      change (Z.testbit ModeType 19) with true in H19.
      rewrite andb_true_r in H31, H27, H26, H21, H25, H24, H19.
      by split_and!.
    - intros (H31 & H27 & H26 & H21 & H25 & H24 & H19).
      apply Z.bits_inj'. intros k Hk. rewrite Z.land_spec.
      destruct (decide (k = 31)) as [->|]; [by rewrite H31|].
      destruct (decide (k = 27)) as [->|]; [by rewrite H27|].
      destruct (decide (k = 26)) as [->|]; [by rewrite H26|].
      destruct (decide (k = 21)) as [->|]; [by rewrite H21|].
      destruct (decide (k = 25)) as [->|]; [by rewrite H25|].
      destruct (decide (k = 24)) as [->|]; [by rewrite H24|].
      destruct (decide (k = 19)) as [->|]; [by rewrite H19|].
      assert (Z.testbit ModeType k = false) as ->.
      { unfold ModeType, ModeDir, ModeSymlink, ModeNamedPipe, ModeSocket,
          ModeDevice, ModeCharDevice, ModeIrregular.
        rewrite !Z.lor_spec, !Z.shiftl_1_l.
        rewrite !Z.pow2_bits_false by lia. done. }
      assert (Z.testbit ModeIrregular k = false) as ->.
      { unfold ModeIrregular. rewrite Z.shiftl_1_l.
        by rewrite Z.pow2_bits_false by lia. }
      apply andb_false_r. }
  rewrite GetDirentTypeFromMode_bits, Hirr.
  unfold ModeDir, ModeSymlink, ModeDevice. rewrite !Hbit by lia.
  destruct (Z.testbit mode 31), (Z.testbit mode 27), (Z.testbit mode 26),
    (Z.testbit mode 21), (Z.testbit mode 25), (Z.testbit mode 24),
    (Z.testbit mode 19); split_and!; try done; try (split; intros; by split_and?).
  all: try (split; [done|intros (?&?&?&?&?&?&?); done]).
Qed.

(** ** Listing a directory *)

Lemma collect_all {A B} (f : A → B) (l : list A) (acc : list B) :
  foldl (λ out x, out ++ [f x]) acc l = acc ++ (f <$> l).
Proof.
  revert acc. induction l as [|x l IH]; intros acc; simpl.
  - by rewrite app_nil_r.
  - by rewrite IH, <-app_assoc.
Qed.

Lemma ListNodesInDir_store inode w r w' :
  ListNodesInDir inode w = (r, w') →
  store w' = store w ∧ inode_seq w' = inode_seq w ∧ open_tx w' = open_tx w.
Proof.
  unfold ListNodesInDir, GetNodeByID. case_decide.
  - destruct (db_Query _ w) as [[err|j] w1] eqn:E1;
      apply db_Query_store in E1 as (S1 & Q1 & T1).
    { intros [= <- <-]. done. }
    destruct (negb _).
    { intros [= <- <-]. done. }
    destruct (db_Query _ w1) as [[err|rows] w2] eqn:E2;
      apply db_Query_store in E2 as (S2 & Q2 & T2).
    { intros [= <- <-]; split_and!; congruence. }
    destruct (rows_Next rows w2) as [got w3] eqn:E3.
    apply rows_Next_prefix in E3 as (_ & S3 & Q3 & T3).
    intros [= <- <-]; split_and!; congruence.
  - destruct (db_Query _ w) as [[err|rows] w2] eqn:E2;
      apply db_Query_store in E2 as (S2 & Q2 & T2).
    { intros [= <- <-]; split_and!; congruence. }
    destruct (rows_Next rows w2) as [got w3] eqn:E3.
    apply rows_Next_prefix in E3 as (_ & S3 & Q3 & T3).
    intros [= <- <-]; split_and!; congruence.
Qed.

(** The entries made of the rows of the join. *)
Lemma listed_rows (l : list (Z * string * struct_data)) :
  foldl (λ entries node,
           entries ++ [mkDirent (Inode node)
                         (GetDirentTypeFromMode (Mode node))
                         (Name node)]) []
    (foldl (λ nodes '(inode, name, struct_data),
              nodes ++ [Unmarshal struct_data
                          (set_Inode inode (set_Name name zeroNode))])
       [] l) =
  (λ '(child, name, j),
     mkDirent child (GetDirentTypeFromMode (j_Mode j)) name) <$> l.
Proof.
  rewrite (collect_all (λ node, mkDirent (Inode node)
                                  (GetDirentTypeFromMode (Mode node))
                                  (Name node))).
  simpl.
  assert (∀ acc,
    (λ node, mkDirent (Inode node) (GetDirentTypeFromMode (Mode node))
               (Name node)) <$>
      foldl (λ nodes '(inode, name, struct_data),
               nodes ++ [Unmarshal struct_data
                           (set_Inode inode (set_Name name zeroNode))])
        acc l =
    ((λ node, mkDirent (Inode node) (GetDirentTypeFromMode (Mode node))
                (Name node)) <$> acc) ++
    ((λ '(child, name, j),
        mkDirent child (GetDirentTypeFromMode (j_Mode j)) name) <$> l))
    as Hfold.
  { induction l as [|[[i nm] j] l IH]; intros acc; simpl.
    - by rewrite app_nil_r.
    - rewrite IH, fmap_app, <-app_assoc. done. }
  apply (Hfold []).
Qed.

(** What a successful listing returns, in any run: the first entries of
    the listing, as many as its loop has scanned. *)
Lemma ReadDirAll_ok n w entries w' :
  ReadDirAll n w = (inr entries, w') →
  (∃ k, entries = take k (listing (Inode n) (store w))) ∧
  (Inode n = rootInode ∨ is_dir_row (Inode n) (store w)).
Proof.
  unfold ReadDirAll, ListNodesInDir. destruct (negb (fs n)); [done|].
  assert (∀ w1 r w2,
            store w1 = store w →
            match db_Query (sql_select_children (Inode n)) w1 with
            | (inl err, w) =>
                (inl (StoreError
                        (Wrapf err
                           "could not query entries in directory inode %d")),
                 w)
            | (inr rows, w) =>
                let '(scanned, w) := rows_Next rows w in
                (inr (foldl (λ nodes '(inode, name, struct_data),
                               nodes ++ [Unmarshal struct_data
                                           (set_Inode inode
                                              (set_Name name zeroNode))])
                        [] scanned), w)
            end = (inr r, w2) →
            ∃ k,
              foldl (λ entries node,
                       entries ++ [mkDirent (Inode node)
                                     (GetDirentTypeFromMode (Mode node))
                                     (Name node)]) [] r
              = take k (listing (Inode n) (store w))) as Hrows.
  { intros w1 r w2 Hst.
    destruct (db_Query _ w1) as [[err|rows] w3] eqn:Hq; [done|].
    apply db_Query_ok in Hq as (Hsel & _).
    unfold sql_select_children in Hsel. injection Hsel as <-.
    destruct (rows_Next _ w3) as [got w4] eqn:Hloop.
    apply rows_Next_prefix in Hloop as ([k ->] & _).
    intros [= <- <-]. exists k.
    rewrite listed_rows. unfold listing. by rewrite fmap_take, Hst. }
  case_decide as Hroot.
  - destruct (GetNodeByID (Inode n) w) as [[err|dir] w1] eqn:E1; [done|].
    apply GetNodeByID_ok in E1 as (j & Hj & -> & S1 & _).
    destruct (negb (IsDirectory _)) eqn:Hdir; [done|].
    match goal with
    | |- context [match ?run with _ => _ end] =>
        destruct run as [[err|nodes] w2] eqn:E2; [done|]
    end.
    intros [= <- <-]. split; [by eapply Hrows|].
    right. exists j. split; [done|].
    unfold IsDirectory in Hdir. simpl in Hdir.
    apply negb_false_iff, negb_true_iff, Z.eqb_neq in Hdir. done.
  - match goal with
    | |- context [match ?run with _ => _ end] =>
        destruct run as [[err|nodes] w2] eqn:E2; [done|]
    end.
    intros [= <- <-]. split; [by eapply Hrows|].
    left. by destruct (decide (Inode n = rootInode)); [|exfalso; auto].
Qed.

Lemma ReadDirAll_quiet n s q tx0 :
  fs n = true →
  Inode n = rootInode ∨ is_dir_row (Inode n) s →
  ReadDirAll n (mkWorld s q tx0 []) =
    (inr (listing (Inode n) s), mkWorld s q tx0 []).
Proof.
  intros Hfs Hdir.
  assert (ListNodesInDir (Inode n) (mkWorld s q tx0 []) =
          (inr (foldl (λ nodes '(inode, name, struct_data),
                         nodes ++ [Unmarshal struct_data
                                     (set_Inode inode (set_Name name zeroNode))])
                  [] (omap (joined s)
                        (filter (λ r, t_parent r = Inode n) (tree s)))),
           mkWorld s q tx0 [])) as Hlist.
  { unfold ListNodesInDir. case_decide as Hroot.
    - destruct Hdir as [?|(j & Hj & Hmode)]; [done|].
      rewrite GetNodeByID_quiet, Hj.
      unfold IsDirectory. simpl.
      apply Z.eqb_neq in Hmode. rewrite Hmode. simpl.
      by rewrite rows_Next_quiet.
    - simpl. by rewrite rows_Next_quiet. }
  unfold ReadDirAll. rewrite Hfs, Hlist. simpl.
  by rewrite listed_rows.
Qed.

(** X3.  [ReadDirAll] lists the tree entries under the directory that
    have a node row, each with its inode, its name and the type of its
    stored mode: an entry without a node row is never listed, one with a
    node row is listed whenever the store does not fail, for the root and
    for an inode whose stored node is a directory.  In any run that
    returns a list, the list is made of the first entries of that
    listing: a failure of the store in the middle of the rows ends the
    loop of [ListNodesInDir] without an error. *)
Theorem readdir_lists_join (n : fileNode) (w : World) :
  (∀ entries w', ReadDirAll n w = (inr entries, w') →
                 ∃ k, entries = take k (listing (Inode n) (store w))) ∧
  (quiet w → fs n = true →
   Inode n = rootInode ∨ is_dir_row (Inode n) (store w) →
   ReadDirAll n w = (inr (listing (Inode n) (store w)), w)) ∧
  (∀ d, d ∈ listing (Inode n) (store w) ↔
        ∃ r j, r ∈ tree (store w) ∧ t_parent r = Inode n ∧
               inodes (store w) !! t_inode r = Some j ∧
               d = mkDirent (t_inode r) (GetDirentTypeFromMode (j_Mode j))
                     (t_name r)).
Proof.
  split_and!.
  - intros entries w' Hrun. by apply ReadDirAll_ok in Hrun as [? _].
  - destruct w as [s q tx0 fl]. unfold quiet. simpl. intros -> Hfs Hdir.
    by apply ReadDirAll_quiet.
  - intros d. unfold listing. rewrite list_elem_of_fmap. split.
    + intros ([[i nm] j] & -> & Hin).
      apply list_elem_of_omap in Hin as (r & [Hp Hr]%list_elem_of_filter & Hjoin).
      unfold joined in Hjoin.
      destruct (inodes (store w) !! t_inode r) as [j'|] eqn:Hj; [|done].
      injection Hjoin as <- <- <-. eauto 10.
    + intros (r & j & Hr & Hp & Hj & ->).
      exists (t_inode r, t_name r, j). split; [done|].
      apply list_elem_of_omap. exists r. split.
      * by apply list_elem_of_filter.
      * unfold joined. by rewrite Hj.
Qed.

(** A listing of two entries in which the store fails at the second row:
    it returns the first entry, and no error. *)
Example listing_cut_short :
  (ReadDirAll rootNode twoFiles).1 =
    inr [mkDirent 2 DT_File "a"; mkDirent 3 DT_File "b"] ∧
  (ReadDirAll rootNode (with_faults [false; false; true] twoFiles)).1 =
    inr [mkDirent 2 DT_File "a"].
Proof. vm_compute. split; reflexivity. Qed.

Lemma readdir_lists_join_witness :
  ReadDirAll rootNode dirWithChild =
    (inr [mkDirent 2 DT_Dir "d"], dirWithChild) ∧
  ReadDirAll nodeD dirWithChild =
    (inr [mkDirent 3 DT_File "f"], dirWithChild).
Proof.
  destruct (readdir_lists_join rootNode dirWithChild) as (_ & Hroot & _).
  destruct (readdir_lists_join nodeD dirWithChild) as (_ & Hdir & _).
  split.
  - apply Hroot; [reflexivity..|]. by left.
  - apply Hdir; [reflexivity..|]. right. exists dirData.
    split; [reflexivity|vm_compute; discriminate].
Defined.

(** X4.  A listing of an inode other than the root whose node row is
    missing, or is not of directory type, fails with [EIO] in every run
    and changes nothing; it is the stored row that decides, not the mode
    of the node in memory.  The root is listed without a node row. *)
Theorem readdir_wrong_node (n : fileNode) (w : World) :
  (Inode n ≠ rootInode →
   ¬ is_dir_row (Inode n) (store w) →
   ∀ r w', ReadDirAll n w = (r, w') → r = inl EIO ∧ store w' = store w) ∧
  (Inode n = rootInode → quiet w → fs n = true →
   ∃ entries, ReadDirAll n w = (inr entries, w)).
Proof.
  split.
  - intros Hroot Hnodir r w' Hrun. destruct r as [errno|entries].
    + split.
      * revert Hrun. unfold ReadDirAll. destruct (negb (fs n)); [congruence|].
        destruct (ListNodesInDir _ w) as [[?|?] ?]; congruence.
      * revert Hrun. unfold ReadDirAll. destruct (negb (fs n)); [congruence|].
        destruct (ListNodesInDir _ w) as [[?|?] w1] eqn:Hl;
          apply ListNodesInDir_store in Hl as (? & _); congruence.
    + apply ReadDirAll_ok in Hrun as [_ [?|?]]; done.
  - intros Hroot. destruct w as [s q tx0 fl]. unfold quiet. simpl.
    intros -> Hfs. eexists. apply ReadDirAll_quiet; auto.
Qed.

Lemma readdir_wrong_node_witness :
  (∀ r w', ReadDirAll nodeA oneFile = (r, w') →
           r = inl EIO ∧ store w' = store oneFile) ∧
  ∃ entries, ReadDirAll rootNode emptyWorld = (inr entries, emptyWorld).
Proof.
  destruct (readdir_wrong_node nodeA oneFile) as [Hbad _].
  destruct (readdir_wrong_node rootNode emptyWorld) as [_ Hroot].
  split.
  - apply Hbad; [vm_compute; discriminate|].
    intros (j & Hj & Hmode). vm_compute in Hj. injection Hj as <-.
    by apply Hmode.
  - apply Hroot; reflexivity.
Defined.

(** X5.  A new entry shows in the listing of its directory.  When the
    store does not fail, the name is free and the inode the sequence gives
    next is in use nowhere, [Create] (and [Mkdir] likewise) under the root
    or under a stored directory is followed by a listing that is the
    former listing with one more entry at its end: the new inode, the type
    of the requested mode, the name. *)
Theorem create_then_list (now1 now2 : Z) (dir : fileNode) (name : string)
    (mode : Z) (w : World) :
  quiet w →
  fs dir = true →
  Inode dir = rootInode ∨ is_dir_row (Inode dir) (store w) →
  ¬ taken (Inode dir) name (store w) →
  unused (inode_seq w) (store w) →
  let entry := mkDirent (inode_seq w) (GetDirentTypeFromMode mode) name in
  (∃ created w',
     Create now1 now2 dir name mode w = (inr created, w') ∧
     Inode created = inode_seq w ∧
     ReadDirAll dir w' = (inr (listing (Inode dir) (store w) ++ [entry]), w')) ∧
  (∃ created w',
     Mkdir now1 now2 dir name mode w = (inr created, w') ∧
     Inode created = inode_seq w ∧
     ReadDirAll dir w' = (inr (listing (Inode dir) (store w) ++ [entry]), w')).
Proof.
  destruct w as [s q tx0 fl]. unfold quiet. simpl.
  intros -> Hfs Hdir Hfree (Hrow & Htree & _).
  set (entry := mkDirent q (GetDirentTypeFromMode mode) name).
  assert (∀ n, Name n = name → Mode n = mode →
            let s' := mkStore (tree s ++ [mkTree q (Inode dir) (Name n)])
                        (<[q := toJSON (inserted now1 now2 q n)]> (inodes s))
                        (data_blocks s) in
            ReadDirAll dir (mkWorld s' (q + 1) None []) =
              (inr (listing (Inode dir) s ++ [entry]),
               mkWorld s' (q + 1) None [])) as Hlist.
  { intros n Hname Hmode s'. rewrite ReadDirAll_quiet; [|done|].
    - do 2 f_equal. unfold listing, s'. simpl.
      rewrite filter_app, omap_app, fmap_app. f_equal.
      + f_equal. apply list_omap_ext, Forall_Forall2_diag, Forall_forall.
        intros r [_ Hr]%list_elem_of_filter. unfold joined. simpl.
        rewrite Forall_forall in Htree.
        by rewrite lookup_insert_ne by (intros ->; by eapply Htree).
      + rewrite filter_cons_True by done. simpl. unfold joined. simpl.
        rewrite lookup_insert_eq. simpl. unfold entry. by rewrite Hname, Hmode.
    - destruct Hdir as [?|(j & Hj & ?)]; [by left|right].
      exists j. simpl. split; [|done].
      rewrite lookup_insert_ne; [done|]. intros ->. congruence. }
  split.
  - unfold Create. rewrite Hfs. simpl.
    rewrite UpsertNode_quiet by done.
    do 2 eexists. split; [reflexivity|]. split; [done|].
    by apply Hlist.
  - unfold Mkdir. rewrite Hfs. simpl.
    rewrite UpsertNode_quiet by done.
    do 2 eexists. split; [reflexivity|]. split; [done|].
    by apply Hlist.
Qed.

Lemma create_then_list_witness :
  ∃ created w',
    Create 10 11 rootNode "b" 420 oneFile = (inr created, w') ∧
    Inode created = 3 ∧
    ReadDirAll rootNode w' =
      (inr [mkDirent 2 DT_File "a"; mkDirent 3 DT_File "b"], w').
Proof.
  destruct (create_then_list 10 11 rootNode "b" 420 oneFile) as [Hcreate _].
  - reflexivity.
  - reflexivity.
  - by left.
  - apply (proj1 (bool_decide_eq_false _)). vm_compute. reflexivity.
  - split; [reflexivity|]. split; repeat constructor; vm_compute; discriminate.
  - exact Hcreate.
Defined.

(** ** File system statistics *)

Lemma Statfs_quiet resp s q tx0 :
  Statfs resp (mkWorld s q tx0 []) =
    (mkStatfs (Z.of_nat (length (data_blocks s))) (st_Bfree resp)
       (st_Bavail resp) (Z.of_nat (size (inodes s))) (st_Ffree resp)
       (Z.of_nat BLOCK_SIZE) (st_Namelen resp) (Z.of_nat BLOCK_SIZE),
     None, mkWorld s q tx0 []).
Proof. done. Qed.

(** X6.  [Statfs] never fails and never changes the store.  It reports
    [BLOCK_SIZE] as block size and as fragment size and leaves the free
    counts and the name length of the response as they were; when the
    store does not fail, the block count is the number of rows of
    [data_blocks] and the file count the number of node rows; a count that
    fails leaves its field as it was. *)
Theorem statfs_counts (resp : StatfsResponse) (w : World) :
  (∀ resp' r w',
     Statfs resp w = (resp', r, w') →
     r = None ∧ store w' = store w ∧
     st_Bsize resp' = Z.of_nat BLOCK_SIZE ∧
     st_Frsize resp' = Z.of_nat BLOCK_SIZE ∧
     st_Bfree resp' = st_Bfree resp ∧ st_Bavail resp' = st_Bavail resp ∧
     st_Ffree resp' = st_Ffree resp ∧ st_Namelen resp' = st_Namelen resp ∧
     (st_Blocks resp' = Z.of_nat (length (data_blocks (store w))) ∨
      st_Blocks resp' = st_Blocks resp) ∧
     (st_Files resp' = Z.of_nat (size (inodes (store w))) ∨
      st_Files resp' = st_Files resp)) ∧
  (quiet w →
   Statfs resp w =
     (mkStatfs (Z.of_nat (length (data_blocks (store w)))) (st_Bfree resp)
        (st_Bavail resp) (Z.of_nat (size (inodes (store w)))) (st_Ffree resp)
        (Z.of_nat BLOCK_SIZE) (st_Namelen resp) (Z.of_nat BLOCK_SIZE),
      None, w)).
Proof.
  split.
  - intros resp' r w'. unfold Statfs, CountDataBlocks, CountInodes.
    destruct (db_Query sql_count_blocks w) as [[e1|blocks] w1] eqn:E1.
    + apply db_Query_store in E1 as (S1 & _).
      destruct (db_Query sql_count_inodes w1) as [[e2|files] w2] eqn:E2.
      * apply db_Query_store in E2 as (S2 & _).
        intros [= <- <- <-]. simpl. split_and!; auto; congruence.
      * apply db_Query_ok in E2 as (Hsel & S2 & _).
        injection Hsel as <-.
        intros [= <- <- <-]. simpl. rewrite S1. split_and!; auto; congruence.
    + apply db_Query_ok in E1 as (Hsel1 & S1 & _). injection Hsel1 as <-.
      destruct (db_Query sql_count_inodes w1) as [[e2|files] w2] eqn:E2.
      * apply db_Query_store in E2 as (S2 & _).
        intros [= <- <- <-]. simpl. split_and!; auto; congruence.
      * apply db_Query_ok in E2 as (Hsel & S2 & _).
        injection Hsel as <-.
        intros [= <- <- <-]. simpl. rewrite S1. split_and!; auto; congruence.
  - destruct w as [s q tx0 fl]. unfold quiet. simpl. intros ->.
    apply Statfs_quiet.
Qed.

Lemma statfs_counts_witness :
  Statfs (mkStatfs 7 7 7 7 7 7 7 7) dirWithChild =
    (mkStatfs 0 7 7 2 7 1024 7 1024, None, dirWithChild).
Proof.
  destruct (statfs_counts (mkStatfs 7 7 7 7 7 7 7 7) dirWithChild)
    as [_ Hquiet].
  apply Hquiet. reflexivity.
Defined.

Lemma chunked_count inode sequence input rows :
  chunked inode sequence input rows →
  (Z.of_nat (length rows) - 1) * Z.of_nat BLOCK_SIZE < Z.of_nat (length input)
    ≤ Z.of_nat (length rows) * Z.of_nat BLOCK_SIZE.
Proof.
  pose proof BLOCK_SIZE_pos as Hpos.
  induction 1 as [s|s input Hne Hle|s input rows Hlt Hc IH].
  - simpl. lia.
  - destruct input; [done|]. cbn [length] in *. lia.
  - rewrite length_drop in IH. cbn [length].
    rewrite Nat2Z.inj_sub in IH by lia.
    rewrite Nat2Z.inj_succ. lia.
Qed.

(** X7.  A file of [len] bytes takes [⌈len / BLOCK_SIZE⌉] blocks: after a
    [WriteData] that returned [nil] the inode has that many rows in
    [data_blocks] (none for an empty file), the rows of the other inodes
    are as many as before, and [Statfs] counts them all. *)
Theorem write_block_count (n : fileNode) (data : list byte) (w : World)
    (n' : fileNode) (w' : World) :
  WriteData n data w = (n', Returns None, w') →
  let own := filter (λ r, b_inode r = Inode n) (data_blocks (store w')) in
  let others := filter (λ r, b_inode r ≠ Inode n) (data_blocks (store w)) in
  Z.of_nat (length own) =
    (Z.of_nat (length data) + Z.of_nat BLOCK_SIZE - 1) / Z.of_nat BLOCK_SIZE ∧
  length (data_blocks (store w')) = (length others + length own)%nat ∧
  (quiet w' →
   ∀ resp, st_Blocks (Statfs resp w').1.1 =
           Z.of_nat (length others + length own)).
Proof.
  intros Hrun own others.
  apply WriteData_ok in Hrun as (_ & _ & rows & Hrows & Hstore).
  assert (own = rows) as Hown.
  { unfold own. rewrite Hstore. simpl.
    apply filter_written. by eapply chunked_inode. }
  assert (length (data_blocks (store w')) = (length others + length own)%nat)
    as Htotal.
  { rewrite Hown, Hstore. simpl. by rewrite length_app. }
  split_and!.
  - rewrite Hown. apply chunked_count in Hrows.
    pose proof BLOCK_SIZE_pos.
    apply (Z.div_unique _ _ _
             (Z.of_nat (length data) + Z.of_nat BLOCK_SIZE - 1
              - Z.of_nat BLOCK_SIZE * Z.of_nat (length rows))); lia.
  - done.
  - intros Hquiet resp. destruct w' as [s' q' tx' fl'].
    unfold quiet in Hquiet. simpl in *. subst fl'.
    rewrite Statfs_quiet. simpl. by rewrite Htotal.
Qed.

Lemma write_block_count_witness :
  let run := WriteData nodeA (replicate 2049 x61) oneFile in
  Z.of_nat (length (filter (λ r, b_inode r = Inode nodeA)
                      (data_blocks (store run.2)))) = 3 ∧
  length (data_blocks (store run.2)) = 3%nat.
Proof.
  intros run.
  assert (WriteData nodeA (replicate 2049 x61) oneFile = (run.1.1, Returns None, run.2))
    as Hrun by (vm_compute; reflexivity).
  destruct (write_block_count nodeA (replicate 2049 x61) oneFile
              run.1.1 run.2 Hrun) as (Hown & Htotal & _).
  split.
  - etrans; [exact Hown|]. vm_compute. reflexivity.
  - etrans; [exact Htotal|]. vm_compute. reflexivity.
Defined.

(** ** Symbolic links *)

(** X8.  A symbolic link gives back its target, as JSON keeps it.  When
    the store does not fail, [Symlink] of a free name under a directory
    node returns a node whose [Readlink] is the target; [Lookup] of the
    name then finds a node of the same inode, a link of count 1, whose
    [Readlink] is the target as [json.Marshal] wrote it, each byte that is
    not part of well-formed UTF-8 replaced by U+FFFD, and whose [Attr]
    reports the length of that string as its size.  For a target that is
    valid UTF-8 this is the target itself. *)
Theorem symlink_then_readlink (now1 now2 : Z) (dir : fileNode)
    (NewName Target : string) (w : World) :
  quiet w →
  fs dir = true →
  IsDirectory dir = true →
  ¬ taken (Inode dir) NewName (store w) →
  ∃ made found w',
    Symlink now1 now2 dir NewName Target w = (inr made, w') ∧
    Inode made = inode_seq w ∧
    Readlink made = inr Target ∧
    Lookup dir NewName w' = (inr found, w') ∧
    Inode found = Inode made ∧
    Nlink found = 1 ∧
    Readlink found = inr (to_valid_utf8 Target) ∧
    a_Size (Attr found zeroAttr w').1.1 =
      Z.of_nat (String.length (to_valid_utf8 Target)) ∧
    (valid_utf8 Target →
     Readlink found = inr Target ∧
     a_Size (Attr found zeroAttr w').1.1 = Z.of_nat (String.length Target)).
Proof.
  destruct w as [s q tx0 fl]. unfold quiet. simpl.
  intros -> Hfs Hdir Hfree.
  unfold Symlink. rewrite Hfs, Hdir. cbn [negb].
  rewrite UpsertNode_quiet by done.
  do 3 eexists. split; [reflexivity|]. split; [done|]. split; [done|].
  unfold Lookup. rewrite Hfs, Hdir. cbn [negb].
  rewrite GetNodeByName_quiet. cbn [tree inodes store].
  rewrite filter_app, filter_none.
  2: { unfold taken in Hfree.
       apply not_Exists_Forall in Hfree; [exact Hfree|apply _]. }
  rewrite filter_cons_True by (by unfold same_slot).
  cbn [app filter list_filter t_inode]. rewrite lookup_insert_eq.
  split; [reflexivity|].
  match goal with |- context [Readlink ?f] => set (found := f) end.
  match goal with |- context [Attr _ _ ?w0] => set (w1 := w0) end.
  assert (Readlink found = inr (to_valid_utf8 Target)) as Hlink by done.
  assert (a_Size (Attr found zeroAttr w1).1.1 =
          Z.of_nat (String.length (to_valid_utf8 Target))) as Hsize.
  { unfold Attr, w1. rewrite GetNodeByID_quiet.
    cbn [inodes store]. replace (Inode found) with q by done.
    rewrite lookup_insert_eq. done. }
  split_and!; try done.
  intros Hvalid. unfold valid_utf8 in Hvalid.
  rewrite Hsize, Hlink, Hvalid. done.
Qed.

Lemma symlink_then_readlink_witness :
  ∃ made found w',
    Symlink 10 11 rootNode "l" "a" oneFile = (inr made, w') ∧
    Readlink made = inr "a" ∧
    Lookup rootNode "l" w' = (inr found, w') ∧
    Readlink found = inr "a".
Proof.
  destruct (symlink_then_readlink 10 11 rootNode "l" "a" oneFile)
    as (made & found & w' & Hmade & _ & Hread & Hfound & _ & _ & _ & _
        & Hvalid).
  - reflexivity.
  - reflexivity.
  - reflexivity.
  - apply (proj1 (bool_decide_eq_false _)). vm_compute. reflexivity.
  - exists made, found, w'. split_and!; [done..|].
    by apply Hvalid.
Defined.

(** A target with a byte that is no UTF-8, [0xFF]: the link reads back
    with U+FFFD in its place, two bytes longer. *)
Example symlink_target_replaced :
  let target :=
    String (Ascii.ascii_of_N 97) (String (Ascii.ascii_of_N 255) EmptyString) in
  let made := Symlink 10 11 rootNode "l" target oneFile in
  match (Lookup rootNode "l" made.2).1 with
  | inr found =>
      Readlink found = inr (String (Ascii.ascii_of_N 97) replacement) ∧
      a_Size (Attr found zeroAttr made.2).1.1 = 4
  | inl _ => False
  end.
Proof. vm_compute. split_and!; reflexivity. Qed.

(** ** What the creating methods store *)

(** X9.  [Mkdir] stores a link count of 2, [Create] and [Mknod] one of 1.
    When the store does not fail and the name is free, each of them
    commits one tree entry, from the receiver's inode and the name to the
    next inode of the sequence, and one node row for that inode with the
    mode of the request, size 0 and the two clock readings as times of
    modification and of change.  None of the three looks at the type of
    its receiver. *)
Theorem creation_rows (now1 now2 : Z) (dir : fileNode) (name : string)
    (mode : Z) (w : World) :
  quiet w →
  fs dir = true →
  ¬ taken (Inode dir) name (store w) →
  let row count := mkJSON 0 0 0 0 now1 now2 0 mode count 0 0 0 0 0 "" in
  let after count :=
    mkWorld
      (mkStore (tree (store w) ++ [mkTree (inode_seq w) (Inode dir) name])
         (<[inode_seq w := row count]> (inodes (store w)))
         (data_blocks (store w)))
      (inode_seq w + 1) None [] in
  (Mkdir now1 now2 dir name mode w).2 = after 2 ∧
  (Create now1 now2 dir name mode w).2 = after 1 ∧
  (Mknod now1 now2 dir name mode w).2 = after 1 ∧
  inode_of (Mkdir now1 now2 dir name mode w).1 = Some (inode_seq w) ∧
  inode_of (Create now1 now2 dir name mode w).1 = Some (inode_seq w) ∧
  inode_of (Mknod now1 now2 dir name mode w).1 = Some (inode_seq w).
Proof.
  destruct w as [s q tx0 fl]. unfold quiet. simpl.
  intros -> Hfs Hfree.
  unfold Mkdir, Create, Mknod. rewrite Hfs. simpl.
  rewrite !UpsertNode_quiet by done. simpl. done.
Qed.

Lemma creation_rows_witness :
  j_Nlink <$> inodes (store (Mkdir 10 11 nodeA "sub" 493 oneFile).2) !! 3
    = Some 2 ∧
  j_Nlink <$> inodes (store (Create 10 11 nodeA "sub" 493 oneFile).2) !! 3
    = Some 1.
Proof.
  destruct (creation_rows 10 11 nodeA "sub" 493 oneFile)
    as (Hmkdir & Hcreate & _).
  - reflexivity.
  - reflexivity.
  - apply (proj1 (bool_decide_eq_false _)). vm_compute. reflexivity.
  - rewrite Hmkdir, Hcreate. split; vm_compute; reflexivity.
Defined.

(** ** Names that do not resolve *)

(** No entry of the name in the directory has a node row: the name is
    absent, or its entries dangle. *)
Lemma GetNodeByName_missing parent name (w : World) r w' :
  (∀ e, e ∈ tree (store w) → same_slot parent name e →
        inodes (store w) !! t_inode e = None) →
  GetNodeByName parent name w = (r, w') →
  ∃ err, r = inl err.
Proof.
  intros Hnone Hrun. destruct r as [err|found]; [by eauto|].
  apply GetNodeByName_ok in Hrun as (e & rest & j & Hslot & Hj & _).
  assert (e ∈ filter (same_slot parent name) (tree (store w))) as Hin
    by (rewrite Hslot; left).
  apply list_elem_of_filter in Hin as [Hs He].
  rewrite (Hnone e He Hs) in Hj. done.
Qed.

(** X10.  [Lookup] of a name that has no entry in the directory, or whose
    entry has no node row, answers [ENOENT] in every run, a failure of the
    store included, and changes nothing. *)
Theorem lookup_missing (dir : fileNode) (name : string) (w : World) :
  fs dir = true →
  IsDirectory dir = true →
  (∀ e, e ∈ tree (store w) → same_slot (Inode dir) name e →
        inodes (store w) !! t_inode e = None) →
  ∀ r w', Lookup dir name w = (r, w') → r = inl ENOENT ∧ store w' = store w.
Proof.
  intros Hfs Hdir Hnone r w'. unfold Lookup. rewrite Hfs, Hdir. simpl.
  destruct (GetNodeByName (Inode dir) name w) as [res w1] eqn:Hget.
  destruct (GetNodeByName_missing _ _ _ _ _ Hnone Hget) as [err ->].
  apply GetNodeByName_store in Hget as (? & _).
  by intros [= <- <-].
Qed.

Lemma lookup_missing_witness :
  (Lookup rootNode "zz" (with_faults [true] oneFile)).1 = inl ENOENT ∧
  store (Lookup rootNode "zz" (with_faults [true] oneFile)).2 = store oneFile.
Proof.
  apply (lookup_missing rootNode "zz" (with_faults [true] oneFile)).
  - reflexivity.
  - reflexivity.
  - intros e He [_ Hname]. exfalso.
    apply list_elem_of_singleton in He as ->. done.
  - reflexivity.
Defined.

(** X11.  [Remove] of such a name reports [EIO], not [ENOENT], in every
    run, and changes nothing. *)
Theorem remove_missing (dir : fileNode) (req : RemoveRequest) (w : World) :
  (∀ e, e ∈ tree (store w) → same_slot (Inode dir) (rr_Name req) e →
        inodes (store w) !! t_inode e = None) →
  ∀ r w', Remove dir req w = (r, w') →
          r = Some EIO ∧ store w' = store w ∧ open_tx w' = open_tx w.
Proof.
  intros Hnone r w'. unfold Remove. destruct (negb (fs dir)).
  { by intros [= <- <-]. }
  destruct (GetNodeByName (Inode dir) (rr_Name req) w) as [res w1] eqn:Hget.
  destruct (GetNodeByName_missing _ _ _ _ _ Hnone Hget) as [err ->].
  apply GetNodeByName_store in Hget as (? & ? & _).
  by intros [= <- <-].
Qed.

Lemma remove_missing_witness :
  (Remove rootNode (mkRemove "zz" false) oneFile).1 = Some EIO ∧
  store (Remove rootNode (mkRemove "zz" false) oneFile).2 = store oneFile ∧
  open_tx (Remove rootNode (mkRemove "zz" false) oneFile).2 = open_tx oneFile.
Proof.
  apply (remove_missing rootNode (mkRemove "zz" false) oneFile).
  - intros e He [_ Hname]. exfalso.
    apply list_elem_of_singleton in He as ->. done.
  - reflexivity.
Defined.

(** ** Removing through the node method *)

(** X12.  [Remove] of a name that is the only entry of its inode, the
    inode having a node row and, for a request with the directory flag, no
    child entry, returns success when the store does not fail and commits
    the deletion of the entry, of the node row and of the blocks of the
    inode: an empty directory can be removed, and so can a file. *)
Theorem remove_only_entry (dir : fileNode) (req : RemoveRequest) (inode : Z)
    (j : struct_data) (w : World) :
  quiet w →
  fs dir = true →
  filter (same_slot (Inode dir) (rr_Name req)) (tree (store w)) =
    [mkTree inode (Inode dir) (rr_Name req)] →
  filter (λ r, t_inode r = inode) (tree (store w)) =
    [mkTree inode (Inode dir) (rr_Name req)] →
  inodes (store w) !! inode = Some j →
  (rr_Dir req = true → ¬ has_children inode (store w)) →
  Remove dir req w =
    (None,
     mkWorld
       (mkStore
          (filter (λ r, ¬ same_slot (Inode dir) (rr_Name req) r) (tree (store w)))
          (delete inode (inodes (store w)))
          (filter (λ r, b_inode r ≠ inode) (data_blocks (store w))))
       (inode_seq w) None []).
Proof.
  intros Hquiet Hfs Hslot Honly Hrow Hempty.
  rewrite (Remove_last_entry dir req inode j w) by done.
  destruct w as [s q tx0 fl]. unfold quiet in Hquiet. simpl in *. subst fl.
  rewrite RemoveNodeByName_quiet. simpl.
  rewrite decide_False; [done|].
  rewrite list_filter_filter.
  rewrite (list_filter_iff _
             (λ r, ¬ same_slot (Inode dir) (rr_Name req) r ∧ t_inode r = inode))
    by tauto.
  rewrite <-list_filter_filter, Honly.
  rewrite filter_cons_False by (unfold same_slot; simpl; tauto).
  simpl. lia.
Qed.

Lemma remove_only_entry_witness :
  Remove nodeD (mkRemove "f" false) dirWithChild =
    (None,
     mkWorld (mkStore [mkTree 2 1 "d"] {[ 2 := dirData ]} []) 4 None []) ∧
  (Remove rootNode (mkRemove "d" true)
     (Remove nodeD (mkRemove "f" false) dirWithChild).2).1 = None.
Proof.
  assert (Remove nodeD (mkRemove "f" false) dirWithChild =
            (None,
             mkWorld (mkStore [mkTree 2 1 "d"] {[ 2 := dirData ]} []) 4 None []))
    as Hfile.
  { rewrite (remove_only_entry nodeD (mkRemove "f" false) 3 (fileData 1 0)
               dirWithChild); try reflexivity.
    intros [=]. }
  split; [exact Hfile|]. rewrite Hfile.
  rewrite (remove_only_entry rootNode (mkRemove "d" true) 2 dirData);
    try reflexivity.
  intros _. apply (proj1 (bool_decide_eq_false _)). vm_compute. reflexivity.
Defined.

(** ** What only reads *)

Lemma Attr_store n attr w :
  same_relations w (Attr n attr w).2 ∧ (Attr n attr w).1.2 = None.
Proof.
  unfold Attr, GetNodeByID, same_relations.
  destruct (db_Query _ w) as [[err|j] w1] eqn:E1;
    apply db_Query_store in E1 as (S1 & Q1 & T1); simpl; done.
Qed.

(** X13.  The reading helpers and methods never change the committed
    relations, the sequence or the transaction in progress, in any run:
    [GetNodeByID], [GetNodeByName], [CountNodesInDir], [CountInodes],
    [CountDataBlocks], [ListNodesInDir], [ReadData], [Attr], [Lookup],
    [ReadDirAll], [Statfs] and [Read]. *)
Theorem readers_change_nothing (w : World) :
  (∀ inode, same_relations w (GetNodeByID inode w).2) ∧
  (∀ parent name, same_relations w (GetNodeByName parent name w).2) ∧
  (∀ inode, same_relations w (CountNodesInDir inode w).2) ∧
  same_relations w (CountInodes w).2 ∧
  same_relations w (CountDataBlocks w).2 ∧
  (∀ inode, same_relations w (ListNodesInDir inode w).2) ∧
  (∀ inode, same_relations w (ReadData inode w).2) ∧
  (∀ n attr, same_relations w (Attr n attr w).2) ∧
  (∀ n name, same_relations w (Lookup n name w).2) ∧
  (∀ n, same_relations w (ReadDirAll n w).2) ∧
  (∀ resp, same_relations w (Statfs resp w).2) ∧
  (∀ HandleRead n req, same_relations w (Read HandleRead n req w).2).
Proof.
  assert (∀ A (q : Store → error + A), same_relations w (db_Query q w).2)
    as Hquery.
  { intros A q. destruct (db_Query q w) as [r w1] eqn:E.
    apply db_Query_store in E as (? & ? & ?). by split_and!. }
  assert (∀ parent name, same_relations w (GetNodeByName parent name w).2)
    as Hname.
  { intros parent name.
    destruct (GetNodeByName parent name w) as [r w1] eqn:E.
    apply GetNodeByName_store in E as (? & ? & ?). by split_and!. }
  assert (∀ inode, same_relations w (ListNodesInDir inode w).2) as Hlist.
  { intros inode. destruct (ListNodesInDir inode w) as [r w1] eqn:E.
    apply ListNodesInDir_store in E as (? & ? & ?). by split_and!. }
  assert (∀ inode, same_relations w (ReadData inode w).2) as Hread.
  { intros inode. unfold ReadData.
    specialize (Hquery _ (sql_select_blocks inode)).
    destruct (db_Query _ w) as [[?|rows] w1]; [done|].
    destruct (rows_Next rows w1) as [got w2] eqn:Hloop.
    apply rows_Next_prefix in Hloop as (_ & ? & ? & ?).
    destruct Hquery as (? & ? & ?). simpl in *.
    unfold same_relations. simpl. split_and!; congruence. }
  split_and!.
  - intros inode. unfold GetNodeByID.
    specialize (Hquery _ (sql_select_inode inode)).
    by destruct (db_Query _ w) as [[?|?] ?].
  - done.
  - intros inode. unfold CountNodesInDir.
    specialize (Hquery _ (sql_count_children inode)).
    by destruct (db_Query _ w) as [[?|?] ?].
  - unfold CountInodes. specialize (Hquery _ sql_count_inodes).
    by destruct (db_Query _ w) as [[?|?] ?].
  - unfold CountDataBlocks. specialize (Hquery _ sql_count_blocks).
    by destruct (db_Query _ w) as [[?|?] ?].
  - done.
  - done.
  - intros n attr. apply Attr_store.
  - intros n name. unfold Lookup.
    destruct (negb (fs n)); [done|]. destruct (negb (IsDirectory n)); [done|].
    specialize (Hname (Inode n) name).
    by destruct (GetNodeByName _ _ w) as [[?|?] ?].
  - intros n. unfold ReadDirAll. destruct (negb (fs n)); [done|].
    specialize (Hlist (Inode n)).
    by destruct (ListNodesInDir _ w) as [[?|?] ?].
  - intros resp. destruct (Statfs resp w) as [[resp' r] w'] eqn:E.
    revert E. unfold Statfs, CountDataBlocks, CountInodes.
    destruct (db_Query sql_count_blocks w) as [[?|?] w1] eqn:E1;
      apply db_Query_store in E1 as (? & ? & ?);
      destruct (db_Query sql_count_inodes w1) as [[?|?] w2] eqn:E2;
      apply db_Query_store in E2 as (? & ? & ?);
      intros [= <- <- <-]; unfold same_relations; simpl;
      split_and!; congruence.
  - intros HandleRead n req. unfold Read. specialize (Hread (Inode n)).
    by destruct (ReadData _ w) as [[?|?] ?].
Qed.

(** ** The error numbers *)

(** X14.  The engine reports three error numbers and no other.  [Lookup]
    fails with [EIO] or [ENOENT], [Remove] with [EIO] or [ENOTEMPTY], and
    every other method, whatever went wrong, with [EIO]. *)
Theorem errnos (w : World) :
  (∀ n name e, (Lookup n name w).1 = inl e → e = EIO ∨ e = ENOENT) ∧
  (∀ n req e, (Remove n req w).1 = Some e → e = EIO ∨ e = ENOTEMPTY) ∧
  (∀ now1 now2 n name target e,
     (Symlink now1 now2 n name target w).1 = inl e → e = EIO) ∧
  (∀ n name old e, (Link n name old w).1 = inl e → e = EIO) ∧
  (∀ now1 now2 n name mode e,
     (Mkdir now1 now2 n name mode w).1 = inl e → e = EIO) ∧
  (∀ now1 now2 n name mode e,
     (Create now1 now2 n name mode w).1 = inl e → e = EIO) ∧
  (∀ now1 now2 n name mode e,
     (Mknod now1 now2 n name mode w).1 = inl e → e = EIO) ∧
  (∀ n oldName newName newDir e,
     (Rename n oldName newName newDir w).1 = Some e → e = EIO) ∧
  (∀ n e, (ReadDirAll n w).1 = inl e → e = EIO) ∧
  (∀ n req resp e,
     (Setattr n req resp w).1.2 = Returns (Some e) → e = EIO) ∧
  (∀ n req e, (Write n req w).1.2 = Returns (inl e) → e = EIO) ∧
  (∀ HandleRead n req e, (Read HandleRead n req w).1 = inl e → e = EIO) ∧
  (∀ n e, Readlink n = inl e → e = EIO).
Proof.
  split_and!.
  - intros n name e. unfold Lookup.
    repeat (case_match; simpl; try naive_solver).
  - intros n req e. unfold Remove.
    repeat (case_match; simpl; try naive_solver).
  - intros now1 now2 n name target e. unfold Symlink.
    repeat (case_match; simpl; try naive_solver).
  - intros n name old e. unfold Link.
    repeat (case_match; simpl; try naive_solver).
  - intros now1 now2 n name mode e. unfold Mkdir.
    repeat (case_match; simpl; try naive_solver).
  - intros now1 now2 n name mode e. unfold Create.
    repeat (case_match; simpl; try naive_solver).
  - intros now1 now2 n name mode e. unfold Mknod.
    repeat (case_match; simpl; try naive_solver).
  - intros n oldName newName newDir e. unfold Rename.
    repeat (case_match; simpl; try naive_solver).
  - intros n e. unfold ReadDirAll.
    repeat (case_match; simpl; try naive_solver).
  - intros n req resp e. unfold Setattr.
    repeat (case_match; simpl; try naive_solver).
  - intros n req e. unfold Write.
    repeat (case_match; simpl; try naive_solver).
  - intros HandleRead n req e. unfold Read.
    repeat (case_match; simpl; try naive_solver).
  - intros n e. unfold Readlink.
    repeat (case_match; simpl; try naive_solver).
Qed.

(** ** The node row as a copy of the node *)

Lemma db_Exec_ok stmt w w' :
  db_Exec stmt w = (inr (), w') →
  stmt (store w) = inr (store w') ∧ inode_seq w' = inode_seq w ∧
  open_tx w' = open_tx w.
Proof. unfold db_Exec. round_trip. Qed.

Lemma Unmarshal_toJSON n :
  Unmarshal (toJSON n) (set_Inode (Inode n) zeroNode) =
    set_fs false
      (set_Name "" (set_SymlinkTarget (to_valid_utf8 (SymlinkTarget n)) n)).
Proof. by destruct n. Qed.

(** X15.  A node stored and fetched again is the node but for the two
    fields that are not stored, and for its link target, which comes back
    as [json.Marshal] wrote it: [UpdateNode] followed by [GetNodeByID] of
    the same inode, both successful, yields the node with its name empty,
    without its file system pointer, with every byte of the target that
    is not part of well-formed UTF-8 replaced by U+FFFD, and every other
    field as it was; a target that is valid UTF-8 comes back as it was.
    Both calls succeed when the store does not fail and the node
    marshals; for a node that does not, [UpdateNode] panics before it
    reaches the store. *)
Theorem stored_node_round_trip (n : fileNode) (w : World) :
  let kept :=
    set_fs false
      (set_Name "" (set_SymlinkTarget (to_valid_utf8 (SymlinkTarget n)) n)) in
  (∀ w1 found w2,
     UpdateNode n w = (Returns None, w1) →
     GetNodeByID (Inode n) w1 = (inr found, w2) →
     found = kept) ∧
  (valid_utf8 (SymlinkTarget n) → kept = set_fs false (set_Name "" n)) ∧
  (quiet w → marshals n →
   ∃ w1, UpdateNode n w = (Returns None, w1) ∧
         GetNodeByID (Inode n) w1 = (inr kept, w1)) ∧
  (¬ marshals n → UpdateNode n w = (Panics, w)).
Proof.
  intros kept. split_and!.
  - intros w1 found w2. unfold UpdateNode. case_decide; [|done].
    destruct (db_Exec _ w) as [[err|[]] w'] eqn:Hexec; [done|].
    apply db_Exec_ok in Hexec as (Hup & _).
    unfold sql_upsert_inode in Hup. injection Hup as Hstore.
    intros [= <-] Hget.
    apply GetNodeByID_ok in Hget as (j & Hj & -> & _).
    rewrite <-Hstore in Hj. simpl in Hj. rewrite lookup_insert_eq in Hj.
    injection Hj as <-. apply Unmarshal_toJSON.
  - unfold valid_utf8, kept. intros ->. by destruct n.
  - destruct w as [s q tx0 fl]. unfold quiet. simpl. intros -> Hn.
    unfold UpdateNode. rewrite decide_True by done.
    eexists. split; [reflexivity|].
    rewrite GetNodeByID_quiet. cbn [inodes store]. rewrite lookup_insert_eq.
    by rewrite Unmarshal_toJSON.
  - intros Hn. unfold UpdateNode. by rewrite decide_False.
Qed.

Lemma stored_node_round_trip_witness :
  ∃ w1, UpdateNode (set_Name "a" nodeA) oneFile = (Returns None, w1) ∧
        GetNodeByID 2 w1 = (inr (set_fs false nodeA), w1).
Proof.
  destruct (stored_node_round_trip (set_Name "a" nodeA) oneFile)
    as (_ & _ & Hquiet & _).
  apply Hquiet; [reflexivity|]. unfold marshals, time_ok. simpl. lia.
Defined.

Lemma Setattr_kept n req resp w :
  let n' := (Setattr n req resp w).1.1.1 in
  Inode n' = Inode n ∧ Nlink n' = Nlink n ∧ Ctime n' = Ctime n ∧
  Name n' = Name n ∧ SymlinkTarget n' = SymlinkTarget n ∧ fs n' = fs n ∧
  Blocks n' = Blocks n ∧ Rdev n' = Rdev n ∧ Flags n' = Flags n.
Proof.
  unfold Setattr.
  destruct req as [[vm vu vg vs va vt vc] rm ru rg rs ra rt rc]. simpl.
  destruct (UpdateNode _ w) as [[[err|]|] w']; simpl;
    destruct vm, vu, vg, vs, va, vt, vc; simpl; done.
Qed.

(** The node [Setattr] leaves depends on the node and the request only,
    and [Setattr] ends as [UpdateNode] of that node does. *)
Lemma Setattr_UpdateNode n req resp w :
  let n' := (Setattr n req resp w).1.1.1 in
  (∀ w0, (Setattr n req resp w0).1.1.1 = n') ∧
  (Setattr n req resp w).2 = (UpdateNode n' w).2 ∧
  (Setattr n req resp w).1.2 =
    match (UpdateNode n' w).1 with
    | Returns (Some _) => Returns (Some EIO)
    | Returns None => Returns None
    | Panics => Panics
    end.
Proof.
  unfold Setattr. simpl.
  match goal with |- context [UpdateNode ?m w] => set (stored := m) end.
  split_and!.
  - intros w0. by destruct (UpdateNode stored w0) as [[[err|]|] w1],
      (UpdateNode stored w) as [[[err'|]|] w2].
  - by destruct (UpdateNode stored w) as [[[err'|]|] w2] eqn:Hrun; simpl;
      rewrite Hrun.
  - by destruct (UpdateNode stored w) as [[[err'|]|] w2] eqn:Hrun; simpl;
      rewrite Hrun.
Qed.

(** X16.  [Setattr] stores its own copy of the node whole.  After a
    [Setattr] that succeeded, the node row is the node in memory, so that
    the link count it holds is the one the node object had, whatever the
    store held: when a hard link has been made in between, through
    [Link], the count it had raised falls back, provided the node as the
    request leaves it marshals.  [Setattr] panics exactly when that node
    does not marshal (a time of the request, or of the node, has a year
    outside 0..9999), before it reaches the store: the node in memory is
    changed and the node row is not. *)
Theorem setattr_stores_own_copy (n : fileNode) (req : SetattrRequest)
    (resp : fuseAttr) (w : World) :
  let n' := (Setattr n req resp w).1.1.1 in
  (∀ resp' w',
     Setattr n req resp w = (n', resp', Returns None, w') →
     inodes (store w') !! Inode n = Some (toJSON n') ∧ Nlink n' = Nlink n) ∧
  ((Setattr n req resp w).1.2 = Panics ↔ ¬ marshals n') ∧
  ((Setattr n req resp w).1.2 = Panics → (Setattr n req resp w).2 = w) ∧
  (∀ dir NewName j,
     quiet w → fs n = true → fs dir = true → IsDirectory dir = true →
     ¬ taken (Inode dir) NewName (store w) →
     inodes (store w) !! Inode n = Some j →
     marshals n' →
     let linked_w := (Link dir NewName n w).2 in
     j_Nlink <$> inodes (store linked_w) !! Inode n
       = Some (wrap32 (j_Nlink j + 1)) ∧
     j_Nlink <$> inodes (store (Setattr n req resp linked_w).2) !! Inode n
       = Some (Nlink n)).
Proof.
  intros n'.
  destruct (Setattr_kept n req resp w) as (Hi & Hn & _). fold n' in Hi, Hn.
  assert (∀ w0, (Setattr n req resp w0).1.1.1 = n') as Hnode
    by apply Setattr_UpdateNode.
  assert (∀ w0 resp' w',
     Setattr n req resp w0 = (n', resp', Returns None, w') →
     inodes (store w') !! Inode n = Some (toJSON n')) as Hown.
  { intros w0 resp' w' Hrun.
    destruct (Setattr_UpdateNode n req resp w0) as (_ & Hworld & Hend).
    rewrite Hnode in Hworld, Hend. rewrite Hrun in Hworld, Hend.
    simpl in Hworld, Hend. subst w'.
    revert Hend. unfold UpdateNode. case_decide; [|done].
    destruct (db_Exec _ w0) as [[err|[]] w1] eqn:Hexec; [done|].
    apply db_Exec_ok in Hexec as (Hup & _).
    unfold sql_upsert_inode in Hup. injection Hup as Hstore.
    intros _. simpl. rewrite <-Hstore. simpl.
    rewrite Hi. apply lookup_insert_eq. }
  split_and!.
  - intros resp' w' Hrun. split; [by eapply Hown|done].
  - destruct (Setattr_UpdateNode n req resp w) as (_ & _ & ->).
    rewrite Hnode. unfold UpdateNode. case_decide.
    + destruct (db_Exec _ w) as [[err|[]] w1]; simpl; split; done.
    + done.
  - destruct (Setattr_UpdateNode n req resp w) as (_ & -> & ->).
    rewrite Hnode. unfold UpdateNode. case_decide; [|done].
    by destruct (db_Exec _ w) as [[err|[]] w1].
  - intros dir NewName j Hquiet _ Hfs Hdir Hfree Hrow Hmarshals linked_w.
    assert (linked_w =
            mkWorld
              (mkStore (tree (store w) ++ [mkTree (Inode n) (Inode dir) NewName])
                 (<[Inode n := linked j]> (inodes (store w)))
                 (data_blocks (store w)))
              (inode_seq w) None []) as Hlinked.
    { unfold linked_w. destruct w as [s q tx0 fl].
      unfold quiet in Hquiet. simpl in *. subst fl.
      unfold Link, Attr. rewrite Hfs, Hdir. simpl.
      rewrite GetNodeByID_quiet, Hrow. simpl.
      rewrite CreateLink_quiet. simpl. rewrite decide_False by done.
      rewrite Hrow. rewrite GetNodeByID_quiet. simpl.
      by rewrite lookup_insert_eq. }
    split.
    + rewrite Hlinked. simpl. by rewrite lookup_insert_eq.
    + destruct (Setattr n req resp linked_w) as [[[m resp'] r] w'] eqn:Hrun.
      assert (m = n') as -> by (by rewrite <-(Hnode linked_w), Hrun).
      assert (r = Returns None) as ->.
      { destruct (Setattr_UpdateNode n req resp linked_w) as (_ & _ & Hend).
        rewrite Hnode, Hrun in Hend. simpl in Hend. subst r.
        unfold UpdateNode. rewrite decide_True by done.
        rewrite Hlinked. reflexivity. }
      apply Hown in Hrun. simpl. rewrite Hrun. simpl. by rewrite Hn.
Qed.

Lemma setattr_stores_own_copy_witness :
  let linked_w := (Link rootNode "b" nodeA oneFile).2 in
  j_Nlink <$> inodes (store linked_w) !! 2 = Some 2 ∧
  j_Nlink <$>
    inodes (store (Setattr nodeA (resize 2) zeroAttr linked_w).2) !! 2 = Some 1.
Proof.
  destruct (setattr_stores_own_copy nodeA (resize 2) zeroAttr oneFile)
    as (_ & _ & _ & Hlost).
  apply (Hlost rootNode "b" (fileData 1 2)); try reflexivity.
  - apply (proj1 (bool_decide_eq_false _)). vm_compute. reflexivity.
  - unfold marshals, time_ok. simpl. lia.
Defined.

(** A request that sets the time of modification to a year beyond 9999:
    [Setattr] panics, the node row is as before and the node in memory
    carries the time. *)
Example setattr_time_out_of_range :
  let req :=
    mkSetattr (mkValid false false false false false true false)
      0 0 0 0 0 (10 ^ 21) 0 in
  let run := Setattr nodeA req zeroAttr oneFile in
  run.1.2 = Panics ∧ run.2 = oneFile ∧ Mtime run.1.1.1 = 10 ^ 21 ∧
  (Write run.1.1.1 (mkWrite 0 [x68]) oneFile).1.2 = Panics.
Proof. vm_compute. split_and!; reflexivity. Qed.

(** ** Writing through the node method *)

(** X17.  [Write] replaces the file, wherever the request says to write.
    Of two writes to an inode that both succeed, only the bytes of the
    second are in the blocks afterwards, whatever the offsets of the two
    requests; the answer to each write is the length of its data, and the
    size the node row records is that of the second.  A read that then
    returns data returns the first blocks of the second write,
    [k * BLOCK_SIZE] bytes of it for some [k], and all of it when the
    store does not fail during the read. *)
Theorem last_write_wins (n1 n2 : fileNode) (req1 req2 : WriteRequest)
    (w : World) (n1' n2' : fileNode) (size1 size2 : Z) (w1 w2 : World) :
  Inode n2 = Inode n1 →
  Write n1 req1 w = (n1', Returns (inr size1), w1) →
  Write n2 req2 w1 = (n2', Returns (inr size2), w2) →
  size1 = Z.of_nat (length (wr_Data req1)) ∧
  size2 = Z.of_nat (length (wr_Data req2)) ∧
  content (Inode n1) (store w2) = wr_Data req2 ∧
  j_Size <$> inodes (store w2) !! Inode n1 = Some size2 ∧
  (∀ read w3,
     ReadData (Inode n1) w2 = (inr read, w3) →
     (∃ k, read = take (k * BLOCK_SIZE) (wr_Data req2)) ∧
     (quiet w2 → read = wr_Data req2)).
Proof.
  intros Hsame. unfold Write.
  destruct (WriteData n1 (wr_Data req1) w) as [[m1 [[e1|]|]] v1] eqn:H1;
    [done| |done].
  intros [= <- <- <-].
  destruct (WriteData n2 (wr_Data req2) v1) as [[m2 [[e2|]|]] v2] eqn:H2;
    [done| |done].
  intros [= <- <- <-].
  apply WriteData_ok in H2 as (-> & _ & rows & Hrows & Hstore).
  assert (content (Inode n1) (store v2) = wr_Data req2) as Hcontent.
  { rewrite <-Hsame. eapply content_written; [done|]. by rewrite Hstore. }
  split_and!; try done.
  - rewrite Hstore, <-Hsame. simpl. by rewrite lookup_insert_eq.
  - intros read w3 Hread. split.
    + apply ReadData_ok in Hread as [[k ->] _]. exists k. rewrite <-Hsame.
      eapply scanned_written; [done|]. by rewrite Hstore.
    + destruct v2 as [s2 q2 t2 f2]. unfold quiet. simpl in *. intros ->.
      rewrite ReadData_quiet in Hread. by injection Hread as <- _.
Qed.

Lemma last_write_wins_witness :
  let first := Write nodeA (mkWrite 0 [x68; x65; x6c; x6c; x6f]) oneFile in
  let second := Write first.1.1 (mkWrite 5 [x21]) first.2 in
  content 2 (store second.2) = [x21] ∧
  j_Size <$> inodes (store second.2) !! 2 = Some 1.
Proof.
  intros first second.
  destruct (last_write_wins nodeA first.1.1
              (mkWrite 0 [x68; x65; x6c; x6c; x6f]) (mkWrite 5 [x21]) oneFile
              first.1.1 second.1.1 5 1 first.2 second.2)
    as (_ & _ & Hcontent & Hsize & _); try (vm_compute; reflexivity).
  split; [exact Hcontent|exact Hsize].
Defined.

(** ** What an operation may do to the relations *)

Lemma RenameNode_change oldParent oldName newParent newName w r w' :
  RenameNode oldParent oldName newParent newName w = (r, w') →
  change (store w) (inode_seq w) (store w').
Proof.
  unfold RenameNode, db_Exec, sql_update_tree, next_fault.
  destruct (faults w) as [|[] fl]; simpl;
    repeat case_decide; intros [= <- <-]; simpl;
    try apply change_none.
  - apply change_rename. lia.
  - apply change_rename. lia.
Qed.

Lemma run_change (op : operation) (w : World) :
  change (store w) (inode_seq w) (store (run op w)).
Proof.
  destruct op as [n data|n req resp|oP oN nP nN|parent n|parent name target
                 |now1 now2 parent n]; simpl.
  - destruct (WriteData n data w) as [[n' [[err|]|]] w'] eqn:Hrun; simpl.
    + apply WriteData_fail in Hrun as (-> & _). constructor.
    + apply WriteData_ok in Hrun as (_ & _ & rows & Hrows & ->).
      by eapply change_write.
    + apply WriteData_panic in Hrun as (_ & _ & -> & _). constructor.
  - destruct (Setattr n req resp w) as [[[n' resp'] r] w'] eqn:Hrun. simpl.
    apply Setattr_store in Hrun as (_ & _ & _ & [->| ->]); constructor.
  - destruct (RenameNode oP oN nP nN w) as [r w'] eqn:Hrun. simpl.
    by eapply RenameNode_change.
  - destruct (CreateLink parent n w) as [[err|] w'] eqn:Hrun; simpl.
    + apply CreateLink_fail in Hrun as (-> & _). constructor.
    + apply CreateLink_ok in Hrun as (j & Hrow & Hfree & _ & ->).
      by apply change_link.
  - destruct (RemoveNodeByName parent name target w) as [[err|] w'] eqn:Hrun;
      simpl.
    + apply RemoveNodeByName_fail in Hrun as (-> & _). constructor.
    + apply RemoveNodeByName_ok in Hrun as [(_ & -> & _)|(Hnone & _ & ->)].
      * constructor.
      * by apply change_remove.
  - destruct (UpsertNode now1 now2 parent n w) as [[n' [err|]] w'] eqn:Hrun;
      simpl.
    + apply UpsertNode_fail in Hrun as (-> & _). constructor.
    + apply UpsertNode_ok in Hrun as (Hfree & _ & _ & ->).
      by apply change_insert.
Qed.

(** ** Names stay unique *)

Lemma slot_key parent name (r : tree_row) :
  same_slot parent name r ↔ (t_parent r, t_name r) = (parent, name).
Proof. unfold same_slot. split; [by intros [-> ->]|by intros [= -> ->]]. Qed.

Lemma not_taken_key parent name (l : list tree_row) :
  ¬ Exists (same_slot parent name) l →
  (parent, name) ∉ (λ r, (t_parent r, t_name r)) <$> l.
Proof.
  intros Hfree (r & Hkey & Hr)%list_elem_of_fmap. apply Hfree.
  apply Exists_exists. exists r. split; [done|]. by apply slot_key.
Qed.

Lemma unique_append (l : list tree_row) inode parent name :
  NoDup ((λ r, (t_parent r, t_name r)) <$> l) →
  ¬ Exists (same_slot parent name) l →
  NoDup ((λ r, (t_parent r, t_name r)) <$> (l ++ [mkTree inode parent name])).
Proof.
  intros Hnd Hfree. rewrite fmap_app. apply NoDup_app. split; [done|]. split.
  - intros key Hkey [->|[]%elem_of_nil]%elem_of_cons.
    by apply (not_taken_key parent name l).
  - apply NoDup_singleton.
Qed.

Lemma unique_renamed newName newParent oldName oldParent (l : list tree_row) :
  NoDup ((λ r, (t_parent r, t_name r)) <$> l) →
  (length (filter (same_slot newParent newName)
             (rename_row newName newParent oldName oldParent <$> l)) ≤ 1)%nat →
  NoDup ((λ r, (t_parent r, t_name r)) <$>
           (rename_row newName newParent oldName oldParent <$> l)).
Proof.
  set (ren := rename_row newName newParent oldName oldParent).
  induction l as [|r l IH]; intros Hnd Hcount; [constructor|].
  rewrite !fmap_cons in *. apply NoDup_cons in Hnd as [Hr Hnd].
  assert (length (filter (same_slot newParent newName) (ren <$> l)) ≤ 1)%nat
    as Hcount'.
  { rewrite filter_cons in Hcount. case_decide; simpl in Hcount; lia. }
  apply NoDup_cons. split; [|by apply IH].
  intros (r2' & Hkey & Hin)%list_elem_of_fmap.
  apply list_elem_of_fmap in Hin as (r2 & -> & Hr2).
  assert (∀ e, e ∈ l → same_slot newParent newName (ren e) →
               ¬ same_slot newParent newName (ren r)) as Htwo.
  { intros e He Hnew Hhead.
    rewrite filter_cons_True in Hcount by done. simpl in Hcount.
    assert (ren e ∈ filter (same_slot newParent newName) (ren <$> l)) as Hin.
    { apply list_elem_of_filter. split; [done|]. by apply list_elem_of_fmap_2. }
    destruct (filter _ (ren <$> l)); [by inversion Hin|simpl in Hcount; lia]. }
  destruct (rename_row_columns newName newParent oldName oldParent r)
    as (_ & Hr_keep & Hr_move).
  destruct (rename_row_columns newName newParent oldName oldParent r2)
    as (_ & Hr2_keep & Hr2_move).
  fold ren in Hr_keep, Hr_move, Hr2_keep, Hr2_move.
  destruct (decide (same_slot oldParent oldName r)) as [Hold|Hold];
    destruct (decide (same_slot oldParent oldName r2)) as [Hold2|Hold2].
  - apply Hr. apply list_elem_of_fmap. exists r2. split; [|done].
    apply slot_key in Hold, Hold2. congruence.
  - apply (Htwo r2 Hr2); [|by apply Hr_move].
    apply slot_key. rewrite <-Hkey. apply slot_key. by apply Hr_move.
  - apply (Htwo r2 Hr2); [by apply Hr2_move|].
    apply slot_key. rewrite Hkey. apply slot_key. by apply Hr2_move.
  - apply Hr. apply list_elem_of_fmap. exists r2. split; [|done].
    rewrite Hr_keep, Hr2_keep in Hkey by done. done.
Qed.

Lemma unique_filter (P : tree_row → Prop) `{∀ r, Decision (P r)}
    (l : list tree_row) :
  NoDup ((λ r, (t_parent r, t_name r)) <$> l) →
  NoDup ((λ r, (t_parent r, t_name r)) <$> filter P l).
Proof.
  induction l as [|r l IH]; [done|].
  rewrite fmap_cons. intros [Hr Hnd]%NoDup_cons.
  rewrite filter_cons. case_decide; [|by apply IH].
  rewrite fmap_cons. apply NoDup_cons. split; [|by apply IH].
  intros (r2 & Hkey & [_ Hin]%list_elem_of_filter)%list_elem_of_fmap.
  apply Hr. apply list_elem_of_fmap. eauto.
Qed.

(** X18.  No operation gives a directory two entries of one name: when no
    two tree entries share parent and name, the same holds after any
    operation, in every run. *)
Theorem names_stay_unique (op : operation) (w : World) :
  unique_names (store w) → unique_names (store (run op w)).
Proof.
  unfold unique_names. intros Hnd.
  destruct (run_change op w); simpl; try done.
  - by apply unique_renamed.
  - by apply unique_append.
  - by apply unique_filter.
  - by apply unique_append.
Qed.

Lemma names_stay_unique_witness :
  unique_names (store (run (OpInsert 10 11 1 (set_Name "b" zeroNode)) oneFile)) ∧
  unique_names (store (run (OpRename 1 "a" 1 "c") oneFile)).
Proof.
  assert (unique_names (store oneFile)) as Hinit
    by (unfold unique_names; simpl; apply NoDup_singleton).
  split.
  - apply (names_stay_unique (OpInsert 10 11 1 (set_Name "b" zeroNode)) oneFile
             Hinit).
  - apply (names_stay_unique (OpRename 1 "a" 1 "c") oneFile Hinit).
Defined.

(** ** No entry and no block without a node row *)

(** X19.  No operation leaves a tree entry or a data block behind whose
    own inode has no node row: when the inode of every entry and of every
    block has a row, the same holds after any operation, in every run.
    The parent of an entry is not protected in this way: when
    [RemoveNodeByName] removes the last name of an inode, with its node
    row, every entry under that inode stays in the tree, under a parent
    that has no node row any more. *)
Theorem inodes_stay_present (op : operation) (w : World) :
  (inodes_present (store w) → inodes_present (store (run op w))) ∧
  (∀ parent name inode w' child,
     RemoveNodeByName parent name inode w = (None, w') →
     ¬ Exists (λ r, t_inode r = inode)
         (filter (λ r, ¬ same_slot parent name r) (tree (store w))) →
     child ∈ tree (store w) → t_parent child = inode → inode ≠ rootInode →
     ¬ same_slot parent name child →
     child ∈ tree (store w') ∧ inodes (store w') !! inode = None ∧
     ¬ parents_present (store w')).
Proof.
  split.
  { unfold inodes_present. intros [Htree Hblocks].
    assert (∀ (A : Type) (key : A → Z) inode j (l : list A),
              Forall (λ r, is_Some (inodes (store w) !! key r)) l →
              Forall (λ r, is_Some (<[inode := j]> (inodes (store w)) !! key r)) l)
      as Hkept.
    { intros A key inode j l Hl. eapply Forall_impl; [exact Hl|].
      simpl. intros r Hr.
      destruct (decide (key r = inode)) as [->|Hne].
      - rewrite lookup_insert_eq. eauto.
      - by rewrite lookup_insert_ne. }
    destruct (run_change op w)
      as [|inode j data rows Hrows|inode j|nN nP oN oP Hcount
         |inode parent name j Hfree Hrow|parent name inode Hnone
         |parent name j Hfree]; simpl.
    - done.
    - split; [by apply Hkept|]. apply Forall_app. split.
      + apply Hkept. apply Forall_forall. intros r [_ Hr]%list_elem_of_filter.
        by apply (proj1 (Forall_forall _ _) Hblocks).
      + apply chunked_inode in Hrows. eapply Forall_impl; [exact Hrows|].
        simpl. intros r ->. rewrite lookup_insert_eq. eauto.
    - split; by apply Hkept.
    - split; [|done]. apply Forall_fmap. eapply Forall_impl; [exact Htree|].
      simpl. intros r Hr.
      by destruct (rename_row_columns nN nP oN oP r) as (-> & _).
    - split; [|by apply Hkept]. apply Forall_app. split; [by apply Hkept|].
      constructor; [|constructor]. simpl. rewrite lookup_insert_eq. eauto.
    - split.
      + apply Forall_forall. intros r Hr.
        assert (t_inode r ≠ inode) as Hne.
        { intros Heq. apply Hnone. apply Exists_exists. eauto. }
        rewrite lookup_delete_ne by done.
        apply list_elem_of_filter in Hr as [_ Hr].
        by apply (proj1 (Forall_forall _ _) Htree).
      + apply Forall_forall. intros r [Hne Hr]%list_elem_of_filter.
        rewrite lookup_delete_ne by done.
        by apply (proj1 (Forall_forall _ _) Hblocks).
    - split; [|by apply Hkept]. apply Forall_app. split; [by apply Hkept|].
      constructor; [|constructor]. simpl. rewrite lookup_insert_eq. eauto. }
  intros parent name inode w' child Hrun Hlast Hchild Hunder Hroot Hslot.
  apply RemoveNodeByName_ok in Hrun as [(Hother & _)|(_ & _ & ->)]; [done|].
  simpl.
  assert (child ∈ filter (λ r, ¬ same_slot parent name r) (tree (store w)))
    as Hstays by (by apply list_elem_of_filter).
  split_and!; [done|by rewrite lookup_delete_eq|].
  unfold parents_present. simpl. intros Hall.
  apply (proj1 (Forall_forall _ _) Hall) in Hstays as [?|[j Hj]]; [congruence|].
  rewrite Hunder, lookup_delete_eq in Hj. done.
Qed.

Lemma inodes_stay_present_witness :
  inodes_present (store (run (OpWrite nodeA [x68]) oneFile)) ∧
  (parents_present (store dirWithChild) ∧
   mkTree 3 2 "f" ∈ tree (store (RemoveNodeByName 1 "d" 2 dirWithChild).2) ∧
   ¬ parents_present (store (RemoveNodeByName 1 "d" 2 dirWithChild).2)).
Proof.
  assert (inodes_present (store oneFile)) as Hinit.
  { split; simpl; repeat constructor; simpl;
      apply (proj1 (bool_decide_eq_true _)); vm_compute; reflexivity. }
  destruct (inodes_stay_present (OpWrite nodeA [x68]) oneFile) as [Hkept _].
  destruct (inodes_stay_present (OpRemove 1 "d" 2) dirWithChild)
    as [_ Hparent].
  split; [exact (Hkept Hinit)|]. split.
  - unfold parents_present. simpl.
    apply Forall_cons. split; [by left|].
    apply Forall_cons. split; [|constructor].
    right. apply (proj1 (bool_decide_eq_true _)). vm_compute. reflexivity.
  - destruct (Hparent 1 "d" 2 (RemoveNodeByName 1 "d" 2 dirWithChild).2
                (mkTree 3 2 "f")) as (Hin & _ & Hbroken).
    + reflexivity.
    + apply (proj1 (bool_decide_eq_false _)). vm_compute. reflexivity.
    + simpl. right. left.
    + reflexivity.
    + vm_compute. discriminate.
    + apply (proj1 (bool_decide_eq_false _)). vm_compute. reflexivity.
    + split; [exact Hin|exact Hbroken].
Defined.

(** ** The numbering of the blocks *)

Lemma laid_out_ext inode s s' :
  filter (λ r, b_inode r = inode) (data_blocks s') =
    filter (λ r, b_inode r = inode) (data_blocks s) →
  laid_out inode s → laid_out inode s'.
Proof. unfold laid_out, blocks_of. by intros ->. Qed.

Lemma filter_other inode other (old rows : list block_row) :
  inode ≠ other →
  Forall (λ r, b_inode r = other) rows →
  filter (λ r, b_inode r = inode)
    (filter (λ r, b_inode r ≠ other) old ++ rows) =
  filter (λ r, b_inode r = inode) old.
Proof.
  intros Hne Hrows. rewrite filter_app, list_filter_filter.
  rewrite (filter_none _ rows).
  - rewrite app_nil_r. apply list_filter_iff. intros r. intuition congruence.
  - eapply Forall_impl; [exact Hrows|]. simpl. intros r ??. congruence.
Qed.

(** X20.  The blocks of an inode stay numbered 1, 2, ... without a gap,
    none empty or longer than [BLOCK_SIZE] and all but the last full, under
    every operation, in every run. *)
Theorem blocks_stay_laid_out (op : operation) (w : World) (inode : Z) :
  laid_out inode (store w) → laid_out inode (store (run op w)).
Proof.
  intros Hinit.
  destruct (run_change op w)
    as [|other j data rows Hrows|other j|nN nP oN oP Hcount
       |other parent name j Hfree Hrow|parent name other Hnone
       |parent name j Hfree];
    try exact Hinit.
  - destruct (decide (inode = other)) as [->|Hne].
    + unfold laid_out, blocks_of. simpl.
      rewrite filter_written by (by eapply chunked_inode).
      erewrite numbered_sort; [|by eapply chunked_sequence|done].
      split; [by eapply chunked_sequence|].
      intros i r Hi. by eapply chunked_sizes.
    + eapply laid_out_ext; [|exact Hinit]. simpl.
      apply filter_other; [done|by eapply chunked_inode].
  - destruct (decide (inode = other)) as [->|Hne].
    + unfold laid_out, blocks_of. simpl.
      rewrite list_filter_filter, filter_none.
      * done.
      * apply Forall_forall. intros r _ [??]. done.
    + eapply laid_out_ext; [|exact Hinit]. simpl.
      rewrite <-(app_nil_r (filter _ (data_blocks (store w)))) at 1.
      by apply filter_other.
Qed.

Lemma blocks_stay_laid_out_witness :
  laid_out 2 (store (run (OpWrite nodeA (replicate 1500 x68)) emptyWorld)) ∧
  laid_out 2 (store (run (OpRemove 1 "a" 2) emptyWorld)).
Proof.
  assert (laid_out 2 (store emptyWorld)) as Hinit by (split; [reflexivity|done]).
  split.
  - apply (blocks_stay_laid_out (OpWrite nodeA (replicate 1500 x68)) emptyWorld
             2 Hinit).
  - apply (blocks_stay_laid_out (OpRemove 1 "a" 2) emptyWorld 2 Hinit).
Defined.

(** ** The sequence of inodes *)

Lemma tx_Commit_seq w r w' :
  tx_Commit w = (r, w') → inode_seq w' = inode_seq w.
Proof. unfold tx_Commit. round_trip. Qed.

Lemma tx_InsertReturning_seq parent name w r w' :
  tx_InsertReturning parent name w = (r, w') →
  inode_seq w ≤ inode_seq w' ∧
  (∀ lastId, r = inr lastId → inode_seq w' = inode_seq w + 1).
Proof.
  unfold tx_InsertReturning, next_fault.
  destruct (faults w) as [|[] fl]; simpl;
    destruct (open_tx w) as [s|]; simpl;
    try destruct (sql_insert_tree _ _ _ s); intros [= <- <-]; simpl;
    (split; [lia|intros lastId [=]; lia || done]).
Qed.

Lemma db_Exec_seq stmt w r w' :
  db_Exec stmt w = (r, w') → inode_seq w' = inode_seq w.
Proof. unfold db_Exec. round_trip. Qed.

Lemma GetNodeByID_seq inode w r w' :
  GetNodeByID inode w = (r, w') → inode_seq w' = inode_seq w.
Proof.
  unfold GetNodeByID.
  destruct (db_Query _ w) as [[e|j] w1] eqn:E;
    apply db_Query_store in E as (_ & Q & _); by intros [= <- <-].
Qed.

Ltac seq_step :=
  match goal with
  | |- context [BeginTx ?w] =>
      let E := fresh "E" in
      destruct (BeginTx w) as [[?|[]] ?] eqn:E;
      apply BeginTx_store in E as [_ E]
  | |- context [tx_Exec ?stmt ?w] =>
      let E := fresh "E" in
      destruct (tx_Exec stmt w) as [[?|[]] ?] eqn:E;
      apply tx_Exec_store in E as [_ E]
  | |- context [tx_Query ?q ?w] =>
      let E := fresh "E" in
      destruct (tx_Query q w) as [[?|?] ?] eqn:E;
      apply tx_Query_store in E as [_ E]
  | |- context [tx_Commit ?w] =>
      let E := fresh "E" in
      destruct (tx_Commit w) as [[?|[]] ?] eqn:E;
      apply tx_Commit_seq in E
  | |- context [write_blocks ?i ?q ?d ?w] =>
      let E := fresh "E" in
      destruct (write_blocks i q d w) as [[?|[]] ?] eqn:E;
      apply write_blocks_store in E as (_ & E & _)
  | |- context [GetNodeByID ?i ?w] =>
      let E := fresh "E" in
      destruct (GetNodeByID i w) as [[?|?] ?] eqn:E;
      apply GetNodeByID_seq in E
  | |- context [db_Exec ?stmt ?w] =>
      let E := fresh "E" in
      destruct (db_Exec stmt w) as [[?|[]] ?] eqn:E;
      apply db_Exec_seq in E
  | |- context [tx_InsertReturning ?p ?nm ?w] =>
      let E := fresh "E" in
      destruct (tx_InsertReturning p nm w) as [[?|?] ?] eqn:E;
      apply tx_InsertReturning_seq in E as [E ?]
  | |- context [decide ?P] => destruct (decide P)
  end.

Lemma UpsertNode_seq now1 now2 parent n w n' w' :
  UpsertNode now1 now2 parent n w = (n', None, w') →
  inode_seq w' = inode_seq w + 1.
Proof.
  unfold UpsertNode.
  destruct (BeginTx w) as [[e0|[]] w0] eqn:E0; [done|].
  apply BeginTx_store in E0 as [_ Q0].
  destruct (tx_InsertReturning _ _ w0) as [[e1|lastId] w1] eqn:E1; [done|].
  apply tx_InsertReturning_seq in E1 as [_ Q1].
  destruct (tx_Exec _ w1) as [[e2|[]] w2] eqn:E2; [done|].
  apply tx_Exec_store in E2 as [_ Q2].
  destruct (tx_Commit w2) as [[e3|[]] w3] eqn:E3; [done|].
  apply tx_Commit_seq in E3. intros [= <- <-].
  rewrite E3, Q2, (Q1 lastId), Q0; done.
Qed.

Lemma run_seq (op : operation) (w : World) :
  inode_seq w ≤ inode_seq (run op w).
Proof.
  destruct op; simpl;
    unfold WriteData, Setattr, UpdateNode, RenameNode, CreateLink,
      RemoveNodeByName, UpsertNode;
    repeat seq_step; simpl; lia.
Qed.

(** X21.  Inodes are never handed out twice.  When every inode in the
    three relations lies below the next value of the sequence, then so it
    is after any operation on a node handed out earlier, in every run; and
    the inode an insert takes is carried by no row of the world it starts
    from, so that the insert overwrites no node row. *)
Theorem inodes_are_fresh (op : operation) (w : World) :
  below_seq w → handed_out op w →
  below_seq (run op w) ∧
  ∀ now1 now2 parent n n' w',
    UpsertNode now1 now2 parent n w = (n', None, w') →
    unused (Inode n') (store w) ∧ inode_seq w' = Inode n' + 1.
Proof.
  intros (Htree & Hrows & Hblocks) Hop. split.
  - pose proof (run_seq op w) as Hseq.
    assert (∀ (A : Type) (key : A → Z) (l : list A),
              Forall (λ r, key r < inode_seq w) l →
              Forall (λ r, key r < inode_seq (run op w)) l) as Hkept.
    { intros A key l Hl. eapply Forall_impl; [exact Hl|]. simpl. lia. }
    assert (∀ inode j,
              inode < inode_seq (run op w) →
              ∀ i, is_Some (<[inode := j]> (inodes (store w)) !! i) →
                   i < inode_seq (run op w)) as Hput.
    { intros inode j Hnew i Hi. destruct (decide (i = inode)) as [->|Hne].
      - done.
      - rewrite lookup_insert_ne in Hi by done. apply Hrows in Hi. lia. }
    unfold below_seq.
    destruct op as [n data|n req resp|oP oN nP nN|parent n|parent name target
                   |now1 now2 parent n]; simpl in *.
    + destruct (WriteData n data w) as [[n' [[err|]|]] w'] eqn:Hrun; simpl in *.
      * apply WriteData_fail in Hrun as (-> & _).
        split_and!; [by apply Hkept| |by apply Hkept].
        intros i Hi%Hrows. lia.
      * apply WriteData_ok in Hrun as (_ & _ & rows & Hnew & ->). simpl.
        split_and!; [by apply Hkept|apply Hput; lia|].
        apply Forall_app. split.
        -- apply Hkept. apply Forall_forall.
           intros r [_ Hr]%list_elem_of_filter.
           by apply (proj1 (Forall_forall _ _) Hblocks).
        -- apply chunked_inode in Hnew. eapply Forall_impl; [exact Hnew|].
           simpl. intros r ->. lia.
      * apply WriteData_panic in Hrun as (_ & _ & -> & _).
        split_and!; [by apply Hkept| |by apply Hkept].
        intros i Hi%Hrows. lia.
    + destruct (Setattr n req resp w) as [[[n' resp'] r] w'] eqn:Hrun.
      simpl in *. apply Setattr_store in Hrun as (_ & _ & _ & [->| ->]); simpl.
      * split_and!; [by apply Hkept| |by apply Hkept].
        intros i Hi%Hrows. lia.
      * split_and!; [by apply Hkept|apply Hput; lia|by apply Hkept].
    + destruct (RenameNode oP oN nP nN w) as [r w'] eqn:Hrun. simpl in *.
      apply RenameNode_frame in Hrun as (-> & -> & _ & Hmoved).
      split_and!; [|intros i Hi%Hrows; lia|by apply Hkept].
      destruct Hmoved as [->| ->]; [by apply Hkept|].
      apply Forall_fmap. eapply Forall_impl; [exact Htree|]. simpl.
      intros r0 Hr0.
      destruct (rename_row_columns nN nP oN oP r0) as (-> & _). lia.
    + destruct (CreateLink parent n w) as [[err|] w'] eqn:Hrun; simpl in *.
      * apply CreateLink_fail in Hrun as (-> & _).
        split_and!; [by apply Hkept| |by apply Hkept].
        intros i Hi%Hrows. lia.
      * apply CreateLink_ok in Hrun as (j & Hrow & _ & _ & ->). simpl.
        assert (Inode n < inode_seq w) as Hold by (apply Hrows; eauto).
        split_and!; [|apply Hput; lia|by apply Hkept].
        apply Forall_app. split; [by apply Hkept|].
        constructor; [simpl; lia|constructor].
    + destruct (RemoveNodeByName parent name target w) as [[err|] w'] eqn:Hrun;
        simpl in *.
      * apply RemoveNodeByName_fail in Hrun as (-> & _).
        split_and!; [by apply Hkept| |by apply Hkept].
        intros i Hi%Hrows. lia.
      * apply RemoveNodeByName_ok in Hrun as [(_ & -> & _)|(_ & _ & ->)]; simpl.
        -- split_and!; [by apply Hkept| |by apply Hkept].
           intros i Hi%Hrows. lia.
        -- split_and!.
           ++ apply Hkept. apply Forall_forall.
              intros r [_ Hr]%list_elem_of_filter.
              by apply (proj1 (Forall_forall _ _) Htree).
           ++ intros i [j Hi]. apply lookup_delete_Some in Hi as [_ Hi].
              assert (i < inode_seq w) by (apply Hrows; eauto). lia.
           ++ apply Hkept. apply Forall_forall.
              intros r [_ Hr]%list_elem_of_filter.
              by apply (proj1 (Forall_forall _ _) Hblocks).
    + destruct (UpsertNode now1 now2 parent n w) as [[n' [err|]] w'] eqn:Hrun;
        simpl in *.
      * apply UpsertNode_fail in Hrun as (-> & _).
        split_and!; [by apply Hkept| |by apply Hkept].
        intros i Hi%Hrows. lia.
      * apply UpsertNode_seq in Hrun as Hnext.
        apply UpsertNode_ok in Hrun as (_ & _ & _ & ->). simpl.
        split_and!; [|apply Hput; lia|by apply Hkept].
        apply Forall_app. split; [by apply Hkept|].
        constructor; [simpl; lia|constructor].
  - intros now1 now2 parent n n' w' Hrun.
    apply UpsertNode_seq in Hrun as Hnext.
    apply UpsertNode_ok in Hrun as (_ & -> & _ & _). simpl.
    split; [|done]. unfold unused. split_and!.
    + destruct (inodes (store w) !! inode_seq w) as [j|] eqn:Hrow; [|done].
      assert (inode_seq w < inode_seq w) by (apply Hrows; eauto). lia.
    + eapply Forall_impl; [exact Htree|]. simpl. lia.
    + eapply Forall_impl; [exact Hblocks|]. simpl. lia.
Qed.

Lemma inodes_are_fresh_witness :
  below_seq (run (OpWrite nodeA [x68]) oneFile) ∧
  ∀ now1 now2 parent n n' w',
    UpsertNode now1 now2 parent n oneFile = (n', None, w') →
    unused (Inode n') (store oneFile) ∧ inode_seq w' = Inode n' + 1.
Proof.
  apply (inodes_are_fresh (OpWrite nodeA [x68]) oneFile).
  - split_and!; simpl.
    + repeat constructor.
    + intros inode [j Hrow]. destruct (decide (inode = 2)) as [->|Hne]; [done|].
      by rewrite lookup_singleton_ne in Hrow.
    + repeat constructor.
  - simpl. reflexivity.
Defined.

(** ** Transactions in progress *)

Lemma db_Exec_tx stmt w r w' :
  db_Exec stmt w = (r, w') → open_tx w' = open_tx w.
Proof. unfold db_Exec. round_trip. Qed.

(** X22.  Started without a transaction in progress, an operation ends
    without one, in every run, with two exceptions, in both of which the
    committed relations are as before the call: [RemoveNodeByName] leaves
    its transaction open exactly when it returns [nil] while another tree
    entry still names the inode, and [WriteData] exactly when it panics,
    which it does in [toJSON] after its inserts. *)
Theorem transactions_closed (op : operation) (w : World) :
  open_tx w = None →
  (open_tx (run op w) ≠ None ↔
   (∃ parent name inode,
      op = OpRemove parent name inode ∧
      (RemoveNodeByName parent name inode w).1 = None ∧
      Exists (λ r, t_inode r = inode)
        (filter (λ r, ¬ same_slot parent name r) (tree (store w)))) ∨
   (∃ n data, op = OpWrite n data ∧ (WriteData n data w).1.2 = Panics)) ∧
  (open_tx (run op w) ≠ None → store (run op w) = store w).
Proof.
  intros Hclosed.
  assert (∀ op', (∀ parent name inode, op' ≠ OpRemove parent name inode) →
                 (∀ n data, op' ≠ OpWrite n data) →
                 ¬ ((∃ parent name inode,
                       op' = OpRemove parent name inode ∧
                       (RemoveNodeByName parent name inode w).1 = None ∧
                       Exists (λ r, t_inode r = inode)
                         (filter (λ r, ¬ same_slot parent name r)
                            (tree (store w)))) ∨
                    (∃ n data, op' = OpWrite n data ∧
                               (WriteData n data w).1.2 = Panics)))
    as Hother.
  { intros op' Hr Hw [(p & nm & i & -> & _)|(n & data & -> & _)].
    - by eapply Hr.
    - by eapply Hw. }
  destruct op as [n data|n req resp|oP oN nP nN|parent n|parent name target
                 |now1 now2 parent n]; simpl.
  - destruct (WriteData n data w) as [[n' [[err|]|]] w'] eqn:Hrun; simpl.
    + pose proof (WriteData_fail _ _ _ _ _ _ Hrun) as (_ & _ & Htx).
      rewrite (Htx Hclosed). split; [|done]. split; [done|].
      intros [(? & ? & ? & [=] & _)|(m & d & [= <- <-] & Hp)].
      by rewrite Hrun in Hp.
    + pose proof (WriteData_ok _ _ _ _ _ Hrun) as (_ & Htx & _).
      rewrite Htx. split; [|done]. split; [done|].
      intros [(? & ? & ? & [=] & _)|(m & d & [= <- <-] & Hp)].
      by rewrite Hrun in Hp.
    + pose proof (WriteData_panic _ _ _ _ _ Hrun)
        as (_ & _ & Hstore & _ & rows & _ & Htx).
      rewrite Htx. split; [|done]. split; [|done].
      intros _. right. exists n, data. by rewrite Hrun.
  - assert (open_tx (Setattr n req resp w).2 = None) as ->.
    { unfold Setattr, UpdateNode. case_decide; [|done].
      destruct (db_Exec _ w) as [[e|[]] w'] eqn:Hrun;
        apply db_Exec_tx in Hrun; simpl; congruence. }
    split; [|done]. split; [done|]. intros H. by eapply Hother in H.
  - assert (open_tx (RenameNode oP oN nP nN w).2 = None) as ->.
    { unfold RenameNode.
      destruct (db_Exec _ w) as [[e|[]] w'] eqn:Hrun;
        apply db_Exec_tx in Hrun; simpl; congruence. }
    split; [|done]. split; [done|]. intros H. by eapply Hother in H.
  - assert (open_tx (CreateLink parent n w).2 = None) as ->.
    { destruct (CreateLink parent n w) as [[err|] w'] eqn:Hrun; simpl.
      - apply CreateLink_fail in Hrun as (_ & Htx). auto.
      - by apply CreateLink_ok in Hrun as (j & _ & _ & Htx & _). }
    split; [|done]. split; [done|]. intros H. by eapply Hother in H.
  - destruct (RemoveNodeByName parent name target w) as [[err|] w'] eqn:Hrun;
      simpl.
    + pose proof (RemoveNodeByName_fail _ _ _ _ _ _ Hrun) as (_ & Htx).
      rewrite (Htx Hclosed). split; [|done]. split; [done|].
      intros [(p & nm & i & [= <- <- <-] & Hnil & _)|(? & ? & [=] & _)].
      rewrite Hrun in Hnil. done.
    + pose proof (RemoveNodeByName_ok _ _ _ _ _ Hrun)
        as [(Hexists & Hstore & Htx)|(Hnone & Htx & _)].
      * rewrite Htx. split; [|done]. split; [|done].
        intros _. left. exists parent, name, target. by rewrite Hrun.
      * rewrite Htx. split; [|done]. split; [done|].
        intros [(p & nm & i & [= <- <- <-] & _ & Hexists)|(? & ? & [=] & _)].
        done.
  - assert (open_tx (UpsertNode now1 now2 parent n w).2 = None) as ->.
    { destruct (UpsertNode now1 now2 parent n w) as [[n' [err|]] w'] eqn:Hrun;
        simpl.
      - apply UpsertNode_fail in Hrun as (_ & Htx). auto.
      - by apply UpsertNode_ok in Hrun as (_ & _ & Htx & _). }
    split; [|done]. split; [done|]. intros H. by eapply Hother in H.
Qed.

Lemma transactions_closed_witness :
  open_tx (run (OpRemove 1 "a" 2) twoLinks) ≠ None ∧
  store (run (OpRemove 1 "a" 2) twoLinks) = store twoLinks ∧
  open_tx (run (OpWrite (set_Atime (10 ^ 21) nodeA) [x68]) oneFile) ≠ None ∧
  open_tx (run (OpWrite nodeA [x68]) oneFile) = None.
Proof.
  destruct (transactions_closed (OpRemove 1 "a" 2) twoLinks eq_refl)
    as [Hopen Hsame].
  destruct (transactions_closed (OpWrite (set_Atime (10 ^ 21) nodeA) [x68])
              oneFile eq_refl) as [Hpanic _].
  assert (open_tx (run (OpRemove 1 "a" 2) twoLinks) ≠ None) as Hleft.
  { apply Hopen. left. exists 1, "a", 2. split; [reflexivity|].
    split; [reflexivity|].
    apply (proj1 (bool_decide_eq_true _)). vm_compute. reflexivity. }
  split_and!.
  - exact Hleft.
  - exact (Hsame Hleft).
  - apply Hpanic. right. eexists _, _. split; reflexivity.
  - reflexivity.
Defined.

(** ** The order of the stored rows *)

Lemma sorted_blocks_unique (l1 l2 : list block_row) :
  NoDup ((λ r, (b_inode r, b_sequence r)) <$> l1) →
  l1 ≡ₚ l2 → ∀ inode,
  merge_sort by_sequence (filter (λ r, b_inode r = inode) l1) =
  merge_sort by_sequence (filter (λ r, b_inode r = inode) l2).
Proof.
  intros Hkeys Hperm inode.
  assert (filter (λ r, b_inode r = inode) l1 ≡ₚ
          filter (λ r, b_inode r = inode) l2) as Hfilter by (by rewrite Hperm).
  apply (Sorted_unique_strong by_sequence).
  - intros x1 x2 Hx1 Hx2 H12 H21.
    rewrite merge_sort_Permutation in Hx1.
    rewrite merge_sort_Permutation, <-Hfilter in Hx2.
    apply list_elem_of_filter in Hx1 as [Hi1 Hx1], Hx2 as [Hi2 Hx2].
    unfold by_sequence in H12, H21.
    assert (b_sequence x1 = b_sequence x2) as Hseq by lia.
    apply list_elem_of_lookup in Hx1 as [i Hi], Hx2 as [k Hk].
    assert (i = k) as ->.
    { eapply NoDup_lookup; [exact Hkeys|..].
      - rewrite list_lookup_fmap, Hi. reflexivity.
      - rewrite list_lookup_fmap, Hk. simpl. by rewrite Hi1, Hi2, Hseq. }
    congruence.
  - apply (Sorted_merge_sort by_sequence).
  - apply (Sorted_merge_sort by_sequence).
  - by rewrite !merge_sort_Permutation.
Qed.

(** X23.  What [ReadData] returns does not depend on the order in which
    the store holds the rows of [data_blocks]: with the primary key
    [(inode, sequence)] respected, two stores holding the same rows give
    the same bytes for every inode. *)
Theorem read_ignores_row_order (inode : Z) (w1 w2 : World) :
  NoDup ((λ r, (b_inode r, b_sequence r)) <$> data_blocks (store w1)) →
  data_blocks (store w1) ≡ₚ data_blocks (store w2) →
  quiet w1 → quiet w2 →
  (ReadData inode w1).1 = (ReadData inode w2).1.
Proof.
  destruct w1 as [s1 q1 t1 f1], w2 as [s2 q2 t2 f2]. unfold quiet. simpl.
  intros Hkeys Hperm -> ->. rewrite !ReadData_quiet. simpl.
  by rewrite (sorted_blocks_unique _ _ Hkeys Hperm).
Qed.

Lemma read_ignores_row_order_witness :
  (ReadData 2
     (mkWorld (mkStore [] ∅ [mkBlock 2 1 [x68]; mkBlock 3 1 [x6a];
                              mkBlock 2 2 [x69]]) 4 None [])).1 =
  (ReadData 2
     (mkWorld (mkStore [] ∅ [mkBlock 2 2 [x69]; mkBlock 2 1 [x68];
                              mkBlock 3 1 [x6a]]) 4 None [])).1.
Proof.
  apply read_ignores_row_order.
  - simpl. apply (proj1 (bool_decide_eq_true _)). vm_compute. reflexivity.
  - exact (Permutation_app_comm [mkBlock 2 1 [x68]; mkBlock 3 1 [x6a]]
             [mkBlock 2 2 [x69]]).
  - reflexivity.
  - reflexivity.
Defined.

(** ** Renaming through the node method *)

Lemma renamed_new_slot newName newParent oldName oldParent (l : list tree_row) :
  ¬ Exists (same_slot newParent newName) l →
  filter (same_slot newParent newName)
    (rename_row newName newParent oldName oldParent <$> l) =
  rename_row newName newParent oldName oldParent <$>
    filter (same_slot oldParent oldName) l.
Proof.
  intros Hfree. apply not_Exists_Forall in Hfree; [|apply _].
  induction Hfree as [|r l Hr _ IH]; [done|].
  destruct (rename_row_columns newName newParent oldName oldParent r)
    as (_ & Hkeep & Hmove).
  rewrite fmap_cons.
  destruct (decide (same_slot oldParent oldName r)) as [Hold|Hold].
  - rewrite filter_cons_True by auto.
    rewrite (filter_cons_True (same_slot oldParent oldName)) by done.
    by rewrite fmap_cons, IH.
  - rewrite Hkeep by done. rewrite filter_cons_False by done.
    by rewrite (filter_cons_False (same_slot oldParent oldName)).
Qed.

Lemma renamed_old_slot newName newParent oldName oldParent (l : list tree_row) :
  (newParent, newName) ≠ (oldParent, oldName) →
  filter (same_slot oldParent oldName)
    (rename_row newName newParent oldName oldParent <$> l) = [].
Proof.
  intros Hne. apply filter_none, Forall_fmap, Forall_forall. intros r _.
  simpl.
  destruct (rename_row_columns newName newParent oldName oldParent r)
    as (_ & Hkeep & Hmove).
  destruct (decide (same_slot oldParent oldName r)) as [Hold|Hold].
  - intros [Hp Hn]. destruct (Hmove Hold) as [Hp' Hn']. congruence.
  - by rewrite Hkeep.
Qed.

(** X24.  A renamed entry is found under its new name and no longer under
    the old one.  When the store does not fail, the old name is the entry
    of [inode] and the new name is free in the directory [newDir], then
    [Rename] returns success; afterwards [Lookup] of the old name gives
    [ENOENT], [Lookup] of the new name gives the node of [inode] with its
    row as it was, and [ReadData] gives the bytes it gave before. *)
Theorem rename_then_lookup (dir newDir : fileNode) (OldName NewName : string)
    (inode : Z) (j : struct_data) (w : World) :
  quiet w →
  fs dir = true → IsDirectory dir = true →
  fs newDir = true → IsDirectory newDir = true →
  filter (same_slot (Inode dir) OldName) (tree (store w)) =
    [mkTree inode (Inode dir) OldName] →
  ¬ taken (Inode newDir) NewName (store w) →
  inodes (store w) !! inode = Some j →
  ∃ w',
    Rename dir OldName NewName newDir w = (None, w') ∧
    Lookup dir OldName w' = (inl ENOENT, w') ∧
    Lookup newDir NewName w' =
      (inr (set_fs true (Unmarshal j (set_Inode inode zeroNode))), w') ∧
    (ReadData inode w').1 = (ReadData inode w).1.
Proof.
  destruct w as [s q tx0 fl]. unfold quiet, taken. simpl.
  intros -> Hfs Hdir Hfs' Hdir' Hslot Hfree Hrow.
  assert (Exists (same_slot (Inode dir) OldName) (tree s)) as Hold.
  { apply Exists_exists. exists (mkTree inode (Inode dir) OldName).
    split; [|done].
    eapply (proj1 (list_elem_of_filter (same_slot (Inode dir) OldName) _ _)).
    rewrite Hslot. by left. }
  assert ((Inode newDir, NewName) ≠ (Inode dir, OldName)) as Hne.
  { intros [= Hp Hn]. rewrite Hp, Hn in Hfree. done. }
  pose proof (renamed_new_slot NewName (Inode newDir) OldName (Inode dir)
                (tree s) Hfree) as Hnew.
  rewrite Hslot in Hnew. unfold rename_row in Hnew at 2. simpl in Hnew.
  rewrite decide_True in Hnew by done. simpl in Hnew.
  pose proof (renamed_old_slot NewName (Inode newDir) OldName (Inode dir)
                (tree s) Hne) as Hgone.
  assert (a_Inode (Attr newDir zeroAttr (mkWorld s q tx0 [])).1.1 = Inode newDir
          ∧ (Attr newDir zeroAttr (mkWorld s q tx0 [])).2 = mkWorld s q tx0 []
          ∧ (Attr newDir zeroAttr (mkWorld s q tx0 [])).1.2 = None)
    as (Hattr & Hsame & Hnil).
  { unfold Attr. rewrite GetNodeByID_quiet.
    by destruct (inodes s !! Inode newDir). }
  eexists. split.
  - unfold Rename. rewrite Hfs. simpl.
    destruct (Attr newDir zeroAttr (mkWorld s q tx0 [])) as [[attr r] w1].
    simpl in Hattr, Hsame, Hnil. subst r w1. rewrite Hattr.
    unfold RenameNode, db_Exec, sql_update_tree. simpl.
    destruct (decide (Exists (same_slot (Inode dir) OldName) (tree s)));
      [|exfalso; auto].
    rewrite Hnew. simpl. reflexivity.
  - split_and!.
    + unfold Lookup. rewrite Hfs, Hdir. simpl.
      rewrite GetNodeByName_quiet. simpl. by rewrite Hgone.
    + unfold Lookup. rewrite Hfs', Hdir'. simpl.
      rewrite GetNodeByName_quiet. simpl. rewrite Hnew. simpl.
      by rewrite Hrow.
    + by rewrite !ReadData_quiet.
Qed.

Lemma rename_then_lookup_witness :
  ∃ w',
    Rename rootNode "a" "c" rootNode oneFile = (None, w') ∧
    Lookup rootNode "a" w' = (inl ENOENT, w') ∧
    Lookup rootNode "c" w' =
      (inr (set_fs true (Unmarshal (fileData 1 2) (set_Inode 2 zeroNode))), w') ∧
    (ReadData 2 w').1 = (ReadData 2 oneFile).1.
Proof.
  apply (rename_then_lookup rootNode rootNode "a" "c" 2 (fileData 1 2) oneFile);
    try reflexivity.
  apply (proj1 (bool_decide_eq_false _)). vm_compute. reflexivity.
Defined.

(** ** Creating and removing *)

(** X25.  Removing what was just created restores the relations.  When
    the store does not fail, the name is free and the inode the sequence
    gives next is carried by no row, [Create] followed by [Remove] of the
    same name (without the directory flag) succeeds and leaves the three
    relations exactly as they were before the [Create]; only the sequence
    has moved on. *)
Theorem create_then_remove (now1 now2 : Z) (dir : fileNode) (name : string)
    (mode : Z) (w : World) :
  quiet w →
  fs dir = true →
  ¬ taken (Inode dir) name (store w) →
  unused (inode_seq w) (store w) →
  ∃ created w1,
    Create now1 now2 dir name mode w = (inr created, w1) ∧
    Remove dir (mkRemove name false) w1 =
      (None, mkWorld (store w) (inode_seq w + 1) None []).
Proof.
  destruct w as [s q tx0 fl]. unfold quiet, taken. simpl.
  intros -> Hfs Hfree (Hrow & Htree & Hblocks).
  apply not_Exists_Forall in Hfree as Hnone; [|apply _].
  unfold Create. rewrite Hfs. simpl.
  rewrite UpsertNode_quiet by done.
  do 2 eexists. split; [reflexivity|]. simpl.
  erewrite (Remove_last_entry dir (mkRemove name false) q); simpl;
    [|done|done| |by rewrite lookup_insert_eq|done].
  - rewrite RemoveNodeByName_quiet. simpl.
    assert (filter (λ r, ¬ same_slot (Inode dir) name r)
              (tree s ++ [mkTree q (Inode dir) name]) = tree s) as ->.
    { rewrite filter_app, filter_cons_False, filter_nil, app_nil_r
        by (unfold same_slot; simpl; tauto).
      clear -Hnone. induction Hnone as [|r l Hr _ IH]; [done|].
      by rewrite filter_cons_True, IH. }
    rewrite (filter_none (λ r, t_inode r = q)) by done. simpl.
    rewrite delete_insert_id by done.
    assert (filter (λ r, b_inode r ≠ q) (data_blocks s) = data_blocks s) as ->.
    { clear -Hblocks. induction Hblocks as [|r l Hr _ IH]; [done|].
      by rewrite filter_cons_True, IH. }
    by destruct s.
  - rewrite filter_app, filter_none by done. simpl.
    by rewrite filter_cons_True by done.
Qed.

Lemma create_then_remove_witness :
  ∃ created w1,
    Create 10 11 rootNode "b" 420 oneFile = (inr created, w1) ∧
    Remove rootNode (mkRemove "b" false) w1 =
      (None, mkWorld (store oneFile) (inode_seq oneFile + 1) None []).
Proof.
  apply (create_then_remove 10 11 rootNode "b" 420 oneFile).
  - reflexivity.
  - reflexivity.
  - apply (proj1 (bool_decide_eq_false _)). vm_compute. reflexivity.
  - split_and!; simpl.
    + reflexivity.
    + repeat constructor. simpl. lia.
    + repeat constructor. simpl. lia.
Defined.

(** ** The link count after [Link] *)

Lemma Attr_inode n attr w :
  a_Inode (Attr n attr w).1.1 = Inode n.
Proof. unfold Attr. by destruct (GetNodeByID (Inode n) w) as [[e|u] w1]. Qed.

(** X26.  Every name of a file shows the link count [Link] has stored.  In
    any run in which [Link] returns a node, the node has the inode of the
    linked one, the new name and the stored link count raised by one
    ([uint32] arithmetic), and the node row holds that count; when the
    store then does not fail, [Attr] reports it for the node returned and
    for the node the link was made from, whose own field is out of date. *)
Theorem link_then_attr (dir : fileNode) (NewName : string) (old : fileNode)
    (j : struct_data) (w : World) (new : fileNode) (w' : World) :
  inodes (store w) !! Inode old = Some j →
  Link dir NewName old w = (inr new, w') →
  Inode new = Inode old ∧ Name new = NewName ∧
  Nlink new = wrap32 (j_Nlink j + 1) ∧
  inodes (store w') !! Inode old = Some (linked j) ∧
  (quiet w' →
   a_Nlink (Attr new zeroAttr w').1.1 = wrap32 (j_Nlink j + 1) ∧
   a_Nlink (Attr old zeroAttr w').1.1 = wrap32 (j_Nlink j + 1)).
Proof.
  intros Hrow. unfold Link.
  destruct (negb (fs dir)); [done|].
  destruct (negb (IsDirectory dir)); [done|].
  pose proof (Attr_inode old zeroAttr w) as Hinode.
  destruct (Attr_store old zeroAttr w) as [(S0 & _ & _) _].
  destruct (Attr old zeroAttr w) as [[attr r] w0]. simpl in Hinode, S0.
  destruct r as [err|]; [done|]. rewrite Hinode.
  destruct (CreateLink _ _ w0) as [[err|] w1] eqn:E1; [done|].
  apply CreateLink_ok in E1 as (j' & Hrow' & _ & _ & S1). simpl in Hrow'.
  rewrite S0, Hrow in Hrow'. injection Hrow' as <-.
  destruct (GetNodeByID (Inode old) w1) as [[err|found] w2] eqn:E2; [done|].
  apply GetNodeByID_ok in E2 as (j2 & Hrow2 & -> & S2 & _).
  rewrite S1 in Hrow2. simpl in Hrow2. rewrite lookup_insert_eq in Hrow2.
  injection Hrow2 as <-. intros [= <- <-].
  assert (inodes (store w2) !! Inode old = Some (linked j)) as Hstored.
  { rewrite S2, S1. simpl. by rewrite lookup_insert_eq. }
  split_and!; try done.
  destruct w2 as [s2 q2 t2 f2]. unfold quiet. simpl in *. intros ->.
  unfold Attr. simpl. rewrite !GetNodeByID_quiet, Hstored. done.
Qed.

Lemma link_then_attr_witness :
  Inode (set_fs true (set_Name "b" (Unmarshal (linked (fileData 1 2))
                                       (set_Inode 2 zeroNode)))) = 2 ∧
  a_Nlink (Attr nodeA zeroAttr (Link rootNode "b" nodeA oneFile).2).1.1 = 2.
Proof.
  destruct (link_then_attr rootNode "b" nodeA (fileData 1 2) oneFile
              (set_fs true (set_Name "b" (Unmarshal (linked (fileData 1 2))
                                            (set_Inode 2 zeroNode))))
              (Link rootNode "b" nodeA oneFile).2)
    as (Hinode & _ & _ & _ & Hattr).
  - reflexivity.
  - vm_compute. reflexivity.
  - split; [exact Hinode|]. destruct Hattr as [_ Hold]; [reflexivity|].
    exact Hold.
Defined.
